(** * MangaColor: the batch-processing workflow engine

    A shallow embedding of the Python backend
    ([app/models/schemas.py], [app/services/state_manager.py],
    [app/services/pdf_service.py], [app/services/batch_processor.py],
    [app/services/gemini_service.py], [app/api/websocket.py],
    [app/api/routes.py]) and the properties of its specification.

    Python integers are [Z]; strings are [string]; dictionaries keyed by
    the file id are [gmap string _]; Python sets are [gset _]; Python
    lists stay lists (their order and duplicates are observable). *)

From stdpp Require Import gmap strings list fin_maps sorting pretty.
From Stdlib Require Import ZArith Lia.

Local Open Scope Z_scope.

(** ** schemas.py *)

Module ProcessingStatus.

Inductive t := IDLE | PROCESSING | PAUSED | COMPLETED | ERROR.

#[global] Instance eq_dec : EqDecision t.
Proof. solve_decision. Defined.

(** The enum is a [str] enum: its value is what goes on the wire. *)
Definition value (s : t) : string :=
  match s with
  | IDLE => "idle" | PROCESSING => "processing" | PAUSED => "paused"
  | COMPLETED => "completed" | ERROR => "error"
  end.

End ProcessingStatus.

Module BatchStatus.

Inductive t := PENDING | PROCESSING | COMPLETED | FAILED.

#[global] Instance eq_dec : EqDecision t.
Proof. solve_decision. Defined.

End BatchStatus.

Module BatchInfo.

Record t := mk {
  batch_number : Z;
  start_page : Z;
  end_page : Z;
  status : BatchStatus.t;
  prompt_used : option string;
  completed_pages : list Z
}.

#[global] Instance eq_dec : EqDecision t.
Proof. solve_decision. Defined.

End BatchInfo.

Module ProcessingState.

Record t := mk {
  file_id : string;
  filename : string;
  total_pages : Z;
  step_size : Z;
  current_batch : Z;
  total_batches : Z;
  status : ProcessingStatus.t;
  current_prompt : string;
  completed_pages : list Z;
  batches : list BatchInfo.t;
  error_message : option string
}.

#[global] Instance eq_dec : EqDecision t.
Proof. solve_decision. Defined.

End ProcessingState.

(** ** websocket.py: the messages handed to [manager.send_to_file]

    The [percentage] of a progress message is a rounded float and the
    [outputPath] of a page-complete message is the path derived from the
    page number; neither is kept. *)

Inductive Message :=
| MsgProgress (file_id : string) (current_page total_pages batch_number : Z)
| MsgPageComplete (file_id : string) (page_number : Z)
| MsgBatchComplete (file_id : string) (batch_number start_page end_page : Z)
| MsgStatus (file_id : string) (status : string) (message : string)
| MsgError (file_id : string) (error : string) (page_number : option Z).

#[global] Instance Message_eq_dec : EqDecision Message.
Proof. solve_decision. Defined.

(** ** The process state

    One record holds what the three service singletons of [routes.py]
    hold between them, and the two logs the properties are stated on.

    - [states] is [StateManager._states]. [_save_state] writes the cached
      record through to [states/<id>.json] after every mutation, so cache
      and file agree; [saved] is the sequence of snapshots written, latest
      first. Storage faults are not modelled.
    - [uploads], [original_pdf] and [outputs] are the directories of
      [PDFService]: the page numbers [n] for which
      [uploads/<id>/page_<n>.png] exists (a key is present when the
      directory exists), whether [uploads/<id>/original.pdf] exists, and
      the pairs for which [outputs/<id>/page_<n>.png] exists.
    - [tasks] is [BatchProcessor._tasks]; an [asyncio.Task] is named by a
      number, [finished] holds the tasks for which [done()] is true and
      [cancelled] those on which [cancel()] was called.
    - [events] are the messages passed to [manager.send_to_file] and
      [calls] the invocations [(file id, page, prompt)] of
      [gemini_service.colorize_image], both latest first. *)

Record World := mkWorld {
  states : gmap string ProcessingState.t;
  saved : list ProcessingState.t;
  uploads : gmap string (gset Z);
  original_pdf : gset string;
  outputs : gset (string * Z);
  tasks : gmap string nat;
  next_task : nat;
  finished : gset nat;
  cancelled : gset nat;
  pause_signals : gset string;
  stop_signals : gset string;
  auto_run : gset string;
  events : list Message;
  calls : list (string * Z * string)
}.

Definition set_states (f : gmap string ProcessingState.t → gmap string ProcessingState.t)
    (w : World) : World :=
  mkWorld (f (states w)) (saved w) (uploads w) (original_pdf w) (outputs w)
    (tasks w) (next_task w) (finished w) (cancelled w)
    (pause_signals w) (stop_signals w) (auto_run w) (events w) (calls w).

Definition set_saved (f : list ProcessingState.t → list ProcessingState.t)
    (w : World) : World :=
  mkWorld (states w) (f (saved w)) (uploads w) (original_pdf w) (outputs w)
    (tasks w) (next_task w) (finished w) (cancelled w)
    (pause_signals w) (stop_signals w) (auto_run w) (events w) (calls w).

Definition set_outputs (f : gset (string * Z) → gset (string * Z))
    (w : World) : World :=
  mkWorld (states w) (saved w) (uploads w) (original_pdf w) (f (outputs w))
    (tasks w) (next_task w) (finished w) (cancelled w)
    (pause_signals w) (stop_signals w) (auto_run w) (events w) (calls w).

Definition set_tasks (f : gmap string nat → gmap string nat) (w : World) : World :=
  mkWorld (states w) (saved w) (uploads w) (original_pdf w) (outputs w)
    (f (tasks w)) (next_task w) (finished w) (cancelled w)
    (pause_signals w) (stop_signals w) (auto_run w) (events w) (calls w).

Definition set_next_task (f : nat → nat) (w : World) : World :=
  mkWorld (states w) (saved w) (uploads w) (original_pdf w) (outputs w)
    (tasks w) (f (next_task w)) (finished w) (cancelled w)
    (pause_signals w) (stop_signals w) (auto_run w) (events w) (calls w).

Definition set_finished (f : gset nat → gset nat) (w : World) : World :=
  mkWorld (states w) (saved w) (uploads w) (original_pdf w) (outputs w)
    (tasks w) (next_task w) (f (finished w)) (cancelled w)
    (pause_signals w) (stop_signals w) (auto_run w) (events w) (calls w).

Definition set_cancelled (f : gset nat → gset nat) (w : World) : World :=
  mkWorld (states w) (saved w) (uploads w) (original_pdf w) (outputs w)
    (tasks w) (next_task w) (finished w) (f (cancelled w))
    (pause_signals w) (stop_signals w) (auto_run w) (events w) (calls w).

Definition set_pause_signals (f : gset string → gset string) (w : World) : World :=
  mkWorld (states w) (saved w) (uploads w) (original_pdf w) (outputs w)
    (tasks w) (next_task w) (finished w) (cancelled w)
    (f (pause_signals w)) (stop_signals w) (auto_run w) (events w) (calls w).

Definition set_stop_signals (f : gset string → gset string) (w : World) : World :=
  mkWorld (states w) (saved w) (uploads w) (original_pdf w) (outputs w)
    (tasks w) (next_task w) (finished w) (cancelled w)
    (pause_signals w) (f (stop_signals w)) (auto_run w) (events w) (calls w).

Definition set_auto_run (f : gset string → gset string) (w : World) : World :=
  mkWorld (states w) (saved w) (uploads w) (original_pdf w) (outputs w)
    (tasks w) (next_task w) (finished w) (cancelled w)
    (pause_signals w) (stop_signals w) (f (auto_run w)) (events w) (calls w).

Definition set_events (f : list Message → list Message) (w : World) : World :=
  mkWorld (states w) (saved w) (uploads w) (original_pdf w) (outputs w)
    (tasks w) (next_task w) (finished w) (cancelled w)
    (pause_signals w) (stop_signals w) (auto_run w) (f (events w)) (calls w).

Definition set_calls (f : list (string * Z * string) → list (string * Z * string))
    (w : World) : World :=
  mkWorld (states w) (saved w) (uploads w) (original_pdf w) (outputs w)
    (tasks w) (next_task w) (finished w) (cancelled w)
    (pause_signals w) (stop_signals w) (auto_run w) (events w) (f (calls w)).

Definition set_uploads (f : gmap string (gset Z) → gmap string (gset Z))
    (w : World) : World :=
  mkWorld (states w) (saved w) (f (uploads w)) (original_pdf w) (outputs w)
    (tasks w) (next_task w) (finished w) (cancelled w)
    (pause_signals w) (stop_signals w) (auto_run w) (events w) (calls w).

Definition set_original_pdf (f : gset string → gset string) (w : World) : World :=
  mkWorld (states w) (saved w) (uploads w) (f (original_pdf w)) (outputs w)
    (tasks w) (next_task w) (finished w) (cancelled w)
    (pause_signals w) (stop_signals w) (auto_run w) (events w) (calls w).

(** ** Exceptions and the monad of the coroutines

    A coroutine takes the process state and either returns a value or
    raises; both leave a process state behind. *)

Inductive Exn :=
| CancelledError
| Exception (msg : string).

Inductive Result (A : Type) :=
| Ok (a : A) (w : World)
| Raise (e : Exn) (w : World).

Arguments Ok {A} a w.

Arguments Raise {A} e w.

Definition M (A : Type) : Type := World → Result A.

Definition ret {A} (a : A) : M A := fun w => Ok a w.

Definition raise {A} (e : Exn) : M A := fun w => Raise e w.

Definition bind {A B} (m : M A) (k : A → M B) : M B :=
  fun w => match m w with
           | Ok a w' => k a w'
           | Raise e w' => Raise e w'
           end.

Definition modify (f : World → World) : M unit := fun w => Ok tt (f w).

Definition gets {A} (f : World → A) : M A := fun w => Ok (f w) w.

#[global] Instance M_ret : MRet M := @ret.

#[global] Instance M_bind : MBind M := fun A B k m => bind m k.

Definition world_of {A} (r : Result A) : World :=
  match r with Ok _ w => w | Raise _ w => w end.

(** ** pdf_service.py *)

Module PDFService.

(** [len(list(upload_dir.glob("page_*.png")))], 0 when the directory is
    missing. *)
Definition get_total_pages (file_id : string) (w : World) : Z :=
  match uploads w !! file_id with
  | Some pages => Z.of_nat (size pages)
  | None => 0
  end.

(** The path is determined by the page number, so only its presence is
    returned. *)
Definition get_page_image_path (file_id : string) (page_number : Z) (w : World) : bool :=
  match uploads w !! file_id with
  | Some pages => bool_decide (page_number ∈ pages)
  | None => false
  end.

Definition get_colorized_image_path (file_id : string) (page_number : Z) (w : World) : bool :=
  bool_decide ((file_id, page_number) ∈ outputs w).

Definition save_colorized_image (file_id : string) (page_number : Z) (w : World) : World :=
  set_outputs (fun o => {[ (file_id, page_number) ]} ∪ o) w.

(** [pdf_path.name if pdf_path else "unknown.pdf"] in [initialize_state]. *)
Definition original_pdf_name (file_id : string) (w : World) : string :=
  if bool_decide (file_id ∈ original_pdf w) then "original.pdf" else "unknown.pdf".

(** [for page_num in range(start_page, end_page + 1): unlink if exists]. *)
Definition delete_batch_images (file_id : string) (start_page end_page : Z)
    (w : World) : World :=
  set_outputs (fun o =>
    foldl (fun o page_num => o ∖ {[ (file_id, page_num) ]}) o
          (seqZ start_page (end_page + 1 - start_page))) w.

Record UploadResponse := mkUploadResponse {
  success : bool;
  file_id : string;
  filename : string;
  total_pages : Z;
  message : string
}.

(** [_extract_pages]: page [page_num] of the document, counted from 0,
    is saved as [page_<page_num + 1>.png]. *)
Definition _extract_pages (file_id : string) (total_pages : Z) (w : World) : World :=
  set_uploads (fun u =>
    <[file_id := list_to_set ((fun page_num => page_num + 1) <$> seqZ 0 total_pages)
                 ∪ default ∅ (u !! file_id)]> u) w.

(** [upload_and_process]. [file_id] is what [str(uuid.uuid4())[:8]]
    gives; [pdf] is what PyMuPDF makes of the content: [fitz.open] raises,
    or the document has so many pages. The directories are made with
    [exist_ok=True], so what a directory of that name held stays. *)
Definition upload_and_process (file_id : string) (filename : option string)
    (pdf : string + Z) : M UploadResponse :=
  modify (set_uploads (fun u => <[file_id := default ∅ (u !! file_id)]> u));;
  modify (set_original_pdf (union {[ file_id ]}));;
  match pdf with
  | inl e => raise (Exception e)
  | inr total_pages =>
      modify (_extract_pages file_id total_pages);;
      mret (mkUploadResponse true file_id
              (match filename with
               | Some name => if decide (name = EmptyString) then "unknown.pdf" else name
               | None => "unknown.pdf"
               end)
              total_pages
              ("Successfully uploaded and extracted " +:+ pretty total_pages +:+ " pages"))
  end.

(** [shutil.rmtree] of the upload and of the output directory. *)
Definition delete_file (file_id : string) (w : World) : World :=
  set_outputs (filter (fun x => x.1 ≠ file_id))
    (set_original_pdf (fun o => o ∖ {[ file_id ]})
       (set_uploads (delete file_id) w)).

Definition file_exists (file_id : string) (w : World) : bool :=
  bool_decide (is_Some (uploads w !! file_id)).

End PDFService.

(** ** state_manager.py *)

(** Python list and truthiness helpers. *)

(** [l.remove(x)]: drops the first occurrence. The callers test [x in l]
    first, so the [ValueError] of a missing element does not arise. *)
Fixpoint list_remove (x : Z) (l : list Z) : list Z :=
  match l with
  | [] => []
  | y :: l' => if decide (x = y) then l' else y :: list_remove x l'
  end.

(** [l.append(x); l.sort()] when [x not in l]. *)
Definition append_sorted (x : Z) (l : list Z) : list Z :=
  if decide (x ∈ l) then l else merge_sort Z.le (l ++ [x]).

(** [for b in l: if P(b): b := f(b); break]. *)
Fixpoint update_first {A} (P : A → bool) (f : A → A) (l : list A) : list A :=
  match l with
  | [] => []
  | b :: l' => if P b then f b :: l' else b :: update_first P f l'
  end.

(** [if s:] for an [Optional[str]]: [None] and the empty string are false. *)
Definition truthy (s : option string) : bool :=
  match s with
  | None => false
  | Some s => negb (bool_decide (s = EmptyString))
  end.

Module StateManager.
Import ProcessingState.

Definition with_status (s : ProcessingStatus.t) (e : option string) (st : t) : t :=
  mk (file_id st) (filename st) (total_pages st) (step_size st) (current_batch st)
     (total_batches st) s (current_prompt st) (completed_pages st) (batches st) e.

Definition with_current_prompt (p : string) (st : t) : t :=
  mk (file_id st) (filename st) (total_pages st) (step_size st) (current_batch st)
     (total_batches st) (status st) p (completed_pages st) (batches st)
     (error_message st).

Definition with_current_batch (n : Z) (st : t) : t :=
  mk (file_id st) (filename st) (total_pages st) (step_size st) n
     (total_batches st) (status st) (current_prompt st) (completed_pages st)
     (batches st) (error_message st).

Definition with_pages (pages : list Z) (bs : list BatchInfo.t) (st : t) : t :=
  mk (file_id st) (filename st) (total_pages st) (step_size st) (current_batch st)
     (total_batches st) (status st) (current_prompt st) pages bs (error_message st).

Definition batch_with_pages (pages : list Z) (b : BatchInfo.t) : BatchInfo.t :=
  BatchInfo.mk (BatchInfo.batch_number b) (BatchInfo.start_page b) (BatchInfo.end_page b)
    (BatchInfo.status b) (BatchInfo.prompt_used b) pages.

Definition batch_with_status (s : BatchStatus.t) (p : option string)
    (b : BatchInfo.t) : BatchInfo.t :=
  BatchInfo.mk (BatchInfo.batch_number b) (BatchInfo.start_page b) (BatchInfo.end_page b)
    s (if truthy p then p else BatchInfo.prompt_used b) (BatchInfo.completed_pages b).

Definition batch_reset (b : BatchInfo.t) : BatchInfo.t :=
  BatchInfo.mk (BatchInfo.batch_number b) (BatchInfo.start_page b) (BatchInfo.end_page b)
    BatchStatus.PENDING None [].

Definition has_number (n : Z) (b : BatchInfo.t) : bool :=
  bool_decide (BatchInfo.batch_number b = n).

Definition covers (page : Z) (b : BatchInfo.t) : bool :=
  bool_decide (BatchInfo.start_page b ≤ page ≤ BatchInfo.end_page b).

(** [for batch in state.batches: if batch.batch_number == n: ...; break],
    the lookup loop of [batch_processor.py]. *)
Definition find_batch (n : Z) (bs : list BatchInfo.t) : option BatchInfo.t :=
  List.find (has_number n) bs.

(** The record is cached, and every method of the class mutates the cached
    object in place: [get_state] hands out the object itself. *)
Definition get_state (fid : string) (w : World) : option t := states w !! fid.

Definition _save_state (fid : string) (w : World) : World :=
  match states w !! fid with
  | Some st => set_saved (cons st) w
  | None => w
  end.

(** The common shape of the mutators: [get_state], [return None] when
    there is none, mutate, store, [_save_state]. *)
Definition mutate (fid : string) (f : t → t) (w : World) : World :=
  match get_state fid w with
  | None => w
  | Some st => _save_state fid (set_states (insert fid (f st)) w)
  end.

(** [total_batches = (total_pages + step_size - 1) // step_size] and the
    loop building the batches. [//] is floor division, as [Z.div]; it
    raises on a zero divisor. *)
Definition make_batch (total_pages step_size : Z) (i : Z) : BatchInfo.t :=
  BatchInfo.mk (i + 1) (i * step_size + 1) (Z.min ((i + 1) * step_size) total_pages)
    BatchStatus.PENDING None [].

Definition initial_state (fid : string) (fname : string) (total_pages step_size : Z)
    (prompt : string) : t :=
  let total_batches := (total_pages + step_size - 1) `div` step_size in
  mk fid fname total_pages step_size 1 total_batches ProcessingStatus.IDLE prompt []
     (make_batch total_pages step_size <$> seqZ 0 total_batches) None.

Definition initialize_state (fid : string) (step_size : Z) (prompt : string) : M t :=
  total_pages ← gets (PDFService.get_total_pages fid);
  if decide (total_pages = 0)
  then raise (Exception ("File " +:+ fid +:+ " not found or has no pages"))
  else if decide (step_size = 0)
  then raise (Exception "integer division or modulo by zero")
  else
    fname ← gets (PDFService.original_pdf_name fid);
    let state := initial_state fid fname total_pages step_size prompt in
    modify (set_states (insert fid state));;
    modify (_save_state fid);;
    mret state.

Definition update_status (fid : string) (s : ProcessingStatus.t)
    (error_message : option string) : World → World :=
  mutate fid (with_status s error_message).

Definition update_prompt (fid : string) (prompt : string) : World → World :=
  mutate fid (with_current_prompt prompt).

Definition page_marked (page_number : Z) (st : t) : t :=
  with_pages (append_sorted page_number (completed_pages st))
    (update_first (covers page_number)
       (fun b => batch_with_pages
                   (append_sorted page_number (BatchInfo.completed_pages b)) b)
       (batches st))
    st.

Definition mark_page_complete (fid : string) (page_number : Z) : World → World :=
  mutate fid (page_marked page_number).

Definition batch_status_set (batch_number : Z) (s : BatchStatus.t)
    (prompt_used : option string) (st : t) : t :=
  with_pages (completed_pages st)
    (update_first (has_number batch_number) (batch_with_status s prompt_used)
       (batches st))
    st.

Definition update_batch_status (fid : string) (batch_number : Z) (s : BatchStatus.t)
    (prompt_used : option string) : World → World :=
  mutate fid (batch_status_set batch_number s prompt_used).

Definition advanced (st : t) : t :=
  if decide (current_batch st < total_batches st)
  then with_current_batch (current_batch st + 1) st
  else st.

Definition advance_batch (fid : string) : World → World :=
  mutate fid advanced.

(** [for page in batch.completed_pages: if page in state.completed_pages:
    state.completed_pages.remove(page)], then the batch is reset. *)
Definition batch_cleared (batch_number : Z) (st : t) : t :=
  match find_batch batch_number (batches st) with
  | None => st
  | Some b =>
      with_pages
        (foldl (fun pages page => list_remove page pages) (completed_pages st)
               (BatchInfo.completed_pages b))
        (update_first (has_number batch_number) batch_reset (batches st))
        st
  end.

Definition reset_batch (fid : string) (batch_number : Z) : World → World :=
  mutate fid (batch_cleared batch_number).

(** [delete_state]: the cache entry and the state file go; the log of
    what was written stays. *)
Definition delete_state (fid : string) (w : World) : World :=
  set_states (delete fid) w.

End StateManager.

(** ** websocket.py: the helpers that build a message and send it

    Here they only append to [events]; the fan-out to the observers is
    [ConnectionManager] below. [send_progress_update] evaluates
    [current_page / total_pages] while building its message and so raises
    on [total_pages == 0]; that is kept in the coroutine version used by
    the page loop. *)

Definition emit (m : Message) : World → World := set_events (cons m).

Definition send_status_update (fid status message : string) : World → World :=
  emit (MsgStatus fid status message).

Definition send_error (fid error : string) (page_number : option Z) : World → World :=
  emit (MsgError fid error page_number).

(** ** batch_processor.py: the control operations

    A control operation runs without yielding in between; it returns its
    boolean and the new process state. [asyncio.create_task] registers the
    new unit of work under a fresh task number: the unit itself runs
    later (see [run_task]). *)

Module BatchProcessor.
Import ProcessingState.

Definition discard (fid : string) (s : gset string) : gset string := s ∖ {[ fid ]}.

Definition add (fid : string) (s : gset string) : gset string := {[ fid ]} ∪ s.

(** [file_id in self._tasks and not self._tasks[file_id].done()] *)
Definition task_active (fid : string) (w : World) : bool :=
  match tasks w !! fid with
  | Some tid => bool_decide (tid ∉ finished w)
  | None => false
  end.

Definition create_task (fid : string) (w : World) : World :=
  set_next_task S (set_tasks (insert fid (next_task w)) w).

Definition start_processing (fid : string) (w : World) : bool * World :=
  if task_active fid w then (false, w)
  else
    let w := set_pause_signals (discard fid) w in
    let w := set_stop_signals (discard fid) w in
    let w := set_auto_run (discard fid) w in
    let w := StateManager.update_status fid ProcessingStatus.PROCESSING None w in
    let w := send_status_update fid "processing" "Processing started" w in
    (true, create_task fid w).

Definition pause_processing (fid : string) (w : World) : bool * World :=
  match tasks w !! fid with
  | None => (false, w)
  | Some _ => (true, set_pause_signals (add fid) w)
  end.

Definition is_paused (fid : string) (w : World) : bool :=
  match StateManager.get_state fid w with
  | Some st => bool_decide (status st = ProcessingStatus.PAUSED)
  | None => false
  end.

Definition continue_processing (fid : string) (w : World) : bool * World :=
  if negb (is_paused fid w) then (false, w)
  else
    let w := set_pause_signals (discard fid) w in
    let w := StateManager.update_status fid ProcessingStatus.PROCESSING None w in
    let w := send_status_update fid "processing" "Processing continued" w in
    (true, create_task fid w).

Definition stop_processing (fid : string) (w : World) : bool * World :=
  let w := set_stop_signals (add fid) w in
  let w := set_pause_signals (discard fid) w in
  let w := match tasks w !! fid with
           | Some tid =>
               if bool_decide (tid ∉ finished w)
               then set_cancelled (union {[ tid ]}) w else w
           | None => w
           end in
  let w := StateManager.update_status fid ProcessingStatus.IDLE None w in
  let w := send_status_update fid "idle" "Processing stopped" w in
  (true, w).

Definition retry_current_batch (fid : string) (w : World) : bool * World :=
  if negb (is_paused fid w) then (false, w)
  else
    match StateManager.get_state fid w with
    | None => (false, w)
    | Some state =>
        let current_batch := current_batch state in
        match StateManager.find_batch current_batch (batches state) with
        | None => (false, w)
        | Some batch_info =>
            let w := PDFService.delete_batch_images fid
                       (BatchInfo.start_page batch_info)
                       (BatchInfo.end_page batch_info) w in
            let w := StateManager.reset_batch fid current_batch w in
            continue_processing fid w
        end
    end.

Definition trust_and_run (fid : string) (w : World) : bool * World :=
  continue_processing fid (set_auto_run (add fid) w).

End BatchProcessor.

(** ** What can happen while a unit of work is suspended

    The unit of work is a coroutine: other coroutines run only while it
    awaits a send to the observers or the transformation call. What runs
    there is given by a schedule, a list of control commands per
    suspension point. *)

Inductive Command :=
| CmdStart (fid : string)
| CmdPause (fid : string)
| CmdContinue (fid : string)
| CmdStop (fid : string)
| CmdRetry (fid : string)
| CmdTrustAndRun (fid : string)
| CmdUpdatePrompt (fid : string) (prompt : string).

Definition run_command (c : Command) (w : World) : World :=
  match c with
  | CmdStart fid => (BatchProcessor.start_processing fid w).2
  | CmdPause fid => (BatchProcessor.pause_processing fid w).2
  | CmdContinue fid => (BatchProcessor.continue_processing fid w).2
  | CmdStop fid => (BatchProcessor.stop_processing fid w).2
  | CmdRetry fid => (BatchProcessor.retry_current_batch fid w).2
  | CmdTrustAndRun fid => (BatchProcessor.trust_and_run fid w).2
  | CmdUpdatePrompt fid prompt => StateManager.update_prompt fid prompt w
  end.

Definition interfere (cs : list Command) (w : World) : World :=
  foldl (fun w c => run_command c w) w cs.

Inductive Point :=
| AwaitSend (m : Message)
| AwaitColorize (fid : string) (page : Z).

Definition Schedule : Type := Point → list Command.

(** Nothing else runs. *)
Definition quiet : Schedule := fun _ => [].

(** ** gemini_service.py

    The transformation client is outside the engine: one call either
    yields an image or, its retries exhausted, an error text. *)

Inductive ColorizeResult :=
| Colorized
| ColorizeFailed (error : string).

Definition Gemini : Type := string → Z → string → ColorizeResult.

(** ** batch_processor.py: the unit of work

    [state] in [_process_file] and [_process_batch] is a reference to the
    cached record, which the state manager mutates in place: what is read
    through it is the cache entry at the time of the read ([deref]); the
    value carried along only stands for the object should the entry be
    gone, which no operation of the engine causes. The entry is bound to
    another object only by [initialize_state], which no command of a
    schedule calls. *)

Definition deref (fid : string) (state : ProcessingState.t) (w : World) :
    ProcessingState.t :=
  default state (states w !! fid).

Inductive PageFlow :=
| NextPage (state : ProcessingState.t)
| ReturnFromBatch (success : bool).

Inductive BatchFlow :=
| NextBatch (state : ProcessingState.t)
| ReturnFromFile.

Section UnitOfWork.
Context (gemini : Gemini) (env : Schedule).
Import ProcessingState.

(** The unit yields: the scheduled commands run, and if one of them
    cancelled this task the await raises [CancelledError]. *)
Definition suspend (tid : nat) (pt : Point) : M unit :=
  modify (interfere (env pt));;
  c ← gets cancelled;
  if decide (tid ∈ c) then raise CancelledError else mret tt.

Definition send (tid : nat) (m : Message) : M unit :=
  modify (emit m);; suspend tid (AwaitSend m).

Definition send_progress_update (tid : nat) (fid : string)
    (current_page total_pages batch_number : Z) : M unit :=
  if decide (total_pages = 0) then raise (Exception "division by zero")
  else send tid (MsgProgress fid current_page total_pages batch_number).

Definition colorize_image (tid : nat) (fid : string) (page : Z) (prompt : string) :
    M ColorizeResult :=
  modify (set_calls (cons (fid, page, prompt)));;
  suspend tid (AwaitColorize fid page);;
  mret (gemini fid page prompt).

Definition stop_requested (fid : string) (w : World) : bool :=
  bool_decide (fid ∈ stop_signals w).

(** The body of [for page_num in range(start_page, end_page + 1)]. *)
Definition process_page (tid : nat) (fid : string) (prompt : string)
    (batch_number total_pages : Z) (state : t) (page_num : Z) : M PageFlow :=
  stop ← gets (stop_requested fid);
  if (stop : bool) then mret (ReturnFromBatch false)
  else
    st ← gets (deref fid state);
    if decide (page_num ∈ completed_pages st) then mret (NextPage state)
    else
      image_path ← gets (PDFService.get_page_image_path fid page_num);
      if negb image_path then
        send tid (MsgError fid ("Page " +:+ pretty page_num +:+ " image not found")
                    (Some page_num));;
        mret (NextPage state)
      else
        send_progress_update tid fid page_num total_pages batch_number;;
        r ← colorize_image tid fid page_num prompt;
        match r with
        | ColorizeFailed error =>
            send tid (MsgError fid
                        (if decide (error = EmptyString) then "Colorization failed" else error)
                        (Some page_num));;
            mret (NextPage state)
        | Colorized =>
            modify (PDFService.save_colorized_image fid page_num);;
            modify (StateManager.mark_page_complete fid page_num);;
            send tid (MsgPageComplete fid page_num);;
            state' ← gets (StateManager.get_state fid);
            match state' with
            | None => mret (ReturnFromBatch false)
            | Some state' => mret (NextPage state')
            end
        end.

Fixpoint page_loop (tid : nat) (fid : string) (prompt : string)
    (batch_number total_pages : Z) (state : t) (pages : list Z) : M bool :=
  match pages with
  | [] => mret true
  | page_num :: pages =>
      f ← process_page tid fid prompt batch_number total_pages state page_num;
      match f with
      | ReturnFromBatch b => mret b
      | NextPage state => page_loop tid fid prompt batch_number total_pages state pages
      end
  end.

Definition _process_batch (tid : nat) (fid : string) (start_page end_page : Z)
    (prompt : string) (batch_number : Z) : M bool :=
  state ← gets (StateManager.get_state fid);
  match state with
  | None => mret false
  | Some state =>
      page_loop tid fid prompt batch_number (total_pages state) state
        (seqZ start_page (end_page + 1 - start_page))
  end.

(** The body of [for batch_num in range(state.current_batch,
    state.total_batches + 1)]. *)
Definition process_batch_number (tid : nat) (fid : string) (state : t)
    (batch_num : Z) : M BatchFlow :=
  stop ← gets (stop_requested fid);
  if (stop : bool) then
    modify (set_stop_signals (BatchProcessor.discard fid));; mret ReturnFromFile
  else
    st ← gets (deref fid state);
    match StateManager.find_batch batch_num (batches st) with
    | None => mret (NextBatch state)
    | Some batch_info =>
        if decide (BatchInfo.status batch_info = BatchStatus.COMPLETED)
        then mret (NextBatch state)
        else
          st ← gets (deref fid state);
          modify (StateManager.update_batch_status fid batch_num
                    BatchStatus.PROCESSING (Some (current_prompt st)));;
          st ← gets (deref fid state);
          success ← _process_batch tid fid (BatchInfo.start_page batch_info)
                      (BatchInfo.end_page batch_info) (current_prompt st) batch_num;
          if negb success then
            stop ← gets (stop_requested fid);
            if (stop : bool) then
              modify (set_stop_signals (BatchProcessor.discard fid));;
              mret ReturnFromFile
            else
              modify (StateManager.update_batch_status fid batch_num
                        BatchStatus.FAILED None);;
              send tid (MsgError fid
                          ("Batch " +:+ pretty batch_num +:+ " processing failed") None);;
              mret (NextBatch state)
          else
            modify (StateManager.update_batch_status fid batch_num
                      BatchStatus.COMPLETED None);;
            send tid (MsgBatchComplete fid batch_num (BatchInfo.start_page batch_info)
                        (BatchInfo.end_page batch_info));;
            st ← gets (deref fid state);
            if decide (batch_num >= total_batches st) then
              modify (StateManager.update_status fid ProcessingStatus.COMPLETED None);;
              send tid (MsgStatus fid "completed" "All pages processed");;
              mret ReturnFromFile
            else
              modify (StateManager.advance_batch fid);;
              auto ← gets auto_run;
              if decide (fid ∉ auto) then
                modify (StateManager.update_status fid ProcessingStatus.PAUSED None);;
                send tid (MsgStatus fid "paused"
                            ("Batch " +:+ pretty batch_num +:+
                             " completed. Please review and continue."));;
                mret ReturnFromFile
              else
                state' ← gets (StateManager.get_state fid);
                match state' with
                | None => mret ReturnFromFile
                | Some state' => mret (NextBatch state')
                end
    end.

(** The loop; [true] when it ran to its end, [false] on a [return]. *)
Fixpoint batch_loop (tid : nat) (fid : string) (state : t) (nums : list Z) : M bool :=
  match nums with
  | [] => mret true
  | batch_num :: nums =>
      f ← process_batch_number tid fid state batch_num;
      match f with
      | ReturnFromFile => mret false
      | NextBatch state => batch_loop tid fid state nums
      end
  end.

(** [range(state.current_batch, state.total_batches + 1)] *)
Definition batch_numbers (state : t) : list Z :=
  seqZ (current_batch state) (total_batches state + 1 - current_batch state).

(** The [try] block of [_process_file]. *)
Definition process_file_body (tid : nat) (fid : string) : M unit :=
  state ← gets (StateManager.get_state fid);
  match state with
  | None => mret tt
  | Some state =>
      finished_loop ← batch_loop tid fid state (batch_numbers state);
      if (finished_loop : bool) then
        modify (StateManager.update_status fid ProcessingStatus.COMPLETED None);;
        send tid (MsgStatus fid "completed" "All pages processed")
      else mret tt
  end.

(** [_process_file]: [CancelledError] is swallowed, any other exception
    sets the status to [ERROR] and is reported. *)
Definition _process_file (tid : nat) (fid : string) (w : World) : World :=
  match process_file_body tid fid w with
  | Ok _ w' => w'
  | Raise CancelledError w' => w'
  | Raise (Exception msg) w' =>
      world_of (send tid (MsgError fid msg None)
                  (StateManager.update_status fid ProcessingStatus.ERROR (Some msg) w'))
  end.

(** The event loop runs a task: a task cancelled before its first step
    never enters the coroutine; a task that has run is [done()]. *)
Definition run_task (tid : nat) (fid : string) (w : World) : World :=
  let w' := if decide (tid ∈ cancelled w) then w else _process_file tid fid w in
  set_finished (union {[ tid ]}) w'.

End UnitOfWork.

(** ** routes.py: [POST /start]

    [StartRequest] bounds [step_size] to 1..50 (a request outside is
    rejected before the handler runs); the handler initialises the state,
    calls the engine and answers [success: True] with the state, or turns
    an exception into a 500. *)

Module Routes.

Inductive Response :=
| Success (state : ProcessingState.t)
| ValidationError
| ServerError (detail : string).

Definition start_processing (fid : string) (step_size : Z) (prompt : string)
    (w : World) : Response * World :=
  if negb (bool_decide (1 ≤ step_size ≤ 50)) then (ValidationError, w)
  else
    match StateManager.initialize_state fid step_size prompt w with
    | Raise CancelledError w' => (ServerError EmptyString, w')
    | Raise (Exception msg) w' => (ServerError msg, w')
    | Ok state w' =>
        let w'' := (BatchProcessor.start_processing fid w').2 in
        (Success (deref fid state w''), w'')
    end.

(** The other handlers. A control request carries a file id and a
    command; each handler refuses a command that is not its own with a
    400, and otherwise calls the engine, drops what the engine returns
    and answers [success: True] with the state as it then is. *)

Inductive ControlCommand :=
| START | PAUSE | CONTINUE | STOP | RETRY_BATCH | TRUST_AND_RUN.

#[global] Instance ControlCommand_eq_dec : EqDecision ControlCommand.
Proof. solve_decision. Defined.

Inductive Reply :=
| Answer (message : string) (state : option ProcessingState.t)
| Plain (message : string)
| HTTPException (status_code : Z) (detail : string).

Definition pause_processing (file_id : string) (command : ControlCommand)
    (w : World) : Reply * World :=
  if decide (command ≠ PAUSE) then (HTTPException 400 "Invalid command", w)
  else
    let w := (BatchProcessor.pause_processing file_id w).2 in
    (Answer "Processing paused" (StateManager.get_state file_id w), w).

Definition continue_processing (file_id : string) (command : ControlCommand)
    (w : World) : Reply * World :=
  if decide (command ≠ CONTINUE) then (HTTPException 400 "Invalid command", w)
  else
    let w := (BatchProcessor.continue_processing file_id w).2 in
    (Answer "Processing continued" (StateManager.get_state file_id w), w).

Definition stop_processing (file_id : string) (command : ControlCommand)
    (w : World) : Reply * World :=
  if decide (command ≠ STOP) then (HTTPException 400 "Invalid command", w)
  else
    let w := (BatchProcessor.stop_processing file_id w).2 in
    (Answer "Processing stopped" (StateManager.get_state file_id w), w).

Definition retry_batch (file_id : string) (command : ControlCommand)
    (w : World) : Reply * World :=
  if decide (command ≠ RETRY_BATCH) then (HTTPException 400 "Invalid command", w)
  else
    let w := (BatchProcessor.retry_current_batch file_id w).2 in
    (Answer "Retrying current batch" (StateManager.get_state file_id w), w).

Definition trust_and_run (file_id : string) (command : ControlCommand)
    (w : World) : Reply * World :=
  if decide (command ≠ TRUST_AND_RUN) then (HTTPException 400 "Invalid command", w)
  else
    let w := (BatchProcessor.trust_and_run file_id w).2 in
    (Answer "Processing will continue without pauses"
       (StateManager.get_state file_id w), w).

Definition update_prompt (file_id prompt : string) (w : World) : Reply * World :=
  let w := StateManager.update_prompt file_id prompt w in
  (Answer "Prompt updated successfully" (StateManager.get_state file_id w), w).

Record StatusResponse := mkStatusResponse {
  success : bool;
  state : option ProcessingState.t;
  message : string
}.

Definition get_status (file_id : string) (w : World) : StatusResponse :=
  match StateManager.get_state file_id w with
  | None => mkStatusResponse false None "No processing state found for this file"
  | Some state => mkStatusResponse true (Some state) "Status retrieved successfully"
  end.

Definition delete_file (file_id : string) (w : World) : Reply * World :=
  let w := StateManager.delete_state file_id w in
  let w := PDFService.delete_file file_id w in
  (Plain ("File " +:+ file_id +:+ " deleted successfully"), w).

(** [GET /image] and [GET /original]: the file, or a 404. *)
Definition get_colorized_image (file_id : string) (page_number : Z) (w : World) :
    option (string * Z) :=
  if bool_decide ((file_id, page_number) ∈ outputs w) then Some (file_id, page_number)
  else None.

Definition get_original_image (file_id : string) (page_number : Z) (w : World) :
    option (string * Z) :=
  if PDFService.get_page_image_path file_id page_number w then Some (file_id, page_number)
  else None.

End Routes.

(** ** websocket.py: [ConnectionManager]

    A WebSocket is named by a number. [send_json] is the transport: for a
    connection and a message it tells whether the send went through
    ([true]) or raised ([false]). A Python set is iterated in an order
    the language does not fix: [iter] is that order. *)

Module ConnectionManager.

Record t := mk {
  active_connections : gmap string (gset nat);
  global_connections : gset nat
}.

(** [if file_id:] — [None] and the empty string both mean "global". *)
Definition connect (websocket : nat) (file_id : option string) (m : t) : t :=
  match file_id with
  | Some fid =>
      if truthy file_id then
        mk (<[fid := {[ websocket ]} ∪ default ∅ (active_connections m !! fid)]>
              (active_connections m))
           (global_connections m)
      else mk (active_connections m) ({[ websocket ]} ∪ global_connections m)
  | None => mk (active_connections m) ({[ websocket ]} ∪ global_connections m)
  end.

(** [if file_id and file_id in self.active_connections:] discard from
    that set and delete the set when it is left empty; [else:] discard
    from the global set. *)
Definition disconnect (websocket : nat) (file_id : option string) (m : t) : t :=
  let from_global := mk (active_connections m) (global_connections m ∖ {[ websocket ]}) in
  match file_id with
  | Some fid =>
      if truthy file_id then
        match active_connections m !! fid with
        | Some s =>
            let s' := s ∖ {[ websocket ]} in
            if decide (s' = ∅)
            then mk (delete fid (active_connections m)) (global_connections m)
            else mk (<[fid := s']> (active_connections m)) (global_connections m)
        | None => from_global
        end
      else from_global
  | None => from_global
  end.

Section Sending.
Context (send_json : nat → Message → bool) (iter : gset nat → list nat).

(** The observers of an event for [file_id]. *)
Definition audience (file_id : string) (m : t) : gset nat :=
  default ∅ (active_connections m !! file_id) ∪ global_connections m.

(** [send_to_file]: the deliveries that went through, in order, and the
    manager after the clean-up loop. *)
Definition send_to_file (file_id : string) (message : Message) (m : t) :
    list (nat * Message) * t :=
  let connections := iter (audience file_id m) in
  let disconnected :=
    filter (fun connection => send_json connection message = false) connections in
  ((fun connection => (connection, message)) <$>
     filter (fun connection => send_json connection message = true) connections,
   foldl (fun m conn => disconnect conn (Some file_id) m) m disconnected).

(** [broadcast]: every connection, and [disconnect(conn)] with no file id. *)
Definition broadcast (message : Message) (m : t) : list (nat * Message) * t :=
  let all_connections :=
    iter (map_fold (fun _ s acc => acc ∪ s) (global_connections m) (active_connections m)) in
  let disconnected :=
    filter (fun connection => send_json connection message = false) all_connections in
  ((fun connection => (connection, message)) <$>
     filter (fun connection => send_json connection message = true) all_connections,
   foldl (fun m conn => disconnect conn None m) m disconnected).

End Sending.

End ConnectionManager.

(** ** gemini_service.py: [GeminiService.colorize_image]

    The API is outside the program: [api image_bytes full_prompt attempt]
    is what the call of [_call_gemini_api] in attempt number [attempt]
    does: it returns an image, returns [None] (a response without image
    data), or raises. Reading the page image gives its bytes or raises. The calls
    made and the seconds slept are logged; the coroutine is not cancelled
    while it sleeps. *)

Module GeminiService.

Inductive Attempt (Image : Type) :=
| Returned (result : option Image)
| Raised (error : string).

Arguments Returned {Image} result.

Arguments Raised {Image} error.

Record Outcome (Image : Type) := mkOutcome {
  success : bool;
  colorized_image : option Image;
  error : option string;
  attempts : list Z;
  slept : list Z
}.

Arguments mkOutcome {Image} success colorized_image error attempts slept.

Arguments success {Image} o.

Arguments colorized_image {Image} o.

Arguments error {Image} o.

Arguments attempts {Image} o.

Arguments slept {Image} o.

(** [self._configured and self.client is not None]: the client is made
    in [__init__] when [GOOGLE_API_KEY] is set and not empty. *)
Definition is_configured (api_key : option string) : bool := truthy api_key.

Definition full_prompt (prompt : string) : string :=
  "You are an expert manga colorist. Your task is to colorize this black and white manga page.

Instructions:
" +:+ prompt +:+ "

Important guidelines:
- Preserve all original line art and details
- Use appropriate colors for skin tones, clothing, and backgrounds
- Maintain consistency with typical manga/anime color palettes
- Keep the artistic style intact while adding vibrant colors
- Pay attention to lighting and shadows in the original artwork

Please colorize this manga page following the instructions above.".

(** [f"{last_error}"] *)
Definition str_of_error (last_error : option string) : string :=
  match last_error with
  | None => "None"
  | Some e => e
  end.

Section Colorize.
Context {Image : Type} (api : string → string → Z → Attempt Image).

(** [for attempt in range(max_retries)], from [attempt] on, with what the
    iterations before have logged. *)
Fixpoint retry_loop (image_bytes prompt : string) (max_retries : Z)
    (last_error : option string) (calls sleeps : list Z) (range : list Z) :
    Outcome Image :=
  match range with
  | [] =>
      mkOutcome false None
        (Some ("Colorization failed after " +:+ pretty max_retries +:+ " attempts: "
               +:+ str_of_error last_error))
        calls sleeps
  | attempt :: range =>
      match api image_bytes prompt attempt with
      | Returned (Some result) =>
          mkOutcome true (Some result) None (calls ++ [attempt]) sleeps
      | Returned None =>
          retry_loop image_bytes prompt max_retries last_error (calls ++ [attempt]) sleeps range
      | Raised e =>
          retry_loop image_bytes prompt max_retries (Some e) (calls ++ [attempt])
            (if decide (attempt < max_retries - 1) then sleeps ++ [2 ^ attempt] else sleeps)
            range
      end
  end.

Definition colorize_image (api_key : option string) (image_bytes : string + string)
    (prompt : string) (max_retries : Z) : Outcome Image :=
  if negb (is_configured api_key) then
    mkOutcome false None
      (Some "Gemini API is not configured. Please set GOOGLE_API_KEY.") [] []
  else
    match image_bytes with
    | inl e => mkOutcome false None (Some ("Failed to load image: " +:+ e)) [] []
    | inr image_bytes =>
        retry_loop image_bytes (full_prompt prompt) max_retries None [] []
          (seqZ 0 max_retries)
    end.

End Colorize.

(** What [_process_batch] makes of the triple:
    [if not success or colorized_image is None: ... error or "Colorization failed"]. *)
Definition result_of {Image} (o : Outcome Image) : ColorizeResult :=
  if success o && bool_decide (is_Some (colorized_image o)) then Colorized
  else ColorizeFailed (default EmptyString (error o)).

End GeminiService.

(** ** state_manager.py: the cache and the state files

    [StateManager] keeps a record in [_states] and in
    [states/<id>.json]. Here both are there: [state_files] maps a file id
    to the record its file holds ([model_dump], [json.dump], [json.load]
    and the validation by [ProcessingState] give the record
    back; a file that cannot be written or read is not modelled). A
    restart of the process empties the cache and keeps the files. *)

Module StateStore.
Import ProcessingState.

Record t := mk {
  _states : gmap string ProcessingState.t;
  state_files : gmap string ProcessingState.t
}.

Definition _load_state (file_id : string) (s : t) : option ProcessingState.t :=
  state_files s !! file_id.

Definition _save_state (file_id : string) (s : t) : bool * t :=
  match _states s !! file_id with
  | None => (false, s)
  | Some state => (true, mk (_states s) (<[file_id := state]> (state_files s)))
  end.

(** Cache first, then the file; what is loaded is cached. *)
Definition get_state (file_id : string) (s : t) : option ProcessingState.t * t :=
  match _states s !! file_id with
  | Some state => (Some state, s)
  | None =>
      match _load_state file_id s with
      | Some state => (Some state, mk (<[file_id := state]> (_states s)) (state_files s))
      | None => (None, s)
      end
  end.

(** [self._states[file_id] = state; await self._save_state(file_id)], the
    end of [initialize_state] and of every mutator. *)
Definition store (file_id : string) (state : ProcessingState.t) (s : t) : t :=
  (_save_state file_id (mk (<[file_id := state]> (_states s)) (state_files s))).2.

(** The mutators: [get_state], [return None] without a state, the
    change, [store]. *)
Definition mutate (file_id : string) (f : ProcessingState.t → ProcessingState.t) (s : t) :
    option ProcessingState.t * t :=
  match get_state file_id s with
  | (None, s) => (None, s)
  | (Some state, s) => (Some (f state), store file_id (f state) s)
  end.

Definition delete_state (file_id : string) (s : t) : bool * t :=
  (true, mk (delete file_id (_states s)) (delete file_id (state_files s))).

(** One entry of [list_all_states]; the two time stamps of the file are
    left out. *)
Record Summary := mkSummary {
  fileId : string;
  summary_filename : string;
  totalPages : Z;
  summary_status : ProcessingStatus.t;
  completedPages : Z
}.

Definition summary (state : ProcessingState.t) : Summary :=
  mkSummary (file_id state) (filename state) (total_pages state) (status state)
    (Z.of_nat (length (completed_pages state))).

(** The loop over the [.json] files of the state directory: [glob] is
    the order in which the directory is listed. *)
Definition list_all_states (glob : gmap string ProcessingState.t → list string) (s : t) :
    list Summary * t :=
  foldl (fun '(states, s) file_id =>
           match get_state file_id s with
           | (Some state, s) => (states ++ [summary state], s)
           | (None, s) => (states, s)
           end)
        ([], s) (glob (state_files s)).

(** The process ends and starts again. *)
Definition restart (s : t) : t := mk ∅ (state_files s).

(** What can be asked of the state manager. *)
Inductive Request :=
| Initialize (file_id : string) (state : ProcessingState.t)
| Get (file_id : string)
| Mutate (file_id : string) (f : ProcessingState.t → ProcessingState.t)
| Delete (file_id : string)
| ListAll (glob : gmap string ProcessingState.t → list string).

Definition serve (r : Request) (s : t) : t :=
  match r with
  | Initialize file_id state => store file_id state s
  | Get file_id => (get_state file_id s).2
  | Mutate file_id f => (mutate file_id f s).2
  | Delete file_id => (delete_state file_id s).2
  | ListAll glob => (list_all_states glob s).2
  end.

End StateStore.

(** * The vocabulary of the properties *)

(** ** Batch layout of a fresh state *)

(** The ceiling of [a / b] as the specification writes it. *)
Definition ceil_div (a b : Z) : Z :=
  if decide (a `mod` b = 0) then a `div` b else a `div` b + 1.

(** What C2 asks of a freshly initialised state. *)
Definition batch_layout (st : ProcessingState.t) (tp step : Z) : Prop :=
  ProcessingState.total_pages st = tp
  ∧ ProcessingState.step_size st = step
  ∧ ProcessingState.current_batch st = 1
  ∧ ProcessingState.total_batches st = ceil_div tp step
  ∧ (tp ≤ ceil_div tp step * step ∧ (ceil_div tp step - 1) * step < tp)
  ∧ length (ProcessingState.batches st) = Z.to_nat (ceil_div tp step)
  ∧ (∀ i, 1 ≤ i ≤ ceil_div tp step →
       ProcessingState.batches st !! Z.to_nat (i - 1) =
       Some (BatchInfo.mk i ((i - 1) * step + 1) (Z.min (i * step) tp)
               BatchStatus.PENDING None []))
  ∧ (∀ i, 1 ≤ i ≤ ceil_div tp step →
       1 ≤ (i - 1) * step + 1 ≤ Z.min (i * step) tp ∧ Z.min (i * step) tp ≤ tp)
  ∧ (∀ p, 1 ≤ p ≤ tp →
       ∃ i, (1 ≤ i ≤ ceil_div tp step
             ∧ (i - 1) * step + 1 ≤ p ≤ Z.min (i * step) tp)
            ∧ ∀ j, 1 ≤ j ≤ ceil_div tp step
                   ∧ (j - 1) * step + 1 ≤ p ≤ Z.min (j * step) tp → j = i).

(** ** Frames

    [skeleton] forgets which pages are complete and keeps everything the
    page loop must not touch; [same_engine] says that only [states],
    [saved], [outputs], [events] and [calls] may have changed. *)

Definition skeleton (st : ProcessingState.t) : ProcessingState.t :=
  StateManager.with_pages [] (StateManager.batch_with_pages [] <$> ProcessingState.batches st) st.

(** The fields of the engine and of the document store that the page and
    batch loops never write. *)
Record same_engine (w w' : World) : Prop := SameEngine {
  se_uploads : uploads w' = uploads w;
  se_original_pdf : original_pdf w' = original_pdf w;
  se_tasks : tasks w' = tasks w;
  se_next_task : next_task w' = next_task w;
  se_finished : finished w' = finished w;
  se_cancelled : cancelled w' = cancelled w;
  se_pause_signals : pause_signals w' = pause_signals w;
  se_stop_signals : stop_signals w' = stop_signals w;
  se_auto_run : auto_run w' = auto_run w
}.

Section Vocabulary.
Context (gemini : Gemini).
Import ProcessingState.

(** ** The page loop *)

Definition failure_text (error : string) : string :=
  if decide (error = EmptyString) then "Colorization failed" else error.

(** A page the loop can finish: its source image is there and the
    transformation succeeds. *)
Definition colorizable (fid prompt : string) (w : World) (p : Z) : Prop :=
  PDFService.get_page_image_path fid p w = true ∧ gemini fid p prompt = Colorized.

(** The error message of a page the loop cannot finish is among [evs]. *)
Definition failure_reported (fid prompt : string) (w : World) (p : Z)
    (evs : list Message) : Prop :=
  (PDFService.get_page_image_path fid p w = false →
   MsgError fid ("Page " +:+ pretty p +:+ " image not found") (Some p) ∈ evs)
  ∧ (∀ error, PDFService.get_page_image_path fid p w = true →
       gemini fid p prompt = ColorizeFailed error →
       MsgError fid (failure_text error) (Some p) ∈ evs).

Definition page_message (m : Message) : bool :=
  match m with
  | MsgProgress _ _ _ _ | MsgPageComplete _ _ | MsgError _ _ (Some _) => true
  | _ => false
  end.

(** What a run of the page loop over [pages] does to the process state. *)
Record page_loop_post (fid prompt : string) (pages : list Z) (st : t)
    (w w' : World) : Prop := PageLoopPost {
  pl_engine : same_engine w w';
  pl_others : ∀ fid', fid' ≠ fid → states w' !! fid' = states w !! fid';
  pl_state : ∃ st',
    states w' !! fid = Some st' ∧ skeleton st' = skeleton st
    ∧ ∀ p, p ∈ completed_pages st' ↔
           p ∈ completed_pages st ∨ (p ∈ pages ∧ colorizable fid prompt w p);
  pl_events : ∃ evs,
    events w' = evs ++ events w
    ∧ Forall (fun m => page_message m = true) evs
    ∧ ∀ p, p ∈ pages → p ∉ completed_pages st → failure_reported fid prompt w p evs;
  pl_calls : ∃ cs,
    calls w' = cs ++ calls w
    ∧ ∀ c, c ∈ cs → ∃ p, c = (fid, p, prompt) ∧ p ∈ pages ∧ p ∉ completed_pages st;
  pl_saved : ∃ ss,
    saved w' = ss ++ saved w ∧ ∀ s, s ∈ ss → skeleton s = skeleton st
}.

(** ** One batch *)

Definition batch_range (bi : BatchInfo.t) : list Z :=
  seqZ (BatchInfo.start_page bi) (BatchInfo.end_page bi + 1 - BatchInfo.start_page bi).

(** What processing batch [n] does to the control part of the state. *)
Definition control_step (n : Z) (auto : bool) (st : t) : t :=
  let st3 := StateManager.batch_status_set n BatchStatus.COMPLETED None
               (StateManager.batch_status_set n BatchStatus.PROCESSING
                  (Some (current_prompt st)) st) in
  if decide (n >= total_batches st) then
    StateManager.with_status ProcessingStatus.COMPLETED None st3
  else if auto then StateManager.advanced st3
  else StateManager.with_status ProcessingStatus.PAUSED None (StateManager.advanced st3).

Definition paused_message (m : Message) : bool :=
  match m with
  | MsgStatus _ status _ => bool_decide (status = "paused")
  | _ => false
  end.

Record batch_post (fid : string) (n : Z) (bi : BatchInfo.t) (st : t)
    (w w' : World) (flow : BatchFlow) : Prop := BatchPost {
  bp_engine : same_engine w w';
  bp_others : ∀ fid', fid' ≠ fid → states w' !! fid' = states w !! fid';
  bp_state : ∃ st',
    states w' !! fid = Some st'
    ∧ skeleton st' = skeleton (control_step n (bool_decide (fid ∈ auto_run w)) st)
    ∧ (∀ p, p ∈ completed_pages st' ↔
            p ∈ completed_pages st
            ∨ (p ∈ batch_range bi ∧ colorizable fid (current_prompt st) w p))
    ∧ flow = (if decide (n >= total_batches st) then ReturnFromFile
              else if bool_decide (fid ∈ auto_run w) then NextBatch st'
              else ReturnFromFile);
  bp_events : ∃ evs,
    events w' = evs ++ events w
    ∧ (∀ p, p ∈ batch_range bi → p ∉ completed_pages st →
            failure_reported fid (current_prompt st) w p evs)
    ∧ (fid ∈ auto_run w → Forall (fun m => paused_message m = false) evs);
  bp_calls : ∃ cs,
    calls w' = cs ++ calls w
    ∧ ∀ c, c ∈ cs → ∃ p, c = (fid, p, current_prompt st)
                         ∧ p ∈ batch_range bi ∧ p ∉ completed_pages st;
  bp_saved : ∃ ss,
    saved w' = ss ++ saved w
    ∧ ∀ s, s ∈ ss →
        status s = status st
        ∨ (status s = ProcessingStatus.COMPLETED ∧ n >= total_batches st)
        ∨ (status s = ProcessingStatus.PAUSED ∧ fid ∉ auto_run w)
}.

Definition batch_status_of (n : Z) (st : t) : option BatchStatus.t :=
  BatchInfo.status <$> StateManager.find_batch n (batches st).

(** ** The batch loop and the whole unit of work *)

(** A batch number the loop stops at: its batch exists and is not yet
    complete. The others are passed over. *)
Definition workable (st : t) (n : Z) : bool :=
  match StateManager.find_batch n (batches st) with
  | Some bi => bool_decide (BatchInfo.status bi ≠ BatchStatus.COMPLETED)
  | None => false
  end.

(** The first batch a unit of work started on [st] processes. *)
Definition next_batch (st : t) : option Z :=
  List.find (workable st) (batch_numbers st).

(** What a run of the batch loop over the numbers [a .. a+len-1] does.
    [finished_loop] tells whether the loop ran to its end. *)
Record run_post (fid : string) (a len : Z) (st : t) (w w' : World)
    (finished_loop : bool) : Prop := RunPost {
  rp_engine : same_engine w w';
  rp_others : ∀ fid', fid' ≠ fid → states w' !! fid' = states w !! fid';
  rp_state : ∃ st',
    states w' !! fid = Some st'
    ∧ total_batches st' = total_batches st
    ∧ total_pages st' = total_pages st
    ∧ current_prompt st' = current_prompt st
    ∧ (∀ p, p ∈ completed_pages st → p ∈ completed_pages st')
    ∧ (∀ p, p ∈ completed_pages st' →
            p ∈ completed_pages st ∨ colorizable fid (current_prompt st) w p)
    ∧ (∀ n, ¬ (a ≤ n < a + len) → batch_status_of n st' = batch_status_of n st)
    ∧ (fid ∈ auto_run w →
         (∀ n, a ≤ n < a + len →
               batch_status_of n st' = None
               ∨ batch_status_of n st' = Some BatchStatus.COMPLETED)
         ∧ status st' = (if finished_loop then status st
                         else ProcessingStatus.COMPLETED));
  rp_events : ∃ evs,
    events w' = evs ++ events w
    ∧ (fid ∈ auto_run w → Forall (fun m => paused_message m = false) evs);
  rp_calls : ∃ cs,
    calls w' = cs ++ calls w
    ∧ ∀ c, c ∈ cs → ∃ p, c = (fid, p, current_prompt st) ∧ p ∉ completed_pages st;
  rp_saved : ∃ ss,
    saved w' = ss ++ saved w
    ∧ (fid ∈ auto_run w →
       ∀ s, s ∈ ss → status s = status st ∨ status s = ProcessingStatus.COMPLETED)
}.

(** What follows the loop: [COMPLETED] when it ran to its end. *)
Definition after_loop (fid : string) (finished_loop : bool) (w : World) : World :=
  if finished_loop then
    emit (MsgStatus fid "completed" "All pages processed")
      (StateManager.update_status fid ProcessingStatus.COMPLETED None w)
  else w.

(** ** What the claims about the unit of work say *)

(** What C1 says of a unit of work that starts on [st], finishes batch
    [b] first, and [b] is not the last batch. *)
Definition checkpoint_or_run_through (fid : string) (b : Z) (bi : BatchInfo.t)
    (st : t) (w w' : World) : Prop :=
  ∃ st',
    states w' !! fid = Some st'
    ∧ (fid ∉ auto_run w →
         status st' = ProcessingStatus.PAUSED
         ∧ current_batch st' = current_batch st + 1
         ∧ (current_batch st = b → current_batch st' = b + 1)
         ∧ batch_status_of b st' = Some BatchStatus.COMPLETED
         ∧ (∀ n, n ≠ b → batch_status_of n st' = batch_status_of n st)
         ∧ ∃ cs, calls w' = cs ++ calls w
                 ∧ ∀ c, c ∈ cs → ∃ p, c = (fid, p, current_prompt st) ∧ p ∈ batch_range bi)
    ∧ (fid ∈ auto_run w →
         status st' = ProcessingStatus.COMPLETED
         ∧ (∀ n, current_batch st ≤ n ≤ total_batches st →
                 batch_status_of n st' = None
                 ∨ batch_status_of n st' = Some BatchStatus.COMPLETED)
         ∧ (∃ evs, events w' = evs ++ events w
                   ∧ Forall (fun m => paused_message m = false) evs)
         ∧ (∃ ss, saved w' = ss ++ saved w
                  ∧ ∀ s, s ∈ ss → status s = status st
                                  ∨ status s = ProcessingStatus.COMPLETED)).

(** What C1 states of a unit that finishes batch [b] without auto-run. *)
Definition moves_to_batch_after (fid : string) (b : Z) (w' : World) : Prop :=
  ∃ st', states w' !! fid = Some st'
         ∧ current_batch st' = b + 1
         ∧ status st' = ProcessingStatus.PAUSED.

(** The pages of a batch that the page loop reaches: the ones that
    cannot be colorized have their error among [evs] and stay incomplete,
    the others are complete. *)
Definition failed_pages_skipped (fid : string) (bi : BatchInfo.t) (st st' : t)
    (w : World) (evs : list Message) : Prop :=
  ∀ p, p ∈ batch_range bi → p ∉ completed_pages st →
    (¬ colorizable fid (current_prompt st) w p →
       failure_reported fid (current_prompt st) w p evs
       ∧ p ∉ completed_pages st')
    ∧ (colorizable fid (current_prompt st) w p → p ∈ completed_pages st').

(** What C7 says of one turn of the batch loop, on batch [n]. *)
Definition batch_survives_failures (fid : string) (n : Z) (bi : BatchInfo.t)
    (st : t) (w w1 : World) : Prop :=
  ∃ st1 evs,
    states w1 !! fid = Some st1
    ∧ events w1 = evs ++ events w
    ∧ batch_status_of n st1 = Some BatchStatus.COMPLETED
    ∧ (status st1 = status st
       ∨ status st1 = ProcessingStatus.PAUSED
       ∨ status st1 = ProcessingStatus.COMPLETED)
    ∧ failed_pages_skipped fid bi st st1 w evs.

(** What C7 says of a whole unit of work started on [st], whose first
    batch to process is [b]. *)
Definition failures_are_skipped (fid : string) (b : Z) (bi : BatchInfo.t)
    (st : t) (w w' : World) : Prop :=
  ∃ st' evs,
    states w' !! fid = Some st'
    ∧ events w' = evs ++ events w
    ∧ batch_status_of b st' = Some BatchStatus.COMPLETED
    ∧ (status st' = ProcessingStatus.PAUSED ∨ status st' = ProcessingStatus.COMPLETED)
    ∧ failed_pages_skipped fid bi st st' w evs.

(** What C8 says of a unit of work started on [st]. *)
Definition completed_pages_not_redone (fid : string) (st : t) (w w' : World) : Prop :=
  ∃ cs,
    calls w' = cs ++ calls w
    ∧ ∀ c, c ∈ cs → ∃ p, c = (fid, p, current_prompt st) ∧ p ∉ completed_pages st.

(** ** What the claims about the control operations say *)

(** The part of the data-model invariant that retry relies on: the
    document-level [completed_pages] has no duplicates, a batch records
    only pages of its own range, and a page complete at document level
    is recorded by every batch whose range holds it. *)
Definition pages_recorded (st : t) : Prop :=
  NoDup (completed_pages st)
  ∧ Forall (fun bi =>
      Forall (fun p => StateManager.covers p bi = true) (BatchInfo.completed_pages bi)
      ∧ Forall (fun p => StateManager.covers p bi = true →
                         p ∈ BatchInfo.completed_pages bi)
          (completed_pages st))
      (batches st).

#[global] Instance pages_recorded_dec st : Decision (pages_recorded st).
Proof. unfold pages_recorded. apply _. Defined.

(** The process state on which retry continues: the outputs of the
    batch deleted, the batch reset. *)
Definition retry_prepared (fid : string) (st : t) (bi : BatchInfo.t) (w : World) : World :=
  StateManager.reset_batch fid (current_batch st)
    (PDFService.delete_batch_images fid (BatchInfo.start_page bi)
       (BatchInfo.end_page bi) w).

Definition retry_post (fid : string) (st : t) (bi : BatchInfo.t) (w : World) : Prop :=
  let w1 := retry_prepared fid st bi w in
  BatchProcessor.retry_current_batch fid w = BatchProcessor.continue_processing fid w1
  ∧ (BatchProcessor.continue_processing fid w1).1 = true
  ∧ (∀ fid' p, (fid', p) ∈ outputs w1 ↔
               (fid', p) ∈ outputs w
               ∧ ¬ (fid' = fid ∧ BatchInfo.start_page bi ≤ p ≤ BatchInfo.end_page bi))
  ∧ ∃ st1,
      states w1 !! fid = Some st1
      ∧ status st1 = ProcessingStatus.PAUSED
      ∧ current_batch st1 = current_batch st
      ∧ StateManager.find_batch (current_batch st) (batches st1) =
        Some (BatchInfo.mk (BatchInfo.batch_number bi) (BatchInfo.start_page bi)
                (BatchInfo.end_page bi) BatchStatus.PENDING None [])
      ∧ (∀ n, n ≠ current_batch st →
              StateManager.find_batch n (batches st1) =
              StateManager.find_batch n (batches st))
      ∧ (∀ p, p ∈ completed_pages st1 ↔
              p ∈ completed_pages st
              ∧ ¬ (BatchInfo.start_page bi ≤ p ≤ BatchInfo.end_page bi)).

(** No document is paused while its auto-run flag is set. *)
Definition paused_unflagged (w : World) : Prop :=
  ∀ fid st,
    states w !! fid = Some st →
    status st = ProcessingStatus.PAUSED →
    fid ∉ auto_run w.

(** A coroutine that keeps it, whether it returns or raises. *)
Definition keeps_unflagged {A} (m : M A) : Prop :=
  ∀ w, paused_unflagged w → paused_unflagged (world_of (m w)).

(** The unit of work [tid] of a document, undisturbed, goes through every
    remaining batch to [COMPLETED] and sends no "paused" status. *)
Definition unit_runs_through (fid : string) (tid : nat) (st : t) (w : World) : Prop :=
  let w' := _process_file gemini quiet tid fid w in
  ∃ st',
    states w' !! fid = Some st'
    ∧ status st' = ProcessingStatus.COMPLETED
    ∧ (∀ n, current_batch st ≤ n ≤ total_batches st →
            batch_status_of n st' = None
            ∨ batch_status_of n st' = Some BatchStatus.COMPLETED)
    ∧ ∃ evs, events w' = evs ++ events w
             ∧ Forall (fun m => paused_message m = false) evs.

(** ** The mutations of the state manager *)

(** No page lies in the range of two batches. *)
Definition ranges_disjoint (bs : list BatchInfo.t) : Prop :=
  ∀ (i j : nat) bi bj p,
    bs !! i = Some bi → bs !! j = Some bj →
    StateManager.covers p bi = true → StateManager.covers p bj = true → i = j.

(** The mutations the state manager performs on a record. *)
Inductive Mutation :=
| SetStatus (s : ProcessingStatus.t) (e : option string)
| SetPrompt (prompt : string)
| MarkPage (page : Z)
| SetBatchStatus (n : Z) (s : BatchStatus.t) (prompt_used : option string)
| Advance
| ResetBatch (n : Z).

Definition mutated (m : Mutation) (st : t) : t :=
  match m with
  | SetStatus s e => StateManager.with_status s e st
  | SetPrompt prompt => StateManager.with_current_prompt prompt st
  | MarkPage page => StateManager.page_marked page st
  | SetBatchStatus n s p => StateManager.batch_status_set n s p st
  | Advance => StateManager.advanced st
  | ResetBatch n => StateManager.batch_cleared n st
  end.

Definition same_range (b b' : BatchInfo.t) : Prop :=
  BatchInfo.start_page b' = BatchInfo.start_page b
  ∧ BatchInfo.end_page b' = BatchInfo.end_page b.

(** [pages_recorded], batch by batch. *)
Definition batch_keeps (doc : list Z) (bi : BatchInfo.t) : Prop :=
  (∀ p, p ∈ BatchInfo.completed_pages bi → StateManager.covers p bi = true)
  ∧ (∀ p, p ∈ doc → StateManager.covers p bi = true → p ∈ BatchInfo.completed_pages bi).

End Vocabulary.

(** ** Blindness to the pause signals *)

Section Blindness.
Context (f : gset string → gset string).

Definition lift_result {A} (S : World → World) (r : Result A) : Result A :=
  match r with
  | Ok a w => Ok a (S w)
  | Raise e w => Raise e (S w)
  end.

(** A coroutine that does the same whatever the pause signals are. *)
Definition pause_blind {A} (m : M A) : Prop :=
  ∀ w, m (set_pause_signals f w) = lift_result (set_pause_signals f) (m w).

End Blindness.

(** ** The subscriptions *)

(** The per-document observers of [file_id]:
    [self.active_connections.get(file_id, set())]. *)
Definition subscribers (file_id : string) (m : ConnectionManager.t) : gset nat :=
  default ∅ (ConnectionManager.active_connections m !! file_id).

(** No document is subscribed to by an empty set. *)
Definition no_empty_sets (m : ConnectionManager.t) : Prop :=
  map_Forall (fun _ (s : gset nat) => s ≠ ∅) (ConnectionManager.active_connections m).

(** Where [connect] files a connection: the document's set for a
    non-empty file id, the global set otherwise. *)
Definition subscribed (websocket : nat) (file_id : option string)
    (m : ConnectionManager.t) : Prop :=
  match file_id with
  | Some fid =>
      if truthy file_id then websocket ∈ subscribers fid m
      else websocket ∈ ConnectionManager.global_connections m
  | None => websocket ∈ ConnectionManager.global_connections m
  end.

(** Every connection the manager knows. *)
Definition known (c : nat) (m : ConnectionManager.t) : Prop :=
  c ∈ ConnectionManager.global_connections m
  ∨ ∃ file_id s, ConnectionManager.active_connections m !! file_id = Some s ∧ c ∈ s.

(** ** The attempts of [colorize_image] *)

(** An attempt that brings no image. *)
Definition fruitless {Image} (api : string → string → Z → GeminiService.Attempt Image)
    (image_bytes prompt : string) (attempt : Z) : Prop :=
  ∀ result, api image_bytes prompt attempt ≠ GeminiService.Returned (Some result).

(** The attempt raises. *)
Definition raises {Image} (api : string → string → Z → GeminiService.Attempt Image)
    (image_bytes : string + string) (prompt : string) (attempt : Z) : bool :=
  match image_bytes with
  | inl _ => false
  | inr image_bytes =>
      match api image_bytes prompt attempt with
      | GeminiService.Raised _ => true
      | GeminiService.Returned _ => false
      end
  end.

(** [last_error] after the attempts of [range]. *)
Definition last_raised {Image} (api : string → string → Z → GeminiService.Attempt Image)
    (image_bytes prompt : string) (last_error : option string) (range : list Z) :
    option string :=
  foldl (fun last_error attempt =>
           match api image_bytes prompt attempt with
           | GeminiService.Raised e => Some e
           | GeminiService.Returned _ => last_error
           end) last_error range.

Fixpoint sum_list_Z (l : list Z) : Z :=
  match l with
  | [] => 0
  | x :: l => x + sum_list_Z l
  end.

(** ** The cache and the state files *)

(** Every cached record is the one its file holds. *)
Definition written_through (s : StateStore.t) : Prop :=
  map_Forall (fun file_id state => StateStore.state_files s !! file_id = Some state)
    (StateStore._states s).

(** What a request does to the documents that have a state, taken as one
    map. *)
Definition as_map (r : StateStore.Request)
    (m : gmap string ProcessingState.t) : gmap string ProcessingState.t :=
  match r with
  | StateStore.Initialize file_id state => <[file_id := state]> m
  | StateStore.Mutate file_id f => alter f file_id m
  | StateStore.Delete file_id => delete file_id m
  | StateStore.Get _ | StateStore.ListAll _ => m
  end.

(** ** The output images of the completed pages *)

(** The invariant of the data model on one record, with the
    disjointness of the batch ranges it rests on. *)
Definition record_kept (st : ProcessingState.t) : Prop :=
  pages_recorded st ∧ ranges_disjoint (ProcessingState.batches st).

(** In every document the record is kept and every page recorded
    complete has its output image. *)
Definition images_kept (w : World) : Prop :=
  ∀ fid st,
    states w !! fid = Some st →
    record_kept st
    ∧ ∀ p, p ∈ ProcessingState.completed_pages st → (fid, p) ∈ outputs w.

(** A coroutine that keeps it, whether it returns or raises. *)
Definition keeps_images {A} (m : M A) : Prop :=
  ∀ w, images_kept w → images_kept (world_of (m w)).

(** ** The shape of a record *)

(** What identifies a batch: its number and its range. *)
Definition batch_frame (b : BatchInfo.t) : Z * Z * Z :=
  (BatchInfo.batch_number b, BatchInfo.start_page b, BatchInfo.end_page b).

(** The part of a record no mutator writes. *)
Definition record_frame (st : ProcessingState.t) : string * string * Z * Z * Z * list (Z * Z * Z) :=
  (ProcessingState.file_id st, ProcessingState.filename st,
   ProcessingState.total_pages st, ProcessingState.step_size st,
   ProcessingState.total_batches st, batch_frame <$> ProcessingState.batches st).

(** The lists of completed pages are in ascending order. *)
Definition pages_ascending (st : ProcessingState.t) : Prop :=
  Sorted Z.le (ProcessingState.completed_pages st)
  ∧ Forall (fun b => Sorted Z.le (BatchInfo.completed_pages b)) (ProcessingState.batches st).

(** ** A reviewed document *)


(** The client that reviews every batch: the task registered for the
    document runs with nothing else arriving; when it has left the
    document paused, the client sends [POST /continue] and the next task
    runs, at most [rounds] times. *)
Fixpoint review (gemini : Gemini) (rounds : nat) (fid : string) (w : World) : World :=
  match rounds with
  | O => w
  | S rounds =>
      match tasks w !! fid with
      | None => w
      | Some tid =>
          let w := run_task gemini quiet tid fid w in
          if BatchProcessor.is_paused fid w
          then review gemini rounds fid
                 (Routes.continue_processing fid Routes.CONTINUE w).2
          else w
      end
  end.

(** Batch [n] of a state, its completed pages left out. *)
Definition bare (n : Z) (st : ProcessingState.t) : option BatchInfo.t :=
  StateManager.batch_with_pages [] <$> StateManager.find_batch n (ProcessingState.batches st).

(** The document [fid], started in [w0] with [prompt], between two rounds
    of the review: the batches before [k] are complete, batch [k] and the
    later ones are untouched, and a task that was not cancelled is
    registered. *)
Record under_review (gemini : Gemini) (fid prompt : string) (step tp : Z)
    (w0 : World) (k : Z) (w : World) : Prop := UnderReview {
  ur_state : ∃ st,
    states w !! fid = Some st
    ∧ ProcessingState.current_batch st = k
    ∧ ProcessingState.total_batches st = ceil_div tp step
    ∧ ProcessingState.total_pages st = tp
    ∧ ProcessingState.current_prompt st = prompt
    ∧ (∀ n, k ≤ n ≤ ceil_div tp step →
         bare n st = Some (BatchInfo.mk n ((n - 1) * step + 1) (Z.min (n * step) tp)
                             BatchStatus.PENDING None []))
    ∧ (∀ n, 1 ≤ n < k → batch_status_of n st = Some BatchStatus.COMPLETED)
    ∧ (∀ p, p ∈ ProcessingState.completed_pages st ↔
            1 ≤ p ≤ Z.min ((k - 1) * step) tp ∧ colorizable gemini fid prompt w0 p);
  ur_images : ∀ p, PDFService.get_page_image_path fid p w
                   = PDFService.get_page_image_path fid p w0;
  ur_stop : fid ∉ stop_signals w;
  ur_auto : fid ∉ auto_run w;
  ur_task : ∃ tid, tasks w !! fid = Some tid ∧ tid ∉ cancelled w;
  ur_fresh : ∀ t, t ∈ cancelled w → (t < next_task w)%nat
}.

(** The document when the review is over. *)
Definition reviewed (gemini : Gemini) (fid prompt : string) (step tp : Z)
    (w0 w : World) : Prop :=
  ∃ st,
    states w !! fid = Some st
    ∧ ProcessingState.status st = ProcessingStatus.COMPLETED
    ∧ (∀ n, 1 ≤ n ≤ ceil_div tp step → batch_status_of n st = Some BatchStatus.COMPLETED)
    ∧ (∀ p, p ∈ ProcessingState.completed_pages st ↔
            1 ≤ p ≤ tp ∧ colorizable gemini fid prompt w0 p)
    ∧ BatchProcessor.task_active fid w = false.

(** * Scenarios

    A document of 24 page images, numbered 1 to 25 with page 5 missing,
    and a transformation client that fails on page 3. *)

Section Inputs.
Import ProcessingState.

Definition uploaded : World :=
  mkWorld ∅ [] {[ "doc" := list_to_set (seqZ 1 25) ∖ {[ 5 ]} ]} {[ "doc" ]}
    ∅ ∅ 0%nat ∅ ∅ ∅ ∅ ∅ [] [].

Definition fails_on_page_3 : Gemini := fun _ page _ =>
  if decide (page = 3) then ColorizeFailed "Colorization failed after 3 attempts: None"
  else Colorized.

Definition state_of (fid : string) (w : World) : ProcessingState.t :=
  default (StateManager.initial_state EmptyString EmptyString 0 1 EmptyString) (states w !! fid).

(** [POST /start] with step size 10; task 0 is registered. *)
Definition started : World :=
  (Routes.start_processing "doc" 10 "colour it" uploaded).2.

Definition started_state : ProcessingState.t := Eval vm_compute in state_of "doc" started.

Definition batch_1 : BatchInfo.t := BatchInfo.mk 1 1 10 BatchStatus.PENDING None [].

(** Task 0 has run: batch 1 is done and the document is paused. *)
Definition paused_after_1 : World := run_task fails_on_page_3 quiet 0 "doc" started.

Definition paused_state : ProcessingState.t := Eval vm_compute in state_of "doc" paused_after_1.

(** The observers are being told that batch 1 is complete when a stop
    arrives: the task is cancelled between the save of the batch status
    and [advance_batch]. The engine is then started again. *)
Definition stop_after_batch_1 : Schedule := fun pt =>
  match pt with
  | AwaitSend (MsgBatchComplete _ 1 _ _) => [CmdStop "doc"]
  | _ => []
  end.

Definition stopped : World := run_task fails_on_page_3 stop_after_batch_1 0 "doc" started.

Definition restarted : World := (BatchProcessor.start_processing "doc" stopped).2.

Definition restarted_state : ProcessingState.t := Eval vm_compute in state_of "doc" restarted.

(** After the restart above the document pauses with batch 2 complete
    and still current: the state retry is made for. *)
Definition lagging : World := run_task fails_on_page_3 quiet 1 "doc" restarted.

Definition lagging_state : ProcessingState.t := Eval vm_compute in state_of "doc" lagging.

Definition batch_2_done : BatchInfo.t :=
  BatchInfo.mk 2 11 20 BatchStatus.COMPLETED (Some "colour it")
    [11; 12; 13; 14; 15; 16; 17; 18; 19; 20].

(** The paused document is continued: task 1 meets batch 2 afresh, and a
    second run over batch 1 would meet its completed pages. *)
Definition continued : World := (BatchProcessor.continue_processing "doc" paused_after_1).2.

Definition continued_state : ProcessingState.t := Eval vm_compute in state_of "doc" continued.

(** Trust-and-run on the paused document, then a pause while page 12 of
    batch 2 is being transformed. *)
Definition pause_during_page_12 : Schedule := fun pt =>
  match pt with
  | AwaitColorize _ 12 => [CmdPause "doc"]
  | _ => []
  end.

(** The prompt is set to the empty string while page 4 of batch 1 is
    being transformed; the document pauses and is continued. *)
Definition empty_prompt_during_page_4 : Schedule := fun pt =>
  match pt with
  | AwaitColorize _ 4 => [CmdUpdatePrompt "doc" EmptyString]
  | _ => []
  end.

(** The state is initialised and nothing has started: the status is
    [IDLE]. Trust-and-run fails and sets the flag; the document is then
    started, pauses after batch 1, and is continued. *)
Definition idle : World :=
  world_of (StateManager.initialize_state "doc" 10 "colour it" uploaded).

(** A document with its own observer 1, a global observer 2, and a
    transport on which the connection of 2 is severed. *)
Definition two_observers : ConnectionManager.t :=
  ConnectionManager.connect 2 None
    (ConnectionManager.connect 1 (Some "doc")
       (ConnectionManager.mk ∅ ∅)).

Definition severed_2 : nat → Message → bool := fun c _ => negb (bool_decide (c = 2%nat)).

(** Trust-and-run while page 2 of batch 1 is being transformed: the
    status is [PROCESSING], the call fails and launches nothing — and the
    unit that is running finds the flag at every checkpoint. *)
Definition trust_during_page_2 : Schedule := fun pt =>
  match pt with
  | AwaitColorize _ 2 => [CmdTrustAndRun "doc"]
  | _ => []
  end.

(** What the observers are told when batch 1 is done. *)
Definition paused_notice : Message :=
  MsgStatus "doc" "paused" "Batch 1 completed. Waiting for review.".

(** An API that is overloaded at the first attempt, answers without
    image data at the second and with an image from the third on; and an
    API that is down. *)
Definition third_time_lucky : string → string → Z → GeminiService.Attempt string :=
  fun _ _ attempt =>
    if decide (attempt = 0) then GeminiService.Raised "503 UNAVAILABLE"
    else if decide (attempt = 1) then GeminiService.Returned None
    else GeminiService.Returned (Some "png").

Definition always_down : string → string → Z → GeminiService.Attempt string :=
  fun _ _ _ => GeminiService.Raised "503 UNAVAILABLE".

(** A state manager that has just started, with no state file; what is
    asked of it; and a directory listed in the order of the keys. *)
Definition fresh_store : StateStore.t := StateStore.mk ∅ ∅.

Definition some_requests : list StateStore.Request :=
  [StateStore.Initialize "doc" started_state;
   StateStore.Mutate "doc" (StateManager.page_marked 1);
   StateStore.Initialize "new" paused_state;
   StateStore.Get "doc";
   StateStore.Delete "new"].

Definition listing (m : gmap string ProcessingState.t) : list string := (map_to_list m).*1.

(** The process has started again: the state file of the document is
    there, the cache is empty. *)
Definition restarted_store : StateStore.t :=
  StateStore.restart (StateStore.store "doc" paused_state fresh_store).

(** The document started with all its pages in one batch, the task run. *)
Definition finished_doc : World :=
  run_task fails_on_page_3 quiet 0 "doc"
    (Routes.start_processing "doc" 50 "colour it" uploaded).2.

Definition finished_state : ProcessingState.t := Eval vm_compute in state_of "doc" finished_doc.

(** What a batch goes through, and a retry. *)
Definition some_mutations : list Mutation :=
  [SetStatus ProcessingStatus.PROCESSING None;
   SetBatchStatus 1 BatchStatus.PROCESSING (Some "colour it");
   MarkPage 2; MarkPage 1; MarkPage 2;
   SetBatchStatus 1 BatchStatus.COMPLETED None;
   Advance;
   SetStatus ProcessingStatus.PAUSED None;
   ResetBatch 1;
   SetPrompt "softer";
   MarkPage 11].

End Inputs.

(** * Properties *)

(** ** The observers of a document *)

Section Observers.
Import ConnectionManager.

(** X24. Whatever the order of iteration, every observer of the audience
    is tried once and only once, and a failed send keeps nothing from the
    others. *)
Lemma send_to_file_once send_json iter file_id message m :
  (∀ s, iter s ≡ₚ elements s) →
  let delivered := (send_to_file send_json iter file_id message m).1 in
  NoDup delivered
  ∧ ∀ c, (c, message) ∈ delivered ↔
         c ∈ audience file_id m ∧ send_json c message = true.
Proof.
  intros Hiter. simpl. split.
  - apply NoDup_fmap_2; [by intros ?? [= ->]|].
    apply NoDup_filter. rewrite Hiter. apply NoDup_elements.
  - intros c. rewrite list_elem_of_fmap. split.
    + intros (c' & [= <-] & Hc). apply list_elem_of_filter in Hc as [Hok Hc].
      rewrite Hiter in Hc. by apply elem_of_elements in Hc.
    + intros [Hc Hok]. exists c. split; [done|]. apply list_elem_of_filter.
      split; [done|]. rewrite Hiter. by apply elem_of_elements.
Qed.

End Observers.

(** ** Batch layout of a fresh state *)

Lemma floor_formula_is_ceil (a b : Z) :
  0 < b → (a + b - 1) `div` b = ceil_div a b.
Proof.
  intros Hb. unfold ceil_div.
  pose proof (Z.div_mod a b ltac:(lia)) as Hdm.
  pose proof (Z.mod_pos_bound a b Hb) as Hm.
  case_decide as Hz.
  - symmetry. apply (Z.div_unique _ _ _ (b - 1)); lia.
  - symmetry. apply (Z.div_unique _ _ _ (a `mod` b - 1)); lia.
Qed.

Lemma ceil_div_least (a b : Z) :
  0 < b → a ≤ ceil_div a b * b ∧ (ceil_div a b - 1) * b < a.
Proof.
  intros Hb. unfold ceil_div.
  pose proof (Z.div_mod a b ltac:(lia)) as Hdm.
  pose proof (Z.mod_pos_bound a b Hb) as Hm.
  case_decide; nia.
Qed.

Lemma page_owner_unique (step p i j : Z) :
  0 < step →
  (i - 1) * step + 1 ≤ p ≤ i * step →
  (j - 1) * step + 1 ≤ p ≤ j * step →
  i = j.
Proof. intros Hs Hi Hj. nia. Qed.

Lemma page_owner_exists (tp step p : Z) :
  0 < step → 1 ≤ p ≤ tp →
  let i := (p - 1) `div` step + 1 in
  1 ≤ i ≤ (tp + step - 1) `div` step ∧ (i - 1) * step + 1 ≤ p ≤ Z.min (i * step) tp.
Proof.
  intros Hs Hp i. subst i.
  pose proof (Z.div_mod (p - 1) step ltac:(lia)) as Hdm.
  pose proof (Z.mod_pos_bound (p - 1) step Hs) as Hm.
  pose proof (Z.div_pos (p - 1) step ltac:(lia) Hs) as Hq.
  assert ((p - 1) `div` step + 1 ≤ (tp + step - 1) `div` step) as Hle.
  { replace (tp + step - 1) with ((tp - 1) + 1 * step) by lia.
    rewrite Z.div_add by lia.
    pose proof (Z.div_le_mono (p - 1) (tp - 1) step Hs ltac:(lia)). lia. }
  split; [lia|]. split; [nia|]. apply Z.min_glb; nia.
Qed.

Lemma initial_state_layout fid fname tp step prompt :
  1 ≤ tp → 1 ≤ step →
  batch_layout (StateManager.initial_state fid fname tp step prompt) tp step.
Proof.
  intros Htp Hstep. unfold batch_layout, StateManager.initial_state. simpl.
  rewrite floor_formula_is_ceil by lia.
  pose proof (ceil_div_least tp step ltac:(lia)) as [Hup Hlow].
  assert (1 ≤ ceil_div tp step) as Hpos by nia.
  split_and!; try done.
  - rewrite length_fmap, length_seqZ. done.
  - intros i Hi. rewrite list_lookup_fmap.
    rewrite (lookup_seqZ_lt 0 _ (Z.to_nat (i - 1))) by lia. simpl.
    unfold StateManager.make_batch.
    replace (0 + Z.of_nat (Z.to_nat (i - 1))) with (i - 1) by lia.
    by replace (i - 1 + 1) with i by lia.
  - intros i Hi. split_and!; [nia | apply Z.min_glb; nia | apply Z.le_min_r].
  - intros p Hp.
    pose proof (page_owner_exists tp step p ltac:(lia) Hp) as Hex.
    simpl in Hex. rewrite floor_formula_is_ceil in Hex by lia.
    exists ((p - 1) `div` step + 1). split; [exact Hex|].
    intros j [Hj Hjp]. destruct Hex as [_ Hip].
    apply (page_owner_unique step p); [lia| |].
    + pose proof (Z.le_min_l (j * step) tp). lia.
    + pose proof (Z.le_min_l (((p - 1) `div` step + 1) * step) tp). lia.
Qed.

(** C2. With [total_pages ≥ 1] page images uploaded and a step size in
    1..50, [initialize_state] succeeds and stores a state with
    [total_batches = ceil(total_pages / step_size)] batches; batch [i] is
    [(i-1)*step_size+1 .. min(i*step_size, total_pages)], each range is
    non-empty and inside [1..total_pages], and every page of
    [1..total_pages] lies in exactly one of them. *)
Theorem initialize_state_partitions fid step prompt w tp :
  PDFService.get_total_pages fid w = tp →
  1 ≤ tp →
  1 ≤ step ≤ 50 →
  ∃ st w',
    StateManager.initialize_state fid step prompt w = Ok st w'
    ∧ states w' !! fid = Some st
    ∧ batch_layout st tp step.
Proof.
  intros Htp Hpos Hstep.
  unfold StateManager.initialize_state, mbind, M_bind, bind, gets, modify. simpl.
  rewrite Htp.
  destruct (decide (tp = 0)) as [->|_]; [lia|].
  destruct (decide (step = 0)) as [->|_]; [lia|].
  simpl. eexists _, _. split; [reflexivity|]. split.
  - unfold StateManager._save_state. simpl. rewrite lookup_insert_eq. simpl.
    apply lookup_insert_eq.
  - apply initial_state_layout; lia.
Qed.

(** ** The unit of work when nothing interferes *)

Ltac unfold_monad :=
  unfold mbind, M_bind, bind, gets, modify, mret, M_ret, ret, raise.

Lemma mutate_Some fid f w st :
  states w !! fid = Some st →
  StateManager.mutate fid f w =
  set_saved (cons (f st)) (set_states (insert fid (f st)) w).
Proof.
  intros H. unfold StateManager.mutate, StateManager.get_state. rewrite H.
  unfold StateManager._save_state. simpl. by rewrite lookup_insert_eq.
Qed.

Lemma mutate_None fid f w :
  states w !! fid = None → StateManager.mutate fid f w = w.
Proof.
  intros H. unfold StateManager.mutate, StateManager.get_state. by rewrite H.
Qed.

Lemma deref_Some fid state w st :
  states w !! fid = Some st → deref fid state w = st.
Proof. intros H. unfold deref. by rewrite H. Qed.

Section Quiet.
Context (gemini : Gemini).
Import ProcessingState.

Lemma suspend_quiet tid pt w :
  tid ∉ cancelled w → suspend quiet tid pt w = Ok tt w.
Proof.
  intros H. unfold suspend, quiet. unfold_monad. simpl.
  by destruct (decide (tid ∈ cancelled w)).
Qed.

Lemma send_quiet tid m w :
  tid ∉ cancelled w → send quiet tid m w = Ok tt (emit m w).
Proof.
  intros H. unfold send. unfold_monad. by rewrite suspend_quiet.
Qed.

(** The four ways through the body of the page loop. The first holds
    under any schedule: a completed page is left before anything is
    awaited. *)
Lemma process_page_completed env tid fid prompt bn tp state p w st :
  states w !! fid = Some st →
  fid ∉ stop_signals w →
  p ∈ completed_pages st →
  process_page gemini env tid fid prompt bn tp state p w = Ok (NextPage state) w.
Proof.
  intros Hst Hstop Hp. unfold process_page, stop_requested. unfold_monad.
  rewrite bool_decide_eq_false_2 by done.
  rewrite (deref_Some _ _ _ _ Hst).
  by destruct (decide (p ∈ completed_pages st)).
Qed.

Lemma process_page_missing tid fid prompt bn tp state p w st :
  states w !! fid = Some st →
  fid ∉ stop_signals w →
  tid ∉ cancelled w →
  p ∉ completed_pages st →
  PDFService.get_page_image_path fid p w = false →
  process_page gemini quiet tid fid prompt bn tp state p w =
  Ok (NextPage state)
     (emit (MsgError fid ("Page " +:+ pretty p +:+ " image not found") (Some p)) w).
Proof.
  intros Hst Hstop Hc Hp Himg. unfold process_page, stop_requested. unfold_monad.
  rewrite bool_decide_eq_false_2 by done.
  rewrite (deref_Some _ _ _ _ Hst).
  destruct (decide (p ∈ completed_pages st)); [done|].
  rewrite Himg. simpl. by rewrite send_quiet.
Qed.

Lemma process_page_failed tid fid prompt bn tp state p w st error :
  states w !! fid = Some st →
  fid ∉ stop_signals w →
  tid ∉ cancelled w →
  p ∉ completed_pages st →
  PDFService.get_page_image_path fid p w = true →
  tp ≠ 0 →
  gemini fid p prompt = ColorizeFailed error →
  process_page gemini quiet tid fid prompt bn tp state p w =
  Ok (NextPage state)
     (emit (MsgError fid (failure_text error) (Some p))
        (set_calls (cons (fid, p, prompt))
           (emit (MsgProgress fid p tp bn) w))).
Proof.
  intros Hst Hstop Hc Hp Himg Htp Hg.
  unfold process_page, stop_requested. unfold_monad.
  rewrite bool_decide_eq_false_2 by done.
  rewrite (deref_Some _ _ _ _ Hst).
  destruct (decide (p ∈ completed_pages st)); [done|].
  rewrite Himg. simpl.
  unfold send_progress_update. destruct (decide (tp = 0)); [done|].
  rewrite send_quiet by done.
  unfold colorize_image. unfold_monad. rewrite suspend_quiet by done.
  rewrite Hg. by rewrite send_quiet.
Qed.

Lemma process_page_colorized tid fid prompt bn tp state p w st :
  states w !! fid = Some st →
  fid ∉ stop_signals w →
  tid ∉ cancelled w →
  p ∉ completed_pages st →
  PDFService.get_page_image_path fid p w = true →
  tp ≠ 0 →
  gemini fid p prompt = Colorized →
  process_page gemini quiet tid fid prompt bn tp state p w =
  Ok (NextPage (StateManager.page_marked p st))
     (emit (MsgPageComplete fid p)
        (StateManager.mark_page_complete fid p
           (PDFService.save_colorized_image fid p
              (set_calls (cons (fid, p, prompt))
                 (emit (MsgProgress fid p tp bn) w))))).
Proof.
  intros Hst Hstop Hc Hp Himg Htp Hg.
  unfold process_page, stop_requested. unfold_monad.
  rewrite bool_decide_eq_false_2 by done.
  rewrite (deref_Some _ _ _ _ Hst).
  destruct (decide (p ∈ completed_pages st)); [done|].
  rewrite Himg. simpl.
  unfold send_progress_update. destruct (decide (tp = 0)); [done|].
  rewrite send_quiet by done.
  unfold colorize_image. unfold_monad. rewrite suspend_quiet by done.
  rewrite Hg.
  unfold StateManager.mark_page_complete.
  erewrite mutate_Some by (simpl; exact Hst).
  rewrite send_quiet by done.
  unfold StateManager.get_state. simpl. by rewrite lookup_insert_eq.
Qed.

End Quiet.

(** ** Frames *)

Lemma skeleton_update_first_pages (P : BatchInfo.t → bool) (g : BatchInfo.t → list Z) bs :
  StateManager.batch_with_pages [] <$>
    update_first P (fun b => StateManager.batch_with_pages (g b) b) bs =
  StateManager.batch_with_pages [] <$> bs.
Proof.
  induction bs as [|b bs IH]; [done|]. simpl.
  destruct (P b); simpl; [done|]. f_equal. exact IH.
Qed.

Lemma skeleton_page_marked p st :
  skeleton (StateManager.page_marked p st) = skeleton st.
Proof.
  unfold skeleton, StateManager.page_marked, StateManager.with_pages.
  cbn [ProcessingState.batches ProcessingState.completed_pages].
  by rewrite (skeleton_update_first_pages _
                (fun b => append_sorted p (BatchInfo.completed_pages b))).
Qed.

Lemma update_first_fmap {A} (P : A → bool) (f g : A → A) (l : list A) :
  (∀ b, P (g b) = P b) → (∀ b, g (f b) = f (g b)) →
  g <$> update_first P f l = update_first P f (g <$> l).
Proof.
  intros HP Hfg. induction l as [|b l IH]; [done|]. simpl.
  rewrite HP. destruct (P b); simpl; [by rewrite Hfg|]. f_equal. exact IH.
Qed.

Lemma skeleton_batch_status_set n s p st :
  skeleton (StateManager.batch_status_set n s p st) =
  StateManager.batch_status_set n s p (skeleton st).
Proof.
  unfold skeleton, StateManager.batch_status_set, StateManager.with_pages. simpl.
  f_equal. by apply update_first_fmap.
Qed.

Lemma skeleton_advanced st :
  skeleton (StateManager.advanced st) = StateManager.advanced (skeleton st).
Proof. unfold StateManager.advanced. simpl. by case_decide. Qed.

Lemma skeleton_with_status s e st :
  skeleton (StateManager.with_status s e st) = StateManager.with_status s e (skeleton st).
Proof. done. Qed.

Lemma same_engine_refl w : same_engine w w.
Proof. by constructor. Qed.

Lemma same_engine_trans w1 w2 w3 :
  same_engine w1 w2 → same_engine w2 w3 → same_engine w1 w3.
Proof. intros [] []. constructor; congruence. Qed.

Lemma same_engine_mutate fid f w : same_engine w (StateManager.mutate fid f w).
Proof.
  unfold StateManager.mutate, StateManager.get_state.
  destruct (states w !! fid) as [st|]; [|apply same_engine_refl].
  unfold StateManager._save_state. simpl. rewrite lookup_insert_eq. by constructor.
Qed.

Lemma same_engine_image fid p w w' :
  same_engine w w' →
  PDFService.get_page_image_path fid p w' = PDFService.get_page_image_path fid p w.
Proof.
  intros Hse. unfold PDFService.get_page_image_path.
  by rewrite (se_uploads _ _ Hse).
Qed.

Lemma elem_of_append_sorted (x p : Z) (l : list Z) :
  x ∈ append_sorted p l ↔ x = p ∨ x ∈ l.
Proof.
  unfold append_sorted. case_decide as Hp.
  - split; [by right|]. intros [->|]; done.
  - rewrite merge_sort_Permutation, elem_of_app, list_elem_of_singleton. tauto.
Qed.

(** ** The page loop *)

Section PageLoop.
Context (gemini : Gemini).
Import ProcessingState.

Lemma page_loop_post_nil fid prompt st w :
  states w !! fid = Some st → page_loop_post gemini fid prompt [] st w w.
Proof.
  intros Hst. constructor.
  - apply same_engine_refl.
  - done.
  - exists st. split_and!; [done..|]. intros p. rewrite elem_of_nil. tauto.
  - exists []. split_and!; [done|constructor|]. intros p Hp. by apply elem_of_nil in Hp.
  - exists []. split; [done|]. intros c Hc. by apply elem_of_nil in Hc.
  - exists []. split; [done|]. intros c Hc. by apply elem_of_nil in Hc.
Qed.

Lemma failure_reported_mono fid prompt w w0 p evs evs' :
  same_engine w0 w →
  failure_reported gemini fid prompt w p evs →
  evs ⊆ evs' →
  failure_reported gemini fid prompt w0 p evs'.
Proof.
  intros Hse [H1 H2] Hsub. rewrite (same_engine_image fid p _ _ Hse) in H1.
  split.
  - intros Hi. apply Hsub, H1, Hi.
  - intros e Hi Hg. rewrite <- (same_engine_image fid p _ _ Hse) in Hi.
    apply Hsub, (H2 e Hi Hg).
Qed.

Lemma page_loop_post_app fid prompt l1 l2 st st1 w w1 w' :
  page_loop_post gemini fid prompt l1 st w w1 →
  states w1 !! fid = Some st1 →
  page_loop_post gemini fid prompt l2 st1 w1 w' →
  page_loop_post gemini fid prompt (l1 ++ l2) st w w'.
Proof.
  intros [Hse1 Ho1 (st1' & Hst1 & Hsk1 & Hc1) (evs1 & He1 & Hm1 & Hf1)
            (cs1 & Hcs1 & Hcl1) (ss1 & Hss1 & Hs1)] Hw1
         [Hse2 Ho2 (st' & Hst' & Hsk2 & Hc2) (evs2 & He2 & Hm2 & Hf2)
            (cs2 & Hcs2 & Hcl2) (ss2 & Hss2 & Hs2)].
  assert (st1' = st1) as -> by congruence.
  assert (∀ p, colorizable gemini fid prompt w1 p ↔ colorizable gemini fid prompt w p) as Hcol.
  { intros p. unfold colorizable. by rewrite (same_engine_image fid p _ _ Hse1). }
  constructor.
  - by eapply same_engine_trans.
  - intros fid' Hne. rewrite Ho2, Ho1; done.
  - exists st'. split_and!; [done|congruence|].
    intros p. rewrite Hc2, Hc1, Hcol, elem_of_app. tauto.
  - exists (evs2 ++ evs1). split_and!.
    + rewrite He2, He1. by rewrite app_assoc.
    + by apply Forall_app.
    + intros p Hp Hnc. apply elem_of_app in Hp.
      destruct (decide (p ∈ l1)) as [Hin1|Hnin1].
      * eapply failure_reported_mono; [apply same_engine_refl|by apply Hf1|].
        intros m Hm. apply elem_of_app. by right.
      * destruct Hp as [Hp|Hp]; [done|].
        eapply failure_reported_mono; [exact Hse1|apply Hf2; [done|]|].
        -- rewrite Hc1. tauto.
        -- intros m Hm. apply elem_of_app. by left.
  - exists (cs2 ++ cs1). split.
    + rewrite Hcs2, Hcs1. by rewrite app_assoc.
    + intros c Hc. apply elem_of_app in Hc as [Hc|Hc].
      * destruct (Hcl2 c Hc) as (p & -> & Hp & Hnc). exists p. split_and!; [done| |].
        -- apply elem_of_app. by right.
        -- rewrite Hc1 in Hnc. tauto.
      * destruct (Hcl1 c Hc) as (p & -> & Hp & Hnc). exists p. split_and!; [done| |done].
        apply elem_of_app. by left.
  - exists (ss2 ++ ss1). split.
    + rewrite Hss2, Hss1. by rewrite app_assoc.
    + intros s Hs. apply elem_of_app in Hs as [Hs|Hs].
      * rewrite (Hs2 s Hs). done.
      * by apply Hs1.
Qed.

Lemma process_page_quiet tid fid prompt bn tp state p w st :
  states w !! fid = Some st →
  fid ∉ stop_signals w →
  tid ∉ cancelled w →
  tp ≠ 0 →
  ∃ state' w1,
    process_page gemini quiet tid fid prompt bn tp state p w = Ok (NextPage state') w1
    ∧ page_loop_post gemini fid prompt [p] st w w1.
Proof.
  intros Hst Hstop Hc Htp.
  destruct (decide (p ∈ completed_pages st)) as [Hdone|Hnew].
  { exists state, w. split; [by eapply process_page_completed|].
    constructor.
    - apply same_engine_refl.
    - done.
    - exists st. split_and!; [done..|]. intros q. rewrite list_elem_of_singleton.
      split; [tauto|]. intros [|[-> _]]; done.
    - exists []. split_and!; [done|constructor|].
      intros q Hq. apply list_elem_of_singleton in Hq as ->. done.
    - exists []. split; [done|]. intros c Hc'. by apply elem_of_nil in Hc'.
    - exists []. split; [done|]. intros c Hc'. by apply elem_of_nil in Hc'. }
  destruct (PDFService.get_page_image_path fid p w) eqn:Himg; cycle 1.
  { eexists _, _. split; [by eapply process_page_missing|].
    constructor; simpl.
    - by constructor.
    - done.
    - exists st. split_and!; [done..|]. intros q. rewrite list_elem_of_singleton.
      split; [tauto|]. intros [|[-> [Hi _]]]; [done|congruence].
    - eexists [_]. split_and!; [done|by repeat constructor|].
      intros q Hq _. apply list_elem_of_singleton in Hq as ->.
      split; [intros _; apply list_elem_of_singleton; done|congruence].
    - exists []. split; [done|]. intros c Hc'. by apply elem_of_nil in Hc'.
    - exists []. split; [done|]. intros c Hc'. by apply elem_of_nil in Hc'. }
  destruct (gemini fid p prompt) as [|error] eqn:Hg; cycle 1.
  { eexists _, _. split; [by eapply process_page_failed|].
    constructor; simpl.
    - by constructor.
    - done.
    - exists st. split_and!; [done..|]. intros q. rewrite list_elem_of_singleton.
      split; [tauto|]. intros [|[-> [_ Hg']]]; [done|congruence].
    - eexists [_; _]. split_and!; [done|by repeat constructor|].
      intros q Hq _. apply list_elem_of_singleton in Hq as ->.
      split; [congruence|]. intros e _ He.
      assert (e = error) as -> by congruence. apply elem_of_cons. by left.
    - eexists [_]. split; [done|]. intros c Hc'.
      apply list_elem_of_singleton in Hc' as ->. exists p.
      split_and!; [done| |done]. by apply list_elem_of_singleton.
    - exists []. split; [done|]. intros c Hc'. by apply elem_of_nil in Hc'. }
  eexists _, _. split; [by eapply process_page_colorized|].
  unfold StateManager.mark_page_complete.
  erewrite mutate_Some by (simpl; exact Hst).
  constructor; simpl.
  - by constructor.
  - intros fid' Hne. by rewrite lookup_insert_ne.
  - eexists. split_and!; [apply lookup_insert_eq|apply skeleton_page_marked|].
    intros q. unfold StateManager.page_marked. simpl.
    rewrite elem_of_append_sorted, list_elem_of_singleton.
    split; [|intros [|[-> _]]; tauto].
    intros [->|]; [right|by left]. done.
  - eexists [_; _]. split_and!; [done|by repeat constructor|].
    intros q Hq _. apply list_elem_of_singleton in Hq as ->.
    split; congruence.
  - eexists [_]. split; [done|]. intros c Hc'.
    apply list_elem_of_singleton in Hc' as ->. exists p.
    split_and!; [done| |done]. by apply list_elem_of_singleton.
  - eexists [_]. split; [done|]. intros s Hs.
    apply list_elem_of_singleton in Hs as ->. apply skeleton_page_marked.
Qed.

Lemma page_loop_quiet tid fid prompt bn tp pages :
  ∀ state st w,
    states w !! fid = Some st →
    fid ∉ stop_signals w →
    tid ∉ cancelled w →
    tp ≠ 0 →
    ∃ w', page_loop gemini quiet tid fid prompt bn tp state pages w = Ok true w'
          ∧ page_loop_post gemini fid prompt pages st w w'.
Proof.
  induction pages as [|p pages IH]; intros state st w Hst Hstop Hc Htp.
  { exists w. split; [done|]. by apply page_loop_post_nil. }
  destruct (process_page_quiet tid fid prompt bn tp state p w st Hst Hstop Hc Htp)
    as (state' & w1 & Hstep & Hpost1).
  pose proof (pl_engine _ _ _ _ _ _ _ Hpost1) as Hse.
  destruct (pl_state _ _ _ _ _ _ _ Hpost1) as (st1 & Hst1 & _ & _).
  destruct (IH state' st1 w1 Hst1) as (w' & Hloop & Hpost2); [| |done|].
  { by rewrite (se_stop_signals _ _ Hse). }
  { by rewrite (se_cancelled _ _ Hse). }
  exists w'. split.
  - simpl. unfold_monad. rewrite Hstep. exact Hloop.
  - change (p :: pages) with ([p] ++ pages). by eapply page_loop_post_app.
Qed.

End PageLoop.

(** ** One batch *)

Section BatchStep.
Context (gemini : Gemini).
Import ProcessingState.

Lemma skeleton_eq_fields st st' :
  skeleton st' = skeleton st →
  status st' = status st ∧ current_batch st' = current_batch st
  ∧ total_batches st' = total_batches st ∧ total_pages st' = total_pages st
  ∧ current_prompt st' = current_prompt st.
Proof. intros H. unfold skeleton in H. by injection H. Qed.

Lemma completed_pages_advanced st :
  completed_pages (StateManager.advanced st) = completed_pages st.
Proof. unfold StateManager.advanced. by case_decide. Qed.

Lemma process_batch_number_quiet tid fid state n w st bi :
  states w !! fid = Some st →
  fid ∉ stop_signals w →
  tid ∉ cancelled w →
  total_pages st ≠ 0 →
  StateManager.find_batch n (batches st) = Some bi →
  BatchInfo.status bi ≠ BatchStatus.COMPLETED →
  ∃ flow w',
    process_batch_number gemini quiet tid fid state n w = Ok flow w'
    ∧ batch_post gemini fid n bi st w w' flow.
Proof.
  intros Hst Hstop Hc Htp Hfind Hnc.
  unfold process_batch_number, stop_requested. unfold_monad.
  rewrite bool_decide_eq_false_2 by done.
  rewrite (deref_Some _ _ _ _ Hst). rewrite Hfind.
  destruct (decide (BatchInfo.status bi = BatchStatus.COMPLETED)); [done|].
  rewrite !(deref_Some _ _ _ _ Hst).
  set (prompt := current_prompt st).
  set (st1 := StateManager.batch_status_set n BatchStatus.PROCESSING (Some prompt) st).
  unfold StateManager.update_batch_status at 1 2.
  rewrite (mutate_Some _ _ _ _ Hst). fold st1.
  set (w1 := set_saved _ _).
  assert (states w1 !! fid = Some st1) as Hst1 by apply lookup_insert_eq.
  rewrite (deref_Some _ _ _ _ Hst1).
  unfold _process_batch. unfold_monad. unfold StateManager.get_state. rewrite Hst1.
  destruct (page_loop_quiet gemini tid fid (current_prompt st1) n (total_pages st1)
              (batch_range bi) st1 st1 w1 Hst1) as (w2 & Hloop & Hpost); [done..|].
  fold (batch_range bi). rewrite Hloop. cbn [negb]. cbv beta iota.
  destruct Hpost as [Hse Hoth (st2 & Hst2 & Hsk2 & Hpages) (evs & Hev & Hpm & Hfail)
                       (cs & Hcs & Hcalls) (ss & Hss & Hsaved)].
  unfold StateManager.update_batch_status.
  rewrite (mutate_Some _ _ _ _ Hst2).
  set (st3 := StateManager.batch_status_set n BatchStatus.COMPLETED None st2).
  assert (tid ∉ cancelled w2) as Hc2 by (rewrite (se_cancelled _ _ Hse); done).
  rewrite send_quiet by done.
  set (w4 := emit _ _).
  assert (states w4 !! fid = Some st3) as Hst4 by apply lookup_insert_eq.
  rewrite (deref_Some _ _ _ _ Hst4).
  destruct (skeleton_eq_fields _ _ Hsk2) as (Hstatus2 & Hcb2 & Htb2 & Htp2 & Hpr2).
  assert (skeleton st3 =
          StateManager.batch_status_set n BatchStatus.COMPLETED None
            (StateManager.batch_status_set n BatchStatus.PROCESSING (Some prompt)
               (skeleton st))) as Hsk3.
  { unfold st3. rewrite skeleton_batch_status_set, Hsk2. unfold st1.
    by rewrite skeleton_batch_status_set. }
  assert (∀ p, p ∈ completed_pages st3 ↔
               p ∈ completed_pages st
               ∨ (p ∈ batch_range bi ∧ colorizable gemini fid (current_prompt st) w p))
    as Hpages3 by exact Hpages.
  assert (∀ s, s ∈ st3 :: ss ++ [st1] → status s = status st) as Hsaved3.
  { intros s Hs. apply elem_of_cons in Hs as [->|Hs]; [exact Hstatus2|].
    apply elem_of_app in Hs as [Hs|Hs].
    - by destruct (skeleton_eq_fields _ _ (Hsaved s Hs)) as (-> & _).
    - by apply list_elem_of_singleton in Hs as ->. }
  assert (same_engine w w4) as Hse4.
  { eapply same_engine_trans; [|eapply same_engine_trans; [exact Hse|]];
      by constructor. }
  assert (∀ fid', fid' ≠ fid → states w4 !! fid' = states w !! fid') as Hoth4.
  { intros fid' Hne. unfold w4. simpl. rewrite lookup_insert_ne by done.
    rewrite Hoth by done. unfold w1. simpl. by rewrite lookup_insert_ne. }
  assert (tid ∉ cancelled w4) as Hc4 by (rewrite (se_cancelled _ _ Hse4); done).
  assert (events w4 = (MsgBatchComplete fid n (BatchInfo.start_page bi)
                         (BatchInfo.end_page bi) :: evs) ++ events w) as Hev4.
  { unfold w4. simpl. by rewrite Hev. }
  assert (saved w4 = (st3 :: ss ++ [st1]) ++ saved w) as Hss4.
  { unfold w4. simpl. rewrite Hss. unfold w1. simpl. by rewrite <- !app_assoc. }
  assert (Forall (fun m => paused_message m = false) evs) as Hnp.
  { eapply Forall_impl; [exact Hpm|]. intros m Hm. by destruct m as [| | | |? ? []]. }
  assert (total_batches st3 = total_batches st) as Htb3 by exact Htb2.
  assert (calls w4 = cs ++ calls w) as Hcs4 by exact Hcs.
  clearbody w4 st3. clear Hloop.
  destruct (decide (n >= total_batches st3)) as [Hlast|Hmore].
  { unfold StateManager.update_status. rewrite (mutate_Some _ _ _ _ Hst4).
    rewrite send_quiet by done.
    eexists _, _. split; [done|]. constructor; simpl.
    - eapply same_engine_trans; [exact Hse4|]. by constructor.
    - intros fid' Hne. rewrite lookup_insert_ne by done. by apply Hoth4.
    - eexists. split_and!; [apply lookup_insert_eq| |exact Hpages3|].
      + rewrite skeleton_with_status, Hsk3. unfold control_step.
        rewrite decide_True by lia.
        by rewrite skeleton_with_status, !skeleton_batch_status_set.
      + by rewrite decide_True by lia.
    - eexists (_ :: _ :: _). split_and!.
      + by rewrite Hev4.
      + intros p Hp Hpc. destruct (Hfail p Hp Hpc) as [H1 H2].
        split; [intros Hi|intros e Hi He]; do 2 (apply elem_of_cons; right).
        * by apply H1. * by apply (H2 e).
      + intros _. apply Forall_cons; split; [done|]. by apply Forall_cons.
    - exists cs. split; [done|]. exact Hcalls.
    - eexists (_ :: _). split; [by rewrite Hss4|].
      intros s Hs. apply elem_of_cons in Hs as [->|Hs].
      + right; left. simpl in *. split; [done|lia].
      + left. by apply Hsaved3. }
  unfold StateManager.advance_batch. rewrite (mutate_Some _ _ _ _ Hst4).
  set (st5 := StateManager.advanced st3).
  set (w5 := set_saved _ _).
  assert (states w5 !! fid = Some st5) as Hst5 by apply lookup_insert_eq.
  change (auto_run w5) with (auto_run w4). rewrite (se_auto_run _ _ Hse4).
  destruct (decide (fid ∉ auto_run w)) as [Hmanual|Hauto].
  { unfold StateManager.update_status. rewrite (mutate_Some _ _ _ _ Hst5).
    rewrite send_quiet by done.
    eexists _, _. split; [done|]. constructor; simpl.
    - eapply same_engine_trans; [exact Hse4|]. by constructor.
    - intros fid' Hne. rewrite !lookup_insert_ne by done. by apply Hoth4.
    - eexists. split_and!; [apply lookup_insert_eq| | |].
      2:{ intros p. simpl. unfold st5. rewrite completed_pages_advanced. apply Hpages3. }
      + rewrite skeleton_with_status. unfold st5. rewrite skeleton_advanced, Hsk3.
        unfold control_step.
        rewrite decide_False by lia.
        rewrite bool_decide_eq_false_2 by done.
        by rewrite skeleton_with_status, skeleton_advanced, !skeleton_batch_status_set.
      + rewrite decide_False by lia.
        by rewrite bool_decide_eq_false_2 by done.
    - eexists (_ :: _ :: _). split_and!.
      + by rewrite Hev4.
      + intros p Hp Hpc. destruct (Hfail p Hp Hpc) as [H1 H2].
        split; [intros Hi|intros e Hi He]; do 2 (apply elem_of_cons; right).
        * by apply H1. * by apply (H2 e).
      + done.
    - exists cs. split; [done|]. exact Hcalls.
    - eexists (_ :: _ :: _). split; [by rewrite Hss4|].
      intros s Hs. apply elem_of_cons in Hs as [->|Hs]; [by right; right|].
      apply elem_of_cons in Hs as [->|Hs].
      + left. unfold st5, StateManager.advanced. case_decide; apply (Hsaved3 st3); by left.
      + left. by apply Hsaved3. }
  rewrite Hst5.
  eexists _, _. split; [done|]. constructor; simpl.
  - eapply same_engine_trans; [exact Hse4|]. by constructor.
  - intros fid' Hne. rewrite !lookup_insert_ne by done. by apply Hoth4.
  - eexists. split_and!; [apply lookup_insert_eq| | |].
    2:{ intros p. unfold st5. rewrite completed_pages_advanced. apply Hpages3. }
    + unfold st5. rewrite skeleton_advanced, Hsk3.
      unfold control_step.
      rewrite decide_False by lia.
      rewrite bool_decide_eq_true_2 by (by apply dec_stable).
      by rewrite skeleton_advanced, !skeleton_batch_status_set.
    + rewrite decide_False by lia.
      by rewrite bool_decide_eq_true_2 by (by apply dec_stable).
  - eexists (_ :: _). split_and!.
    + by rewrite Hev4.
    + intros p Hp Hpc. destruct (Hfail p Hp Hpc) as [H1 H2].
      split; [intros Hi|intros e Hi He]; apply elem_of_cons; right.
      * by apply H1. * by apply (H2 e).
    + intros _. by apply Forall_cons.
  - exists cs. split; [done|]. exact Hcalls.
  - eexists (_ :: _). split; [by rewrite Hss4|].
    intros s Hs. apply elem_of_cons in Hs as [->|Hs].
    + left. unfold st5, StateManager.advanced. case_decide; apply (Hsaved3 st3); by left.
    + left. by apply Hsaved3.
Qed.

(** ** Looking batches up *)

Lemma find_batch_update_first_eq n f bs :
  (∀ b, BatchInfo.batch_number (f b) = BatchInfo.batch_number b) →
  StateManager.find_batch n (update_first (StateManager.has_number n) f bs) =
  f <$> StateManager.find_batch n bs.
Proof.
  intros Hf. unfold StateManager.find_batch.
  induction bs as [|b bs IH]; [done|]. simpl.
  destruct (StateManager.has_number n b) eqn:Hb; simpl.
  - unfold StateManager.has_number in *. by rewrite Hf, Hb.
  - by rewrite Hb.
Qed.

Lemma find_batch_update_first_ne n m f bs :
  n ≠ m →
  (∀ b, BatchInfo.batch_number (f b) = BatchInfo.batch_number b) →
  StateManager.find_batch m (update_first (StateManager.has_number n) f bs) =
  StateManager.find_batch m bs.
Proof.
  intros Hne Hf. unfold StateManager.find_batch.
  induction bs as [|b bs IH]; [done|]. simpl.
  destruct (StateManager.has_number n b) eqn:Hb; simpl.
  - unfold StateManager.has_number in *. rewrite Hf.
    apply bool_decide_eq_true in Hb.
    by rewrite !bool_decide_eq_false_2 by congruence.
  - by rewrite IH.
Qed.

Lemma find_batch_fmap n g bs :
  (∀ b, BatchInfo.batch_number (g b) = BatchInfo.batch_number b) →
  StateManager.find_batch n (g <$> bs) = g <$> StateManager.find_batch n bs.
Proof.
  intros Hg. unfold StateManager.find_batch.
  induction bs as [|b bs IH]; [done|]. simpl.
  unfold StateManager.has_number at 1 3. rewrite Hg.
  by destruct (bool_decide _).
Qed.

Lemma batch_status_of_skeleton n st :
  batch_status_of n (skeleton st) = batch_status_of n st.
Proof.
  unfold batch_status_of, skeleton. simpl. rewrite find_batch_fmap by done.
  by destruct (StateManager.find_batch n (batches st)).
Qed.

Lemma batch_status_of_skeleton_eq n st st' :
  skeleton st' = skeleton st → batch_status_of n st' = batch_status_of n st.
Proof.
  intros H. by rewrite <- (batch_status_of_skeleton n st'), H, batch_status_of_skeleton.
Qed.

Lemma batch_status_of_set_eq n s p st :
  batch_status_of n (StateManager.batch_status_set n s p st) =
  (fun _ => s) <$> batch_status_of n st.
Proof.
  unfold batch_status_of, StateManager.batch_status_set. simpl.
  rewrite find_batch_update_first_eq by done.
  by destruct (StateManager.find_batch n (batches st)).
Qed.

Lemma batch_status_of_set_ne n m s p st :
  n ≠ m →
  batch_status_of m (StateManager.batch_status_set n s p st) = batch_status_of m st.
Proof.
  intros Hne. unfold batch_status_of, StateManager.batch_status_set. simpl.
  by rewrite find_batch_update_first_ne.
Qed.

Lemma batches_advanced st : batches (StateManager.advanced st) = batches st.
Proof. unfold StateManager.advanced. by case_decide. Qed.

Lemma batch_status_of_control_step_ne n m auto st :
  n ≠ m → batch_status_of m (control_step n auto st) = batch_status_of m st.
Proof.
  intros Hne. unfold control_step.
  assert (∀ st', batch_status_of m (StateManager.advanced st') = batch_status_of m st')
    as Hadv by (intros st'; unfold batch_status_of; by rewrite batches_advanced).
  assert (∀ s e st', batch_status_of m (StateManager.with_status s e st') =
                     batch_status_of m st') as Hws by done.
  cbv zeta. repeat case_match; rewrite ?Hws, ?Hadv, !batch_status_of_set_ne; done.
Qed.

Lemma batch_status_of_control_step_eq n auto st :
  batch_status_of n (control_step n auto st) =
  (fun _ => BatchStatus.COMPLETED) <$> batch_status_of n st.
Proof.
  unfold control_step.
  assert (∀ st', batch_status_of n (StateManager.advanced st') = batch_status_of n st')
    as Hadv by (intros st'; unfold batch_status_of; by rewrite batches_advanced).
  assert (∀ s e st', batch_status_of n (StateManager.with_status s e st') =
                     batch_status_of n st') as Hws by done.
  cbv zeta. repeat case_match; rewrite ?Hws, ?Hadv, !batch_status_of_set_eq;
    by destruct (batch_status_of n st).
Qed.

Lemma control_step_fields n auto st :
  total_batches (control_step n auto st) = total_batches st
  ∧ total_pages (control_step n auto st) = total_pages st
  ∧ current_prompt (control_step n auto st) = current_prompt st
  ∧ completed_pages (control_step n auto st) = completed_pages st.
Proof.
  unfold control_step, StateManager.advanced. simpl.
  repeat case_match; done.
Qed.

Lemma control_step_status n auto st :
  status (control_step n auto st) =
  if decide (n >= total_batches st) then ProcessingStatus.COMPLETED
  else if auto then status st else ProcessingStatus.PAUSED.
Proof.
  unfold control_step, StateManager.advanced. simpl.
  repeat case_match; done.
Qed.

Lemma control_step_current_batch n auto st :
  n < total_batches st →
  current_batch (control_step n auto st) =
  if decide (current_batch st < total_batches st) then current_batch st + 1
  else current_batch st.
Proof.
  intros Hn. unfold control_step, StateManager.advanced. simpl.
  repeat case_match; try done; lia.
Qed.

End BatchStep.

(** ** The batch loop *)

Section BatchLoop.
Context (gemini : Gemini).
Import ProcessingState.

Lemma workable_true st n :
  workable st n = true →
  ∃ bi, StateManager.find_batch n (batches st) = Some bi
        ∧ BatchInfo.status bi ≠ BatchStatus.COMPLETED.
Proof.
  unfold workable. destruct (StateManager.find_batch n (batches st)) as [bi|]; [|done].
  intros H%bool_decide_eq_true. by exists bi.
Qed.

Lemma workable_false st n :
  workable st n = false →
  batch_status_of n st = None ∨ batch_status_of n st = Some BatchStatus.COMPLETED.
Proof.
  unfold workable, batch_status_of.
  destruct (StateManager.find_batch n (batches st)) as [bi|]; [|by left].
  intros H%bool_decide_eq_false. right. simpl. f_equal. by apply dec_stable.
Qed.

(** Under any schedule: nothing is awaited before a batch is passed over. *)
Lemma process_batch_number_skip env tid fid state n w st :
  states w !! fid = Some st →
  fid ∉ stop_signals w →
  workable st n = false →
  process_batch_number gemini env tid fid state n w = Ok (NextBatch state) w.
Proof.
  intros Hst Hstop Hw. unfold process_batch_number, stop_requested. unfold_monad.
  rewrite bool_decide_eq_false_2 by done.
  rewrite (deref_Some _ _ _ _ Hst). unfold workable in Hw.
  destruct (StateManager.find_batch n (batches st)) as [bi|]; [|done].
  apply bool_decide_eq_false in Hw.
  destruct (decide (BatchInfo.status bi = BatchStatus.COMPLETED)); [done|].
  by destruct Hw.
Qed.

Lemma run_post_refl fid a len st w :
  len ≤ 0 → states w !! fid = Some st → run_post gemini fid a len st w w true.
Proof.
  intros Hlen Hst. constructor.
  - apply same_engine_refl.
  - done.
  - exists st. split_and!; try done; [by left|]. intros _. split; [lia|done].
  - exists []. split; [done|]. by constructor.
  - exists []. split; [done|]. intros c Hc. by apply elem_of_nil in Hc.
  - exists []. split; [done|]. intros _ c Hc. by apply elem_of_nil in Hc.
Qed.

Lemma batch_post_state_facts fid n bi st w w' flow st' :
  batch_post gemini fid n bi st w w' flow →
  states w' !! fid = Some st' →
  StateManager.find_batch n (batches st) = Some bi →
  total_batches st' = total_batches st
  ∧ total_pages st' = total_pages st
  ∧ current_prompt st' = current_prompt st
  ∧ status st' = status (control_step n (bool_decide (fid ∈ auto_run w)) st)
  ∧ current_batch st' = current_batch (control_step n (bool_decide (fid ∈ auto_run w)) st)
  ∧ batch_status_of n st' = Some BatchStatus.COMPLETED
  ∧ (∀ m, m ≠ n → batch_status_of m st' = batch_status_of m st).
Proof.
  intros [_ _ (st'' & Hst'' & Hsk & _) _ _ _] Hst' Hfind.
  assert (st'' = st') as -> by congruence.
  set (auto := bool_decide _) in *.
  destruct (skeleton_eq_fields _ _ Hsk) as (Hs & Hcb & Htb & Htp & Hpr).
  destruct (control_step_fields n auto st) as (Htb' & Htp' & Hpr' & _).
  simpl in *.
  split_and!; try congruence.
  - rewrite (batch_status_of_skeleton_eq _ _ _ Hsk), batch_status_of_control_step_eq.
    unfold batch_status_of. by rewrite Hfind.
  - intros m Hm.
    by rewrite (batch_status_of_skeleton_eq _ _ _ Hsk), batch_status_of_control_step_ne.
Qed.

Lemma batch_post_run fid n bi st w w' flow :
  batch_post gemini fid n bi st w w' flow →
  StateManager.find_batch n (batches st) = Some bi →
  run_post gemini fid n 1 st w w'
    (match flow with NextBatch _ => true | ReturnFromFile => false end).
Proof.
  intros Hpost Hfind.
  destruct (bp_state _ _ _ _ _ _ _ _ Hpost) as (st' & Hst' & Hsk & Hpages & Hflow).
  destruct (batch_post_state_facts _ _ _ _ _ _ _ _ Hpost Hst' Hfind)
    as (Htb & Htp & Hpr & Hs & _ & Hdone & Hother).
  destruct Hpost as [Hse Hoth _ (evs & Hev & _ & Hnp) (cs & Hcs & Hcalls)
                      (ss & Hss & Hsaved)].
  constructor; [done|done| | | |].
  - exists st'. split_and!; try done.
    + intros p Hp. apply Hpages. by left.
    + intros p Hp. apply Hpages in Hp. tauto.
    + intros m Hm. apply Hother. lia.
    + intros Hauto. split.
      * intros m Hm. assert (m = n) as -> by lia. by right.
      * rewrite Hs, control_step_status, Hflow.
        rewrite bool_decide_eq_true_2 by done. by case_decide.
  - exists evs. done.
  - exists cs. split; [done|]. intros c Hc. destruct (Hcalls c Hc) as (p & ? & ? & ?).
    by exists p.
  - exists ss. split; [done|]. intros Hauto s Hs'.
    destruct (Hsaved s Hs') as [?|[[? _]|[_ ?]]]; [by left|by right|done].
Qed.

Lemma run_post_skip fid a len st w w' fin :
  workable st a = false →
  0 ≤ len →
  run_post gemini fid (a + 1) len st w w' fin →
  run_post gemini fid a (len + 1) st w w' fin.
Proof.
  intros Hw Hlen [Hse Hoth (st' & Hst' & Htb & Htp & Hpr & Hmono & Hcol & Hframe & Hauto)
                    Hev Hcs Hss].
  constructor; try done.
  exists st'. split_and!; try done.
  - intros n Hn. apply Hframe. lia.
  - intros Ha. destruct (Hauto Ha) as [Hall Hs]. split; [|done].
    intros n Hn. destruct (decide (n = a)) as [->|Hne].
    + rewrite Hframe by lia. by apply workable_false.
    + apply Hall. lia.
Qed.

Lemma run_post_widen fid a len st w w' :
  1 ≤ len →
  (fid ∈ auto_run w → len = 1) →
  run_post gemini fid a 1 st w w' false →
  run_post gemini fid a len st w w' false.
Proof.
  intros Hlen Hone [Hse Hoth (st' & Hst' & Htb & Htp & Hpr & Hmono & Hcol & Hframe & Hauto)
                     Hev Hcs Hss].
  constructor; try done.
  exists st'. split_and!; try done.
  - intros n Hn. apply Hframe. lia.
  - intros Ha. destruct (Hauto Ha) as [Hall Hs]. split; [|done].
    intros n Hn. apply Hall. specialize (Hone Ha). lia.
Qed.

Lemma run_post_trans fid a len st st1 w w1 w' fin :
  0 ≤ len →
  run_post gemini fid a 1 st w w1 true →
  states w1 !! fid = Some st1 →
  run_post gemini fid (a + 1) len st1 w1 w' fin →
  run_post gemini fid a (len + 1) st w w' fin.
Proof.
  intros Hlen
    [Hse1 Hoth1 (st1' & Hst1 & Htb1 & Htp1 & Hpr1 & Hmono1 & Hcol1 & Hframe1 & Hauto1)
       (evs1 & Hev1 & Hnp1) (cs1 & Hcs1 & Hcalls1) (ss1 & Hss1 & Hsaved1)] Hw1
    [Hse2 Hoth2 (st' & Hst' & Htb2 & Htp2 & Hpr2 & Hmono2 & Hcol2 & Hframe2 & Hauto2)
       (evs2 & Hev2 & Hnp2) (cs2 & Hcs2 & Hcalls2) (ss2 & Hss2 & Hsaved2)].
  assert (st1' = st1) as -> by congruence.
  assert (auto_run w1 = auto_run w) as Hau by apply (se_auto_run _ _ Hse1).
  rewrite Hau in *.
  constructor.
  - by eapply same_engine_trans.
  - intros fid' Hne. by rewrite Hoth2, Hoth1.
  - exists st'. split_and!; try congruence.
    + intros p Hp. by apply Hmono2, Hmono1.
    + intros p Hp. destruct (Hcol2 p Hp) as [Hp1|Hp1]; [by apply Hcol1|].
      right. unfold colorizable in *.
      by rewrite <- (same_engine_image fid p _ _ Hse1), <- Hpr1.
    + intros n Hn. rewrite Hframe2 by lia. apply Hframe1. lia.
    + intros Ha. destruct (Hauto1 Ha) as [Hall1 Hs1]. destruct (Hauto2 Ha) as [Hall2 Hs2].
      split.
      * intros n Hn. destruct (decide (n = a)) as [->|Hne].
        -- rewrite Hframe2 by lia. apply Hall1. lia.
        -- apply Hall2. lia.
      * rewrite Hs2. destruct fin; [done|done].
  - exists (evs2 ++ evs1). split.
    + by rewrite Hev2, Hev1, app_assoc.
    + intros Ha. apply Forall_app. split; auto.
  - exists (cs2 ++ cs1). split.
    + by rewrite Hcs2, Hcs1, app_assoc.
    + intros c Hc. apply elem_of_app in Hc as [Hc|Hc].
      * destruct (Hcalls2 c Hc) as (p & -> & Hp). exists p. split; [by rewrite Hpr1|].
        intros Hin. by apply Hp, Hmono1.
      * by apply Hcalls1.
  - exists (ss2 ++ ss1). split.
    + by rewrite Hss2, Hss1, app_assoc.
    + intros Ha s Hs. apply elem_of_app in Hs as [Hs|Hs].
      * destruct (Hauto1 Ha) as [_ Hs1]. rewrite <- Hs1. by apply Hsaved2.
      * by apply Hsaved1.
Qed.

Lemma batch_loop_quiet tid fid :
  ∀ (k : nat) a len state st w,
    Z.to_nat len = k →
    states w !! fid = Some st →
    fid ∉ stop_signals w →
    tid ∉ cancelled w →
    total_pages st ≠ 0 →
    a + len ≤ total_batches st + 1 →
    ∃ fin w',
      batch_loop gemini quiet tid fid state (seqZ a len) w = Ok fin w'
      ∧ run_post gemini fid a len st w w' fin.
Proof.
  induction k as [|k IH]; intros a len state st w Hk Hst Hstop Hc Htp Hlen.
  { exists true, w. rewrite seqZ_nil by lia. split; [done|].
    apply run_post_refl; [lia|done]. }
  rewrite seqZ_cons by lia. simpl. unfold_monad.
  replace (Z.succ a) with (a + 1) by lia.
  assert (len = Z.pred len + 1) as Hl by lia.
  destruct (workable st a) eqn:Hw.
  - apply workable_true in Hw as (bi & Hfind & Hnc).
    destruct (process_batch_number_quiet gemini tid fid state a w st bi
                Hst Hstop Hc Htp Hfind Hnc) as (flow & w1 & Hstep & Hpost).
    rewrite Hstep. cbv beta iota.
    pose proof (batch_post_run _ _ _ _ _ _ _ Hpost Hfind) as Hrun.
    destruct (bp_state _ _ _ _ _ _ _ _ Hpost) as (st1 & Hst1 & _ & _ & Hflow).
    destruct (batch_post_state_facts _ _ _ _ _ _ _ _ Hpost Hst1 Hfind)
      as (Htb & Htp1 & _).
    pose proof (bp_engine _ _ _ _ _ _ _ _ Hpost) as Hse.
    destruct flow as [state1|].
    + destruct (IH (a + 1) (Z.pred len) state1 st1 w1) as (fin & w' & Hloop & Hpost2);
        [lia|done| | |congruence|lia|].
      { by rewrite (se_stop_signals _ _ Hse). }
      { by rewrite (se_cancelled _ _ Hse). }
      exists fin, w'. split; [done|]. rewrite Hl.
      eapply run_post_trans; [lia|exact Hrun|exact Hst1|exact Hpost2].
    + exists false, w1. split; [done|].
      apply run_post_widen; [lia| |exact Hrun].
      intros Ha. rewrite bool_decide_eq_true_2 in Hflow by done.
      destruct (decide (a >= total_batches st)); [lia|done].
  - rewrite (process_batch_number_skip quiet tid fid state a w st) by done.
    cbv beta iota.
    destruct (IH (a + 1) (Z.pred len) state st w) as (fin & w' & Hloop & Hpost2);
      [lia|done..|lia|].
    exists fin, w'. split; [done|]. rewrite Hl.
    apply run_post_skip; [done|lia|done].
Qed.

End BatchLoop.

(** ** The whole unit of work *)

Section UnitRun.
Context (gemini : Gemini).
Import ProcessingState.

Lemma process_file_quiet tid fid w st :
  states w !! fid = Some st →
  fid ∉ stop_signals w →
  tid ∉ cancelled w →
  total_pages st ≠ 0 →
  ∃ fin w2,
    run_post gemini fid (current_batch st) (total_batches st + 1 - current_batch st)
      st w w2 fin
    ∧ _process_file gemini quiet tid fid w = after_loop fid fin w2.
Proof.
  intros Hst Hstop Hc Htp.
  destruct (batch_loop_quiet gemini tid fid
              (Z.to_nat (total_batches st + 1 - current_batch st))
              (current_batch st) (total_batches st + 1 - current_batch st)
              st st w eq_refl Hst Hstop Hc Htp ltac:(lia)) as (fin & w2 & Hloop & Hpost).
  exists fin, w2. split; [done|].
  unfold _process_file, process_file_body. unfold_monad.
  unfold StateManager.get_state. rewrite Hst. unfold batch_numbers. rewrite Hloop.
  unfold after_loop. destruct fin; [|done].
  rewrite send_quiet; [done|].
  pose proof (rp_engine _ _ _ _ _ _ _ _ Hpost) as Hse.
  destruct (same_engine_mutate fid (StateManager.with_status ProcessingStatus.COMPLETED None) w2)
    as [_ _ _ _ _ Hcan _ _ _].
  unfold StateManager.update_status. rewrite Hcan. by rewrite (se_cancelled _ _ Hse).
Qed.

(** The loop up to and including the first batch it stops at. *)
Lemma batch_loop_first env tid fid st w b :
  states w !! fid = Some st →
  fid ∉ stop_signals w →
  ∀ (k : nat) a len state,
    Z.to_nat len = k →
    List.find (workable st) (seqZ a len) = Some b →
    a ≤ b < a + len
    ∧ batch_loop gemini env tid fid state (seqZ a len) w =
      match process_batch_number gemini env tid fid state b w with
      | Ok ReturnFromFile w1 => Ok false w1
      | Ok (NextBatch state1) w1 =>
          batch_loop gemini env tid fid state1 (seqZ (b + 1) (a + len - b - 1)) w1
      | Raise e w1 => Raise e w1
      end.
Proof.
  intros Hst Hstop. induction k as [|k IH]; intros a len state Hk Hfind.
  { rewrite seqZ_nil in Hfind by lia. done. }
  rewrite seqZ_cons in Hfind |- * by lia. simpl in Hfind. simpl. unfold_monad.
  destruct (workable st a) eqn:Hw.
  - injection Hfind as <-. split; [lia|].
    replace (Z.succ a) with (a + 1) by lia.
    replace (a + len - a - 1) with (Z.pred len) by lia.
    by destruct (process_batch_number gemini env tid fid state a w) as [[]|].
  - rewrite (process_batch_number_skip gemini env tid fid state a w st) by done.
    cbv beta iota.
    destruct (IH (Z.succ a) (Z.pred len) state ltac:(lia) Hfind) as [Hb ->].
    split; [lia|].
    by replace (Z.succ a + Z.pred len - b - 1) with (a + len - b - 1) by lia.
Qed.

(** The unit of work from its first batch on: either it returns after
    that batch, or it goes through the remaining numbers. *)
Lemma process_file_first tid fid w st b bi :
  states w !! fid = Some st →
  fid ∉ stop_signals w →
  tid ∉ cancelled w →
  total_pages st ≠ 0 →
  next_batch st = Some b →
  StateManager.find_batch b (batches st) = Some bi →
  ∃ flow w1,
    batch_post gemini fid b bi st w w1 flow
    ∧ current_batch st ≤ b ≤ total_batches st
    ∧ match flow with
      | ReturnFromFile => _process_file gemini quiet tid fid w = w1
      | NextBatch _ =>
          ∃ st1 fin w2,
            states w1 !! fid = Some st1
            ∧ run_post gemini fid (b + 1) (total_batches st - b) st1 w1 w2 fin
            ∧ _process_file gemini quiet tid fid w = after_loop fid fin w2
      end.
Proof.
  intros Hst Hstop Hc Htp Hnext Hfind.
  unfold next_batch, batch_numbers in Hnext.
  destruct (batch_loop_first quiet tid fid st w b Hst Hstop _ _ _ st eq_refl Hnext)
    as [Hb Hloop].
  apply find_some in Hnext as [_ Hw].
  apply workable_true in Hw as (bi' & Hfind' & Hnc).
  assert (bi' = bi) as -> by congruence.
  destruct (process_batch_number_quiet gemini tid fid st b w st bi
              Hst Hstop Hc Htp Hfind Hnc) as (flow & w1 & Hstep & Hpost).
  rewrite Hstep in Hloop.
  exists flow, w1. split; [done|]. split; [lia|].
  pose proof (bp_engine _ _ _ _ _ _ _ _ Hpost) as Hse.
  destruct (bp_state _ _ _ _ _ _ _ _ Hpost) as (st1 & Hst1 & _ & _ & Hflow).
  destruct (batch_post_state_facts _ _ _ _ _ _ _ _ _ Hpost Hst1 Hfind)
    as (Htb & Htp1 & _).
  destruct flow as [state1|].
  - assert (tid ∉ cancelled w1) as Hc1 by (by rewrite (se_cancelled _ _ Hse)).
    destruct (batch_loop_quiet gemini tid fid
                (Z.to_nat (total_batches st - b)) (b + 1) (total_batches st - b)
                state1 st1 w1 eq_refl Hst1) as (fin & w2 & Hloop2 & Hpost2);
      [by rewrite (se_stop_signals _ _ Hse)|done|congruence|lia|].
    exists st1, fin, w2. split_and!; [done..|].
    unfold _process_file, process_file_body. unfold_monad.
    unfold StateManager.get_state. rewrite Hst. unfold batch_numbers. rewrite Hloop.
    replace (current_batch st + (total_batches st + 1 - current_batch st) - b - 1)
      with (total_batches st - b) by lia.
    rewrite Hloop2. unfold after_loop. destruct fin; [|done].
    rewrite send_quiet; [done|].
    pose proof (rp_engine _ _ _ _ _ _ _ _ Hpost2) as Hse2.
    destruct (same_engine_mutate fid
                (StateManager.with_status ProcessingStatus.COMPLETED None) w2)
      as [_ _ _ _ _ Hcan _ _ _].
    unfold StateManager.update_status. rewrite Hcan. by rewrite (se_cancelled _ _ Hse2).
  - unfold _process_file, process_file_body. unfold_monad.
    unfold StateManager.get_state. rewrite Hst. unfold batch_numbers. by rewrite Hloop.
Qed.

End UnitRun.

(** * The claims about the unit of work *)

Section UnitClaims.
Context (gemini : Gemini).
Import ProcessingState.

Lemma after_loop_state fid fin w2 st2 :
  states w2 !! fid = Some st2 →
  ∃ st',
    states (after_loop fid fin w2) !! fid = Some st'
    ∧ status st' = (if fin then ProcessingStatus.COMPLETED else status st2)
    ∧ batches st' = batches st2
    ∧ completed_pages st' = completed_pages st2
    ∧ current_batch st' = current_batch st2
    ∧ calls (after_loop fid fin w2) = calls w2
    ∧ (∃ evs, events (after_loop fid fin w2) = evs ++ events w2
              ∧ Forall (fun m => paused_message m = false) evs)
    ∧ (∃ ss, saved (after_loop fid fin w2) = ss ++ saved w2
             ∧ ∀ s, s ∈ ss → status s = ProcessingStatus.COMPLETED).
Proof.
  intros Hst2. unfold after_loop. destruct fin.
  - unfold StateManager.update_status. rewrite (mutate_Some _ _ _ _ Hst2). simpl.
    eexists. split_and!; [apply lookup_insert_eq|done..| |].
    + eexists [_]. split; [done|]. by repeat constructor.
    + eexists [_]. split; [done|]. intros s Hs.
      by apply list_elem_of_singleton in Hs as ->.
  - exists st2. split_and!; try done.
    + exists []. split; [done|]. constructor.
    + exists []. split; [done|]. intros s Hs. by apply elem_of_nil in Hs.
Qed.

(** C1 (amended). A unit of work that runs undisturbed on a document
    whose state exists, and whose first batch to process is [b], not the
    last one: without the auto-run flag it completes [b], moves
    [current_batch] one up (to [b+1] when [b] was the current batch),
    sets the status to [PAUSED] and returns, no other batch touched and
    no transformation called outside [b]'s pages; with the flag it ends
    with status [COMPLETED], every batch from the current one on
    complete, no "paused" status sent and no snapshot saved with a status
    other than the initial one or [COMPLETED]. *)
Theorem pause_checkpoint_unless_auto_run tid fid w st b bi :
  states w !! fid = Some st →
  fid ∉ stop_signals w →
  tid ∉ cancelled w →
  total_pages st ≠ 0 →
  next_batch st = Some b →
  StateManager.find_batch b (batches st) = Some bi →
  b < total_batches st →
  checkpoint_or_run_through fid b bi st w (_process_file gemini quiet tid fid w).
Proof.
  intros Hst Hstop Hc Htp Hnext Hfind Hb.
  destruct (decide (fid ∈ auto_run w)) as [Hauto|Hmanual].
  - destruct (process_file_quiet gemini tid fid w st Hst Hstop Hc Htp)
      as (fin & w2 & Hrun & ->).
    destruct Hrun as [_ _ (st2 & Hst2 & _ & _ & _ & _ & _ & _ & Hau)
                        (evs & Hev & Hnp) _ (ss & Hss & Hsaved)].
    destruct (Hau Hauto) as [Hall Hs2].
    destruct (after_loop_state fid fin w2 st2 Hst2)
      as (st' & Hst' & Hs' & Hb' & _ & _ & _ & (evs' & Hev' & Hnp') & (ss' & Hss' & Hsaved')).
    exists st'. split; [done|]. split; [done|]. intros _. split_and!.
    + rewrite Hs'. destruct fin; [done|]. by rewrite Hs2.
    + intros n Hn. unfold batch_status_of in *. rewrite Hb'. apply Hall. lia.
    + exists (evs' ++ evs). split; [by rewrite Hev', Hev, app_assoc|].
      apply Forall_app. auto.
    + exists (ss' ++ ss). split; [by rewrite Hss', Hss, app_assoc|].
      intros s Hs. apply elem_of_app in Hs as [Hs|Hs]; [right; by apply Hsaved'|].
      by apply Hsaved.
  - destruct (process_file_first gemini tid fid w st b bi Hst Hstop Hc Htp Hnext Hfind)
      as (flow & w1 & Hpost & Hrange & Hres).
    destruct (bp_state _ _ _ _ _ _ _ _ Hpost) as (st1 & Hst1 & _ & _ & Hflow).
    rewrite decide_False, bool_decide_eq_false_2 in Hflow by (done || lia).
    subst flow. rewrite Hres.
    destruct (batch_post_state_facts _ _ _ _ _ _ _ _ _ Hpost Hst1 Hfind)
      as (_ & _ & _ & Hs & Hcb & Hdone & Hother).
    rewrite bool_decide_eq_false_2 in Hs, Hcb by done.
    rewrite control_step_status in Hs. rewrite decide_False in Hs by lia.
    rewrite control_step_current_batch, decide_True in Hcb by lia.
    exists st1. split; [done|]. split; [|done]. intros _.
    split_and!; try done; [lia|].
    destruct (bp_calls _ _ _ _ _ _ _ _ Hpost) as (cs & Hcs & Hcalls).
    exists cs. split; [done|]. intros c Hc'.
    destruct (Hcalls c Hc') as (p & ? & ? & _). by exists p.
Qed.

(** C7. With nothing interfering and no stop requested, for every batch
    [n] the loop processes: a page of [n] whose source image is missing,
    or whose transformation fails, gets its error message sent and stays
    incomplete; every page of [n] that can be colorized is complete
    afterwards, whatever failed before it; the turn raises nothing, marks
    [n] [COMPLETED] and leaves the status as it was or sets [PAUSED] or
    [COMPLETED] — also when no page of [n] could be colorized. And the
    whole unit of work, whose first batch is [b], ends [PAUSED] or
    [COMPLETED], never [ERROR], with [b] complete. *)
Theorem page_failures_do_not_fail_the_batch tid fid w st :
  states w !! fid = Some st →
  fid ∉ stop_signals w →
  tid ∉ cancelled w →
  total_pages st ≠ 0 →
  (∀ state n bi,
     StateManager.find_batch n (batches st) = Some bi →
     BatchInfo.status bi ≠ BatchStatus.COMPLETED →
     ∃ flow w1,
       process_batch_number gemini quiet tid fid state n w = Ok flow w1
       ∧ batch_survives_failures gemini fid n bi st w w1)
  ∧ (∀ b bi,
       next_batch st = Some b →
       StateManager.find_batch b (batches st) = Some bi →
       failures_are_skipped gemini fid b bi st w (_process_file gemini quiet tid fid w)).
Proof.
  intros Hst Hstop Hc Htp. split.
  { intros state n bi Hfind Hnc.
    destruct (process_batch_number_quiet gemini tid fid state n w st bi
                Hst Hstop Hc Htp Hfind Hnc) as (flow & w1 & Hstep & Hpost).
    exists flow, w1. split; [done|].
    destruct (bp_state _ _ _ _ _ _ _ _ Hpost) as (st1 & Hst1 & _ & Hpages & _).
    destruct (batch_post_state_facts _ _ _ _ _ _ _ _ _ Hpost Hst1 Hfind)
      as (_ & _ & _ & Hs & _ & Hdone & _).
    destruct (bp_events _ _ _ _ _ _ _ _ Hpost) as (evs & Hev & Hfail & _).
    exists st1, evs. split_and!; try done.
    - rewrite Hs, control_step_status. repeat case_match; tauto.
    - intros p Hp Hnew. split.
      + intros Hno. split; [by apply Hfail|]. rewrite Hpages. tauto.
      + intros Hyes. apply Hpages. tauto. }
  intros b bi Hnext Hfind.
  destruct (process_file_first gemini tid fid w st b bi Hst Hstop Hc Htp Hnext Hfind)
    as (flow & w1 & Hpost & Hrange & Hres).
  destruct (bp_state _ _ _ _ _ _ _ _ Hpost) as (st1 & Hst1 & _ & Hpages & Hflow).
  destruct (batch_post_state_facts _ _ _ _ _ _ _ _ _ Hpost Hst1 Hfind)
    as (_ & _ & Hpr & Hs & _ & Hdone & _).
  destruct (bp_events _ _ _ _ _ _ _ _ Hpost) as (evs & Hev & Hfail & _).
  pose proof (bp_engine _ _ _ _ _ _ _ _ Hpost) as Hse.
  rewrite control_step_status in Hs.
  destruct flow as [state1|].
  - destruct Hres as (st1' & fin & w2 & Hst1' & Hrun & ->).
    assert (st1' = st1) as -> by congruence.
    destruct (decide (b >= total_batches st)) as [|Hmore]; [done|].
    destruct (bool_decide (fid ∈ auto_run w)) eqn:Hauto; [|done].
    apply bool_decide_eq_true in Hauto.
    destruct Hrun as [Hse2 _ (st2 & Hst2 & _ & _ & _ & Hmono & Hcol & Hframe & Hau)
                        (evs2 & Hev2 & _) _ _].
    rewrite (se_auto_run _ _ Hse) in Hau. destruct (Hau Hauto) as [_ Hs2].
    destruct (after_loop_state fid fin w2 st2 Hst2)
      as (st' & Hst' & Hs' & Hb' & Hc' & _ & _ & (evs' & Hev' & _) & _).
    exists st', (evs' ++ evs2 ++ evs). split_and!.
    + done.
    + by rewrite Hev', Hev2, Hev, !app_assoc.
    + unfold batch_status_of in *. rewrite Hb'. rewrite Hframe by lia. done.
    + right. rewrite Hs'. destruct fin; [done|]. by rewrite Hs2.
    + intros p Hp Hnew. rewrite Hc'. split.
      * intros Hno. split.
        -- destruct (Hfail p Hp Hnew) as [H1 H2].
           split; [intros Hi|intros e Hi He];
             apply elem_of_app; right; apply elem_of_app; right.
           ++ by apply H1. ++ by apply (H2 e).
        -- intros Hin. apply Hcol in Hin as [Hin|Hin].
           ++ apply Hpages in Hin. tauto.
           ++ apply Hno. unfold colorizable in *.
              by rewrite <- (same_engine_image fid p _ _ Hse), <- Hpr.
      * intros Hyes. apply Hmono, Hpages. tauto.
  - rewrite Hres. exists st1, evs. split_and!; try done.
    + rewrite Hs. destruct (decide (b >= total_batches st)); [by right|].
      destruct (bool_decide (fid ∈ auto_run w)); [done|by left].
    + intros p Hp Hnew. split.
      * intros Hno. split; [by apply Hfail|]. rewrite Hpages. tauto.
      * intros Hyes. apply Hpages. tauto.
Qed.

(** C8. A page that is in the document's [completed_pages] when the page
    loop reaches it is left at once, under any schedule: nothing is
    awaited, sent or saved, no transformation is called, and unless a
    stop was requested the loop goes on to the next page. In an
    undisturbed unit of work no transformation call is made for a page
    that was complete when the unit started. *)
Theorem completed_page_is_not_transformed_again fid w st :
  states w !! fid = Some st →
  (∀ env tid prompt bn tp state p,
     p ∈ completed_pages st →
     ∃ flow,
       process_page gemini env tid fid prompt bn tp state p w = Ok flow w
       ∧ (fid ∉ stop_signals w → flow = NextPage state))
  ∧ (∀ tid,
       fid ∉ stop_signals w → tid ∉ cancelled w → total_pages st ≠ 0 →
       completed_pages_not_redone fid st w (_process_file gemini quiet tid fid w)).
Proof.
  intros Hst. split.
  - intros env tid prompt bn tp state p Hp.
    destruct (decide (fid ∈ stop_signals w)) as [Hstop|Hstop].
    + exists (ReturnFromBatch false). split; [|done].
      unfold process_page, stop_requested. unfold_monad.
      by rewrite bool_decide_eq_true_2.
    + exists (NextPage state). split; [|done]. by eapply process_page_completed.
  - intros tid Hstop Hc Htp.
    destruct (process_file_quiet gemini tid fid w st Hst Hstop Hc Htp)
      as (fin & w2 & Hrun & ->).
    destruct Hrun as [_ _ (st2 & Hst2 & _) _ (cs & Hcs & Hcalls) _].
    destruct (after_loop_state fid fin w2 st2 Hst2) as (_ & _ & _ & _ & _ & _ & Hc2 & _).
    exists cs. by rewrite Hc2.
Qed.

End UnitClaims.

(** * The claims about the control operations *)

Section ControlClaims.
Import ProcessingState.

(** ** Retry *)

Lemma elem_of_list_remove (x y : Z) (l : list Z) :
  NoDup l → x ∈ list_remove y l ↔ x ∈ l ∧ x ≠ y.
Proof.
  induction l as [|z l IH]; intros Hnd; simpl.
  { rewrite elem_of_nil. tauto. }
  apply NoDup_cons in Hnd as [Hz Hnd].
  destruct (decide (y = z)) as [->|Hne].
  - rewrite elem_of_cons. split.
    + intros Hx. split; [by right|]. intros ->. done.
    + intros [[->|Hx] Hxz]; done.
  - rewrite !elem_of_cons, IH by done. split.
    + intros [->|[Hx Hxy]]; [split; [by left|congruence]|]. split; [by right|done].
    + intros [[->|Hx] Hxy]; [by left|by right].
Qed.

Lemma NoDup_list_remove (y : Z) (l : list Z) : NoDup l → NoDup (list_remove y l).
Proof.
  induction l as [|z l IH]; intros Hnd; simpl; [done|].
  apply NoDup_cons in Hnd as [Hz Hnd].
  destruct (decide (y = z)); [done|].
  apply NoDup_cons. split; [|by apply IH].
  rewrite elem_of_list_remove by done. tauto.
Qed.

Lemma elem_of_remove_all (x : Z) (ys l : list Z) :
  NoDup l →
  x ∈ foldl (fun pages page => list_remove page pages) l ys ↔ x ∈ l ∧ x ∉ ys.
Proof.
  revert l. induction ys as [|y ys IH]; intros l Hnd; simpl.
  { rewrite elem_of_nil. tauto. }
  rewrite IH by (by apply NoDup_list_remove).
  rewrite elem_of_list_remove, elem_of_cons by done. tauto.
Qed.

Lemma elem_of_delete_batch_images fid fid' start_page end_page p w :
  (fid', p) ∈ outputs (PDFService.delete_batch_images fid start_page end_page w) ↔
  (fid', p) ∈ outputs w ∧ ¬ (fid' = fid ∧ start_page ≤ p ≤ end_page).
Proof.
  unfold PDFService.delete_batch_images. simpl.
  assert (∀ (l : list Z) (o : gset (string * Z)),
            (fid', p) ∈ foldl (fun o page_num => o ∖ {[ (fid, page_num) ]}) o l ↔
            (fid', p) ∈ o ∧ ¬ (fid' = fid ∧ p ∈ l)) as Hfold.
  { induction l as [|q l IH]; intros o; simpl.
    - rewrite elem_of_nil. tauto.
    - rewrite IH, elem_of_difference, elem_of_singleton, elem_of_cons.
      split.
      + intros [[Ho Hq] Hl]. split; [done|]. intros [-> [->|Hp]]; [done|]. by apply Hl.
      + intros [Ho Hn]. split_and!; [done| |].
        * intros [= -> ->]. apply Hn. split; [done|by left].
        * intros [-> Hp]. apply Hn. split; [done|by right]. }
  rewrite Hfold, elem_of_seqZ.
  split; intros [Ho Hn]; (split; [done|]); intros [-> Hp]; apply Hn; split; (done || lia).
Qed.

Lemma find_batch_elem_of n bs bi :
  StateManager.find_batch n bs = Some bi → bi ∈ bs ∧ BatchInfo.batch_number bi = n.
Proof.
  intros H. apply find_some in H as [Hin Hn]. split.
  - by apply list_elem_of_In.
  - by apply bool_decide_eq_true in Hn.
Qed.

(** C3. [retry_current_batch] on a document that is not [PAUSED] returns
    [False] and changes nothing. On a [PAUSED] document whose state keeps
    the data-model invariant and whose current batch is [b]: the output
    images of [b]'s pages are deleted and no other; [b] is reset to
    [PENDING] with no [prompt_used] and no completed pages; the
    document-level [completed_pages] loses exactly the pages of [b]'s
    range; the other batches are untouched; and what follows is
    [continue_processing] on that state, which succeeds. *)
Theorem retry_resets_the_current_batch fid w :
  (BatchProcessor.is_paused fid w = false →
   BatchProcessor.retry_current_batch fid w = (false, w))
  ∧ (∀ st bi,
       states w !! fid = Some st →
       status st = ProcessingStatus.PAUSED →
       pages_recorded st →
       StateManager.find_batch (current_batch st) (batches st) = Some bi →
       retry_post fid st bi w).
Proof.
  split.
  { intros Hp. unfold BatchProcessor.retry_current_batch. by rewrite Hp. }
  intros st bi Hst Hpaused [Hnd Hrec] Hfind.
  destruct (find_batch_elem_of _ _ _ Hfind) as [Hin Hnum].
  destruct (proj1 (Forall_forall _ _) Hrec bi Hin) as [Hown Hall].
  rewrite Forall_forall in Hown, Hall.
  unfold retry_post, retry_prepared. cbv zeta.
  set (w0 := PDFService.delete_batch_images _ _ _ w).
  assert (states w0 !! fid = Some st) as Hst0 by exact Hst.
  unfold StateManager.reset_batch. rewrite (mutate_Some _ _ _ _ Hst0).
  set (st1 := StateManager.batch_cleared (current_batch st) st).
  set (w1 := set_saved _ _).
  assert (states w1 !! fid = Some st1) as Hst1 by apply lookup_insert_eq.
  assert (st1 = StateManager.with_pages
                  (foldl (fun pages page => list_remove page pages) (completed_pages st)
                     (BatchInfo.completed_pages bi))
                  (update_first (StateManager.has_number (current_batch st))
                     StateManager.batch_reset (batches st)) st) as Hst1eq.
  { unfold st1, StateManager.batch_cleared. by rewrite Hfind. }
  assert (BatchProcessor.is_paused fid w = true) as Hpw.
  { unfold BatchProcessor.is_paused, StateManager.get_state. rewrite Hst.
    by apply bool_decide_eq_true. }
  assert (BatchProcessor.is_paused fid w1 = true) as Hpw1.
  { unfold BatchProcessor.is_paused, StateManager.get_state. rewrite Hst1.
    apply bool_decide_eq_true. by rewrite Hst1eq. }
  split_and!.
  - unfold BatchProcessor.retry_current_batch. rewrite Hpw. simpl.
    unfold StateManager.get_state. rewrite Hst, Hfind.
    unfold StateManager.reset_batch. fold w0. by rewrite (mutate_Some _ _ _ _ Hst0).
  - unfold BatchProcessor.continue_processing. by rewrite Hpw1.
  - intros fid' p. apply elem_of_delete_batch_images.
  - exists st1. split; [done|]. rewrite Hst1eq. unfold StateManager.with_pages.
    cbn [status current_batch batches completed_pages]. split_and!; try done.
    + rewrite find_batch_update_first_eq by done. rewrite Hfind. done.
    + intros n Hn. by rewrite find_batch_update_first_ne.
    + intros p. rewrite elem_of_remove_all by done. split.
      * intros [Hp Hnot]. split; [done|]. intros Hr. apply Hnot, Hall; [done|].
        by apply bool_decide_eq_true.
      * intros [Hp Hr]. split; [done|]. intros Hb. apply Hr.
        by apply (bool_decide_eq_true_1 _ (Hown p Hb)).
Qed.

End ControlClaims.

(** ** Paused documents carry no flag *)

Section Unflagged.
Import ProcessingState.

(** A change that leaves the records and sets no flag. *)
Lemma paused_unflagged_frame w w' :
  states w' = states w →
  (∀ fid, fid ∈ auto_run w' → fid ∈ auto_run w) →
  paused_unflagged w → paused_unflagged w'.
Proof.
  intros Hs Ha Hw fid st Hst Hp Hin. rewrite ?Hs in Hst.
  by apply (Hw fid st Hst Hp), Ha.
Qed.

(** A mutator that pauses nothing. *)
Lemma paused_unflagged_mutate fid f w :
  (∀ st, status (f st) = ProcessingStatus.PAUSED → status st = ProcessingStatus.PAUSED) →
  paused_unflagged w → paused_unflagged (StateManager.mutate fid f w).
Proof.
  intros Hf Hw. destruct (states w !! fid) as [st|] eqn:Hst.
  - rewrite (mutate_Some _ _ _ st) by done. intros fid' st' Hst' Hp. cbn in Hst' |- *.
    destruct (decide (fid' = fid)) as [->|Hne].
    + rewrite lookup_insert_eq in Hst'. injection Hst' as <-.
      by apply (Hw fid st Hst), Hf.
    + rewrite lookup_insert_ne in Hst' by done. by apply (Hw fid' st').
  - by rewrite mutate_None.
Qed.

Lemma paused_unflagged_mutated fid (m : Mutation) w :
  (∀ s e, m = SetStatus s e → s ≠ ProcessingStatus.PAUSED) →
  paused_unflagged w → paused_unflagged (StateManager.mutate fid (mutated m) w).
Proof.
  intros Hm. apply paused_unflagged_mutate. intros st.
  destruct m as [s e|pr|page|n s pu| |n]; cbn [mutated]; try done.
  - cbn. intros ->. by destruct (Hm _ e eq_refl).
  - unfold StateManager.advanced. by case_decide.
  - unfold StateManager.batch_cleared. by case_match.
Qed.

Lemma paused_unflagged_update_status fid s e w :
  s ≠ ProcessingStatus.PAUSED →
  paused_unflagged w → paused_unflagged (StateManager.update_status fid s e w).
Proof.
  intros Hs. apply (paused_unflagged_mutated fid (SetStatus s e)). by intros ? ? [= <- _].
Qed.

(** The checkpoint: the status is set to [PAUSED] where the flag was
    found not to be set. *)
Lemma paused_unflagged_checkpoint fid w :
  fid ∉ auto_run w →
  paused_unflagged w →
  paused_unflagged (StateManager.update_status fid ProcessingStatus.PAUSED None w).
Proof.
  intros Hno Hw. unfold StateManager.update_status.
  destruct (states w !! fid) as [st|] eqn:Hst.
  - rewrite (mutate_Some _ _ _ st) by done. intros fid' st' Hst' Hp. cbn in Hst' |- *.
    destruct (decide (fid' = fid)) as [->|Hne]; [done|].
    rewrite lookup_insert_ne in Hst' by done. by apply (Hw fid' st').
  - by rewrite mutate_None.
Qed.

Lemma paused_unflagged_continue fid w :
  paused_unflagged w → paused_unflagged (BatchProcessor.continue_processing fid w).2.
Proof.
  intros Hw. unfold BatchProcessor.continue_processing. case_match; [done|].
  cbn [snd]. eapply paused_unflagged_frame;
    [| |apply (paused_unflagged_update_status fid ProcessingStatus.PROCESSING None
              (set_pause_signals (BatchProcessor.discard fid) w))]; [done|done|done|].
  by apply (paused_unflagged_frame w).
Qed.

(** [trust_and_run] sets the flag, and where the document is paused the
    continue that follows takes it out of [PAUSED] at once. *)
Lemma paused_unflagged_trust_and_run fid w :
  paused_unflagged w → paused_unflagged (BatchProcessor.trust_and_run fid w).2.
Proof.
  intros Hw. unfold BatchProcessor.trust_and_run, BatchProcessor.continue_processing.
  set (w1 := set_auto_run (BatchProcessor.add fid) w).
  assert (∀ fid' st, fid' ≠ fid → states w !! fid' = Some st →
                     status st = ProcessingStatus.PAUSED → fid' ∉ auto_run w1) as Hothers.
  { intros fid' st Hne Hst Hp. unfold w1, BatchProcessor.add. cbn.
    intros [Hin|Hin]%elem_of_union; [|by apply (Hw fid' st)].
    by apply elem_of_singleton in Hin. }
  destruct (BatchProcessor.is_paused fid w1) eqn:Hpaused; cbn [negb snd].
  - unfold BatchProcessor.is_paused, StateManager.get_state in Hpaused.
    destruct (states w1 !! fid) as [st|] eqn:Hst; [|done].
    unfold StateManager.update_status.
    rewrite (mutate_Some _ _ _ st) by done.
    intros fid' st' Hst' Hp. cbn in Hst' |- *.
    destruct (decide (fid' = fid)) as [->|Hne].
    + rewrite lookup_insert_eq in Hst'. by injection Hst' as <-.
    + rewrite lookup_insert_ne in Hst' by done. by apply (Hothers fid' st').
  - intros fid' st Hst Hp. destruct (decide (fid' = fid)) as [->|Hne].
    + unfold BatchProcessor.is_paused, StateManager.get_state in Hpaused.
      change (states w1) with (states w) in Hpaused. cbn in Hst. rewrite Hst in Hpaused.
      by apply bool_decide_eq_false in Hpaused.
    + by apply (Hothers fid' st).
Qed.

Lemma paused_unflagged_run_command c w :
  paused_unflagged w → paused_unflagged (run_command c w).
Proof.
  intros Hw. destruct c as [fid|fid|fid|fid|fid|fid|fid prompt]; cbn [run_command].
  - unfold BatchProcessor.start_processing. case_match; [done|]. cbn [snd].
    eapply paused_unflagged_frame;
      [| |apply (paused_unflagged_update_status fid ProcessingStatus.PROCESSING None
                (set_auto_run (BatchProcessor.discard fid)
                   (set_stop_signals (BatchProcessor.discard fid)
                      (set_pause_signals (BatchProcessor.discard fid) w))))];
      [done|done|done|].
    apply (paused_unflagged_frame w); [done| |done].
    intros f. cbn. unfold BatchProcessor.discard. by intros [? _]%elem_of_difference.
  - unfold BatchProcessor.pause_processing. case_match; [|done]. cbn [snd].
    by apply (paused_unflagged_frame w).
  - by apply paused_unflagged_continue.
  - unfold BatchProcessor.stop_processing. cbn [snd].
    eapply paused_unflagged_frame; [| |apply paused_unflagged_update_status];
      [done|done|done|].
    case_match; [case_match|]; by apply (paused_unflagged_frame w).
  - unfold BatchProcessor.retry_current_batch. case_match; [done|].
    unfold StateManager.get_state.
    destruct (states w !! fid) as [st|] eqn:Hst; [|done].
    destruct (StateManager.find_batch _ _) as [bi|] eqn:Hfind; [|done].
    apply paused_unflagged_continue.
    apply (paused_unflagged_mutated fid (ResetBatch (current_batch st))); [done|].
    by apply (paused_unflagged_frame w).
  - by apply paused_unflagged_trust_and_run.
  - by apply (paused_unflagged_mutated fid (SetPrompt prompt)).
Qed.

Lemma paused_unflagged_interfere cs :
  ∀ w, paused_unflagged w → paused_unflagged (interfere cs w).
Proof.
  induction cs as [|c cs IH]; intros w Hw; [done|].
  cbn. apply IH. by apply paused_unflagged_run_command.
Qed.

Lemma keeps_unflagged_ret {A} (a : A) : keeps_unflagged (mret a).
Proof. by intros w Hw. Qed.

Lemma keeps_unflagged_raise {A} e : keeps_unflagged (raise (A:=A) e).
Proof. by intros w Hw. Qed.

Lemma keeps_unflagged_bind {A B} (m : M A) (k : A → M B) :
  keeps_unflagged m → (∀ a, keeps_unflagged (k a)) → keeps_unflagged (x ← m; k x).
Proof.
  intros Hm Hk w Hw. unfold_monad. specialize (Hm w Hw).
  destruct (m w) as [a w'|e w']; cbn in Hm |- *; [by apply Hk|done].
Qed.

Lemma keeps_unflagged_gets {A} (g : World → A) : keeps_unflagged (gets g).
Proof. by intros w Hw. Qed.

Lemma keeps_unflagged_modify (g : World → World) :
  (∀ w, paused_unflagged w → paused_unflagged (g w)) → keeps_unflagged (modify g).
Proof. intros Hg w Hw. by apply Hg. Qed.

Section Steps.
Context (gemini : Gemini) (env : Schedule).

Lemma keeps_unflagged_suspend tid pt : keeps_unflagged (suspend env tid pt).
Proof.
  intros w Hw. unfold suspend. unfold_monad. cbn.
  case_decide; by apply paused_unflagged_interfere.
Qed.

Lemma keeps_unflagged_send tid m : keeps_unflagged (send env tid m).
Proof.
  unfold send. apply keeps_unflagged_bind; [|intros; apply keeps_unflagged_suspend].
  apply keeps_unflagged_modify. intros w Hw. by apply (paused_unflagged_frame w).
Qed.

Lemma keeps_unflagged_process_page tid fid prompt bn tp state p :
  keeps_unflagged (process_page gemini env tid fid prompt bn tp state p).
Proof.
  unfold process_page.
  apply keeps_unflagged_bind; [apply keeps_unflagged_gets|].
  intros [|]; [apply keeps_unflagged_ret|].
  apply keeps_unflagged_bind; [apply keeps_unflagged_gets|]. intros st.
  case_decide; [apply keeps_unflagged_ret|].
  apply keeps_unflagged_bind; [apply keeps_unflagged_gets|]. intros [|]; cbn [negb].
  - apply keeps_unflagged_bind.
    { unfold send_progress_update. case_decide;
        [apply keeps_unflagged_raise|apply keeps_unflagged_send]. }
    intros _. apply keeps_unflagged_bind.
    { unfold colorize_image. apply keeps_unflagged_bind.
      - apply keeps_unflagged_modify. intros w Hw. by apply (paused_unflagged_frame w).
      - intros _. apply keeps_unflagged_bind; [apply keeps_unflagged_suspend|].
        intros _. apply keeps_unflagged_ret. }
    intros [|error].
    + apply keeps_unflagged_bind.
      { apply keeps_unflagged_modify. intros w Hw.
        by apply (paused_unflagged_frame w). }
      intros _. apply keeps_unflagged_bind.
      { apply keeps_unflagged_modify. intros w.
        by apply (paused_unflagged_mutated fid (MarkPage p)). }
      intros _. apply keeps_unflagged_bind; [apply keeps_unflagged_send|]. intros _.
      apply keeps_unflagged_bind; [apply keeps_unflagged_gets|].
      intros [st'|]; apply keeps_unflagged_ret.
    + apply keeps_unflagged_bind; [apply keeps_unflagged_send|]. intros _.
      apply keeps_unflagged_ret.
  - apply keeps_unflagged_bind; [apply keeps_unflagged_send|]. intros _.
    apply keeps_unflagged_ret.
Qed.

Lemma keeps_unflagged_page_loop tid fid prompt bn tp pages :
  ∀ state, keeps_unflagged (page_loop gemini env tid fid prompt bn tp state pages).
Proof.
  induction pages as [|p pages IH]; intros state; cbn [page_loop];
    [apply keeps_unflagged_ret|].
  apply keeps_unflagged_bind; [apply keeps_unflagged_process_page|].
  intros [state'|b]; [apply IH|apply keeps_unflagged_ret].
Qed.

Lemma keeps_unflagged_process_batch tid fid sp ep prompt bn :
  keeps_unflagged (_process_batch gemini env tid fid sp ep prompt bn).
Proof.
  unfold _process_batch. apply keeps_unflagged_bind; [apply keeps_unflagged_gets|].
  intros [state|]; [apply keeps_unflagged_page_loop|apply keeps_unflagged_ret].
Qed.

Lemma keeps_unflagged_process_batch_number tid fid state n :
  keeps_unflagged (process_batch_number gemini env tid fid state n).
Proof.
  unfold process_batch_number.
  apply keeps_unflagged_bind; [apply keeps_unflagged_gets|]. intros [|].
  { apply keeps_unflagged_bind; [|intros; apply keeps_unflagged_ret].
    apply keeps_unflagged_modify. intros w Hw. by apply (paused_unflagged_frame w). }
  apply keeps_unflagged_bind; [apply keeps_unflagged_gets|]. intros st.
  destruct (StateManager.find_batch n (batches st)) as [bi|]; [|apply keeps_unflagged_ret].
  case_decide; [apply keeps_unflagged_ret|].
  apply keeps_unflagged_bind; [apply keeps_unflagged_gets|]. intros st1.
  apply keeps_unflagged_bind.
  { apply keeps_unflagged_modify. intros w.
    by apply (paused_unflagged_mutated fid
                (SetBatchStatus n BatchStatus.PROCESSING (Some (current_prompt st1)))). }
  intros _. apply keeps_unflagged_bind; [apply keeps_unflagged_gets|]. intros st2.
  apply keeps_unflagged_bind; [apply keeps_unflagged_process_batch|].
  intros [|]; cbn [negb].
  - apply keeps_unflagged_bind.
    { apply keeps_unflagged_modify. intros w.
      by apply (paused_unflagged_mutated fid (SetBatchStatus n BatchStatus.COMPLETED None)). }
    intros _. apply keeps_unflagged_bind; [apply keeps_unflagged_send|]. intros _.
    apply keeps_unflagged_bind; [apply keeps_unflagged_gets|]. intros st3.
    case_decide.
    + apply keeps_unflagged_bind.
      { apply keeps_unflagged_modify. intros w. by apply paused_unflagged_update_status. }
      intros _. apply keeps_unflagged_bind; [apply keeps_unflagged_send|]. intros _.
      apply keeps_unflagged_ret.
    + apply keeps_unflagged_bind.
      { apply keeps_unflagged_modify. intros w.
        by apply (paused_unflagged_mutated fid Advance). }
      intros _. intros w Hw. unfold_monad. case_decide as Hflag.
      * pose proof (paused_unflagged_checkpoint fid w Hflag Hw) as Hp.
        set (w2 := StateManager.update_status fid ProcessingStatus.PAUSED None w) in *.
        set (m := MsgStatus _ _ _).
        pose proof (keeps_unflagged_send tid m w2 Hp) as Hsent.
        by destruct (send env tid m w2) as [[] w3|e w3].
      * by destruct (StateManager.get_state fid w).
  - apply keeps_unflagged_bind; [apply keeps_unflagged_gets|]. intros [|].
    + apply keeps_unflagged_bind; [|intros; apply keeps_unflagged_ret].
      apply keeps_unflagged_modify. intros w Hw. by apply (paused_unflagged_frame w).
    + apply keeps_unflagged_bind.
      { apply keeps_unflagged_modify. intros w.
        by apply (paused_unflagged_mutated fid (SetBatchStatus n BatchStatus.FAILED None)). }
      intros _. apply keeps_unflagged_bind; [apply keeps_unflagged_send|]. intros _.
      apply keeps_unflagged_ret.
Qed.

Lemma keeps_unflagged_batch_loop tid fid nums :
  ∀ state, keeps_unflagged (batch_loop gemini env tid fid state nums).
Proof.
  induction nums as [|n nums IH]; intros state; cbn [batch_loop];
    [apply keeps_unflagged_ret|].
  apply keeps_unflagged_bind; [apply keeps_unflagged_process_batch_number|].
  intros [state'|]; [apply IH|apply keeps_unflagged_ret].
Qed.

Lemma paused_unflagged_process_file tid fid w :
  paused_unflagged w → paused_unflagged (_process_file gemini env tid fid w).
Proof.
  intros Hw.
  assert (keeps_unflagged (process_file_body gemini env tid fid)) as Hbody.
  { unfold process_file_body. apply keeps_unflagged_bind; [apply keeps_unflagged_gets|].
    intros [state|]; [|apply keeps_unflagged_ret].
    apply keeps_unflagged_bind; [apply keeps_unflagged_batch_loop|].
    intros [|]; [|apply keeps_unflagged_ret].
    apply keeps_unflagged_bind; [|intros; apply keeps_unflagged_send].
    apply keeps_unflagged_modify. intros w'. by apply paused_unflagged_update_status. }
  unfold _process_file. specialize (Hbody w Hw).
  destruct (process_file_body gemini env tid fid w) as [[] w'|[|msg] w']; cbn in Hbody;
    [done|done|].
  apply keeps_unflagged_send. by apply paused_unflagged_update_status.
Qed.

End Steps.

Lemma paused_unflagged_run_task gemini env tid fid w :
  paused_unflagged w → paused_unflagged (run_task gemini env tid fid w).
Proof.
  intros Hw. unfold run_task.
  apply (paused_unflagged_frame
           (if decide (tid ∈ cancelled w) then w else _process_file gemini env tid fid w));
    [done|done|].
  case_decide; [done|]. by apply paused_unflagged_process_file.
Qed.

Lemma paused_unflagged_start fid step_size prompt w :
  paused_unflagged w →
  paused_unflagged (Routes.start_processing fid step_size prompt w).2.
Proof.
  intros Hw. unfold Routes.start_processing.
  destruct (negb (bool_decide (1 ≤ step_size ≤ 50))); [exact Hw|].
  unfold StateManager.initialize_state. unfold_monad.
  case_decide; [exact Hw|]. case_decide; [exact Hw|]. cbn [snd].
  apply (paused_unflagged_run_command (CmdStart fid)).
  unfold StateManager._save_state. cbn. rewrite lookup_insert_eq.
  intros fid' st'. cbn. destruct (decide (fid' = fid)) as [->|Hne].
  - rewrite lookup_insert_eq. intros [= <-] Hp. by cbn in Hp.
  - rewrite lookup_insert_ne by done. apply Hw.
Qed.

End Unflagged.

(** ** Trust and run *)

Section TrustAndRun.
Context (gemini : Gemini).
Import ProcessingState.

Lemma auto_run_mutate fid f w : auto_run (StateManager.mutate fid f w) = auto_run w.
Proof. apply (se_auto_run _ _ (same_engine_mutate fid f w)). Qed.

Lemma auto_run_continue fid w :
  auto_run (BatchProcessor.continue_processing fid w).2 = auto_run w.
Proof.
  unfold BatchProcessor.continue_processing. case_match; [done|]. simpl.
  unfold StateManager.update_status. by rewrite auto_run_mutate.
Qed.

(** Only a start that goes through takes the flag away. *)
Lemma auto_run_kept fid c w :
  c ≠ CmdStart fid → fid ∈ auto_run w → fid ∈ auto_run (run_command c w).
Proof.
  intros Hc Hin. destruct c as [fid'|fid'|fid'|fid'|fid'|fid'|fid' prompt]; simpl.
  - unfold BatchProcessor.start_processing. case_match; [done|]. simpl.
    unfold StateManager.update_status. rewrite auto_run_mutate. simpl.
    unfold BatchProcessor.discard. assert (fid ≠ fid') by congruence. set_solver.
  - unfold BatchProcessor.pause_processing. by case_match.
  - by rewrite auto_run_continue.
  - unfold BatchProcessor.stop_processing. simpl.
    unfold StateManager.update_status. rewrite auto_run_mutate.
    repeat case_match; done.
  - unfold BatchProcessor.retry_current_batch. repeat case_match; try done.
    rewrite auto_run_continue. unfold StateManager.reset_batch.
    by rewrite auto_run_mutate.
  - unfold BatchProcessor.trust_and_run. rewrite auto_run_continue. simpl.
    unfold BatchProcessor.add. set_solver.
  - unfold StateManager.update_prompt. by rewrite auto_run_mutate.
Qed.

(** C10 (amended). On a document that is not [PAUSED], [trust_and_run]
    returns [False] and its only effect is to set the auto-run flag; no
    control operation other than a start of that document takes the flag
    away. The flag does not act through a later continue: no document is
    ever [PAUSED] while its flag is set — every control operation,
    [POST /start] and a unit of work under any schedule keep this — so
    every [continue_processing] that succeeds launches its unit with the
    flag not set. The flag acts on the units of work of the document:
    under any schedule a unit never leaves the document [PAUSED] with
    the flag set, and a unit that starts with the flag set and is not
    disturbed goes through every remaining batch to status [COMPLETED]
    without sending a "paused" status. *)
Theorem failed_trust_and_run_sets_the_flag fid w :
  BatchProcessor.is_paused fid w = false →
  BatchProcessor.trust_and_run fid w = (false, set_auto_run (BatchProcessor.add fid) w)
  ∧ fid ∈ auto_run (BatchProcessor.trust_and_run fid w).2
  ∧ (∀ c w', c ≠ CmdStart fid → fid ∈ auto_run w' → fid ∈ auto_run (run_command c w'))
  ∧ (∀ w', paused_unflagged w' →
       (∀ c, paused_unflagged (run_command c w'))
       ∧ (∀ env tid fid', paused_unflagged (run_task gemini env tid fid' w'))
       ∧ (∀ fid' step_size prompt,
            paused_unflagged (Routes.start_processing fid' step_size prompt w').2)
       ∧ (∀ fid', (BatchProcessor.continue_processing fid' w').1 = true →
                  fid' ∉ auto_run (BatchProcessor.continue_processing fid' w').2))
  ∧ (∀ tid w1 st1,
       states w1 !! fid = Some st1 →
       fid ∈ auto_run w1 →
       fid ∉ stop_signals w1 →
       tid ∉ cancelled w1 →
       total_pages st1 ≠ 0 →
       unit_runs_through gemini fid tid st1 w1).
Proof.
  intros Hnp.
  assert (BatchProcessor.trust_and_run fid w =
          (false, set_auto_run (BatchProcessor.add fid) w)) as Heq.
  { unfold BatchProcessor.trust_and_run, BatchProcessor.continue_processing.
    replace (BatchProcessor.is_paused fid (set_auto_run (BatchProcessor.add fid) w))
      with (BatchProcessor.is_paused fid w) by done.
    by rewrite Hnp. }
  split; [done|]. split; [|split; [|split]].
  - rewrite Heq. simpl. unfold BatchProcessor.add. set_solver.
  - intros c w'. apply auto_run_kept.
  - intros w' Hw'. split; [|split; [|split]].
    + intros c. by apply paused_unflagged_run_command.
    + intros env tid fid'. by apply paused_unflagged_run_task.
    + intros fid' step_size prompt. by apply paused_unflagged_start.
    + intros fid'. rewrite auto_run_continue.
      unfold BatchProcessor.continue_processing.
      destruct (BatchProcessor.is_paused fid' w') eqn:Hp; [|done]. intros _.
      unfold BatchProcessor.is_paused, StateManager.get_state in Hp.
      destruct (states w' !! fid') as [st|] eqn:Hst; [|done].
      apply bool_decide_eq_true in Hp. by apply (Hw' fid' st).
  - intros tid w1 st1 Hst1 Hauto Hstop Hc Htp.
    unfold unit_runs_through. cbv zeta.
    destruct (process_file_quiet gemini tid fid w1 st1 Hst1 Hstop Hc Htp)
      as (fin & w4 & Hrun & ->).
    destruct Hrun as [_ _ (st4 & Hst4 & _ & _ & _ & _ & _ & _ & Hau)
                        (evs & Hev & Hnpe) _ _].
    destruct (Hau Hauto) as [Hall Hs4].
    destruct (after_loop_state fid fin w4 st4 Hst4)
      as (st' & Hst' & Hs' & Hb' & _ & _ & _ & (evs' & Hev' & Hnp') & _).
    exists st'. split_and!.
    + done.
    + rewrite Hs'. destruct fin; [done|]. by rewrite Hs4.
    + intros n Hn. unfold batch_status_of in *. rewrite Hb'. apply Hall.
      simpl. lia.
    + exists (evs' ++ evs). split; [by rewrite Hev', Hev, app_assoc|].
      apply Forall_app. auto.
Qed.

End TrustAndRun.

(** ** The invariant retry relies on is kept by the state manager *)

Section Invariant.
Import ProcessingState.

Lemma covers_same_range p b b' :
  same_range b b' → StateManager.covers p b' = StateManager.covers p b.
Proof. intros [Hs He]. unfold StateManager.covers. by rewrite Hs, He. Qed.

(** [update_first] changes at most the first element that satisfies the
    test. *)
Lemma update_first_lookup {A} (P : A → bool) (f : A → A) (l : list A) (i : nat) b' :
  update_first P f l !! i = Some b' →
  ∃ b, l !! i = Some b
       ∧ ((b' = f b ∧ P b = true ∧ ∀ (j : nat) c, l !! j = Some c → P c = true → (i ≤ j)%nat)
          ∨ (b' = b ∧ (P b = true → ∃ (j : nat) c, (j < i)%nat ∧ l !! j = Some c ∧ P c = true))).
Proof.
  revert i. induction l as [|a l IH]; intros i; simpl; [done|].
  destruct (P a) eqn:Ha.
  - destruct i as [|i]; simpl.
    + intros [= <-]. exists a. split; [done|]. left. split_and!; [done..|]. intros; lia.
    + intros Hb. exists b'. split; [done|]. right. split; [done|].
      intros _. exists 0%nat, a. split_and!; [lia|done..].
  - destruct i as [|i]; simpl.
    + intros [= <-]. exists a. split; [done|]. right. split; [done|]. congruence.
    + intros Hb. destruct (IH i Hb) as (b & Hl & Hcase). exists b. split; [done|].
      destruct Hcase as [(-> & HP & Hmin)|(-> & Hearlier)].
      * left. split_and!; [done..|]. intros [|j] c; simpl.
        -- intros [= <-]. congruence.
        -- intros Hc HPc. specialize (Hmin j c Hc HPc). lia.
      * right. split; [done|]. intros HP. destruct (Hearlier HP) as (j & c & Hj & Hc & HPc).
        exists (S j), c. split_and!; [lia|done..].
Qed.

Lemma ranges_disjoint_update_first P f bs :
  (∀ b, same_range b (f b)) →
  ranges_disjoint bs → ranges_disjoint (update_first P f bs).
Proof.
  intros Hf Hd i j bi' bj' p Hi Hj Hci Hcj.
  destruct (update_first_lookup P f bs i bi' Hi) as (bi & Hbi & Hcasei).
  destruct (update_first_lookup P f bs j bj' Hj) as (bj & Hbj & Hcasej).
  apply (Hd i j bi bj p Hbi Hbj).
  - destruct Hcasei as [(-> & _)|(-> & _)]; [|done].
    by rewrite (covers_same_range p bi (f bi) (Hf bi)) in Hci.
  - destruct Hcasej as [(-> & _)|(-> & _)]; [|done].
    by rewrite (covers_same_range p bj (f bj) (Hf bj)) in Hcj.
Qed.

Lemma NoDup_append_sorted p l : NoDup l → NoDup (append_sorted p l).
Proof.
  intros Hnd. unfold append_sorted. case_decide; [done|].
  rewrite merge_sort_Permutation. apply NoDup_app. split_and!; [done| |apply NoDup_singleton].
  intros x Hx Hp. apply list_elem_of_singleton in Hp as ->. done.
Qed.

Lemma NoDup_remove_all (ys l : list Z) :
  NoDup l → NoDup (foldl (fun pages page => list_remove page pages) l ys).
Proof.
  revert l. induction ys as [|y ys IH]; intros l Hnd; simpl; [done|].
  by apply IH, NoDup_list_remove.
Qed.

Lemma pages_recorded_lookup st :
  pages_recorded st ↔
  NoDup (completed_pages st)
  ∧ ∀ (i : nat) bi, batches st !! i = Some bi → batch_keeps (completed_pages st) bi.
Proof.
  unfold pages_recorded, batch_keeps. rewrite Forall_lookup.
  split; intros [Hnd H]; (split; [done|]); intros i bi Hi; specialize (H i bi Hi);
    by rewrite ?Forall_forall in *.
Qed.

Lemma well_kept_page_marked p st :
  ranges_disjoint (batches st) → pages_recorded st →
  pages_recorded (StateManager.page_marked p st).
Proof.
  intros Hd [Hnd Hrec]%pages_recorded_lookup. apply pages_recorded_lookup.
  unfold StateManager.page_marked, StateManager.with_pages.
  cbn [completed_pages batches]. split; [by apply NoDup_append_sorted|].
  intros i bi' Hi.
  destruct (update_first_lookup _ _ _ _ _ Hi) as (bi & Hbi & Hcase).
  destruct (Hrec i bi Hbi) as [Hown Hall].
  destruct Hcase as [(-> & Hcov & _)|(-> & Hearlier)].
  - split; simpl.
    + intros q Hq. apply elem_of_append_sorted in Hq as [->|Hq]; [done|by apply Hown].
    + intros q Hq Hcq. apply elem_of_append_sorted.
      apply elem_of_append_sorted in Hq as [->|Hq]; [by left|]. right. by apply Hall.
  - split; [done|]. intros q Hq Hcq.
    apply elem_of_append_sorted in Hq as [->|Hq]; [|by apply Hall].
    destruct (Hearlier Hcq) as (j & c & Hj & Hc & Hcc).
    pose proof (Hd i j bi c p Hbi Hc Hcq Hcc). lia.
Qed.

Lemma find_batch_lookup n bs bi :
  StateManager.find_batch n bs = Some bi →
  ∃ i : nat, bs !! i = Some bi ∧ StateManager.has_number n bi = true
             ∧ ∀ (j : nat) c, bs !! j = Some c → StateManager.has_number n c = true →
                              (i ≤ j)%nat.
Proof.
  unfold StateManager.find_batch.
  induction bs as [|a bs IH]; simpl; [done|].
  destruct (StateManager.has_number n a) eqn:Ha.
  - intros [= <-]. exists 0%nat. split_and!; [done..|]. intros; lia.
  - intros Hf. destruct (IH Hf) as (i & Hi & Hn & Hmin). exists (S i).
    split_and!; [done..|]. intros [|j] c; simpl.
    + intros [= <-]. congruence.
    + intros Hc Hnc. specialize (Hmin j c Hc Hnc). lia.
Qed.

Lemma well_kept_batch_cleared n st :
  pages_recorded st → pages_recorded (StateManager.batch_cleared n st).
Proof.
  intros [Hnd Hrec]%pages_recorded_lookup.
  unfold StateManager.batch_cleared.
  destruct (StateManager.find_batch n (batches st)) as [b|] eqn:Hfind;
    [|by apply pages_recorded_lookup].
  apply pages_recorded_lookup.
  unfold StateManager.with_pages. cbn [completed_pages batches].
  split; [by apply NoDup_remove_all|].
  destruct (find_batch_lookup _ _ _ Hfind) as (i0 & Hi0 & Hn0 & Hmin0).
  intros i bi' Hi.
  destruct (update_first_lookup _ _ _ _ _ Hi) as (bi & Hbi & Hcase).
  destruct (Hrec i bi Hbi) as [Hown Hall].
  destruct Hcase as [(-> & Hn & Hmin)|(-> & _)].
  - assert (i = i0) as -> by (pose proof (Hmin0 i bi Hbi Hn); pose proof (Hmin i0 b Hi0 Hn0); lia).
    assert (bi = b) as -> by congruence.
    split; simpl.
    + intros q Hq. by apply elem_of_nil in Hq.
    + intros q Hq Hcq. apply elem_of_remove_all in Hq as [Hq Hnot]; [|done].
      destruct Hnot. by apply Hall.
  - split; [done|]. intros q Hq Hcq.
    apply elem_of_remove_all in Hq as [Hq _]; [|done]. by apply Hall.
Qed.

Lemma well_kept_batch_status_set n s p st :
  pages_recorded st → pages_recorded (StateManager.batch_status_set n s p st).
Proof.
  intros [Hnd Hrec]%pages_recorded_lookup. apply pages_recorded_lookup.
  unfold StateManager.batch_status_set, StateManager.with_pages.
  cbn [completed_pages batches]. split; [done|].
  intros i bi' Hi.
  destruct (update_first_lookup _ _ _ _ _ Hi) as (bi & Hbi & Hcase).
  destruct (Hrec i bi Hbi) as [Hown Hall].
  destruct Hcase as [(-> & _)|(-> & _)]; done.
Qed.

(** Every record the state manager can make of a freshly initialised one
    keeps the invariant. *)
Lemma pages_recorded_kept fid fname tp step prompt (ms : list Mutation) :
  1 ≤ step →
  pages_recorded
    (foldl (fun st m => mutated m st)
       (StateManager.initial_state fid fname tp step prompt) ms).
Proof.
  intros Hstep.
  set (st0 := StateManager.initial_state fid fname tp step prompt).
  assert (pages_recorded st0 ∧ ranges_disjoint (batches st0)) as Hinit.
  { split.
    - split; [apply NoDup_nil_2|]. apply Forall_forall. intros bi Hbi. simpl in Hbi.
      apply list_elem_of_fmap in Hbi as (i & -> & _). by split.
    - intros i j bi bj p Hi Hj Hci Hcj. simpl in Hi, Hj.
      rewrite list_lookup_fmap in Hi, Hj.
      destruct (seqZ _ _ !! i) as [x|] eqn:Hx; [|done].
      destruct (seqZ _ _ !! j) as [y|] eqn:Hy; [|done].
      injection Hi as <-. injection Hj as <-.
      apply lookup_seqZ in Hx as [-> _]. apply lookup_seqZ in Hy as [-> _].
      apply bool_decide_eq_true in Hci, Hcj. simpl in Hci, Hcj.
      assert (∀ a b : Z, Z.min a b ≤ a) as Hmin by (intros; lia).
      pose proof (Hmin ((0 + Z.of_nat i + 1) * step) tp).
      pose proof (Hmin ((0 + Z.of_nat j + 1) * step) tp).
      assert (Z.of_nat i = Z.of_nat j) by nia. lia. }
  clearbody st0. revert st0 Hinit.
  induction ms as [|m ms IH]; intros st [Hrec Hd]; simpl; [done|].
  apply IH. destruct m as [s e|pr|page|n s pu| |n]; simpl.
  - done.
  - done.
  - split; [by apply well_kept_page_marked|].
    apply ranges_disjoint_update_first; [by intros b|done].
  - split; [by apply well_kept_batch_status_set|].
    apply ranges_disjoint_update_first; [by intros b|done].
  - unfold StateManager.advanced. by case_decide.
  - split; [by apply well_kept_batch_cleared|].
    unfold StateManager.batch_cleared. case_match; [|done].
    apply ranges_disjoint_update_first; [by intros b|done].
Qed.

End Invariant.

(** ** Nothing in the unit of work reads the pause signals *)

Section PauseSignals.
Context (gemini : Gemini) (f : gset string → gset string).
Import ProcessingState.

Lemma pause_blind_ret {A} (a : A) : pause_blind f (mret a).
Proof. done. Qed.

Lemma pause_blind_raise {A} e : pause_blind f (raise (A:=A) e).
Proof. done. Qed.

Lemma pause_blind_bind {A B} (m : M A) (k : A → M B) :
  pause_blind f m → (∀ a, pause_blind f (k a)) → pause_blind f (m ≫= k).
Proof.
  intros Hm Hk w. unfold mbind, M_bind, bind. rewrite Hm.
  destruct (m w) as [a w'|e w']; simpl; [apply Hk|done].
Qed.

Lemma pause_blind_gets {A} (g : World → A) :
  (∀ w, g (set_pause_signals f w) = g w) → pause_blind f (gets g).
Proof. intros Hg w. unfold gets. simpl. by rewrite Hg. Qed.

Lemma pause_blind_modify (g : World → World) :
  (∀ w, g (set_pause_signals f w) = set_pause_signals f (g w)) → pause_blind f (modify g).
Proof. intros Hg w. unfold modify. simpl. by rewrite Hg. Qed.

Lemma mutate_pause_signals fid h w :
  StateManager.mutate fid h (set_pause_signals f w) =
  set_pause_signals f (StateManager.mutate fid h w).
Proof.
  unfold StateManager.mutate, StateManager.get_state. simpl.
  destruct (states w !! fid) as [st|]; [|done].
  unfold StateManager._save_state. simpl. by rewrite lookup_insert_eq.
Qed.

Lemma pause_blind_suspend tid pt : pause_blind f (suspend quiet tid pt).
Proof.
  unfold suspend. apply pause_blind_bind; [by apply pause_blind_modify|]. intros _.
  apply pause_blind_bind; [by apply pause_blind_gets|]. intros c.
  case_decide; [apply pause_blind_raise|apply pause_blind_ret].
Qed.

Lemma pause_blind_send tid m : pause_blind f (send quiet tid m).
Proof.
  unfold send. apply pause_blind_bind; [by apply pause_blind_modify|]. intros _.
  apply pause_blind_suspend.
Qed.

Ltac pause_blind_step :=
  first
    [ apply pause_blind_ret
    | apply pause_blind_raise
    | apply pause_blind_send
    | apply pause_blind_suspend
    | apply pause_blind_gets; reflexivity
    | apply pause_blind_modify; intros; first [reflexivity | apply mutate_pause_signals]
    | apply pause_blind_bind; [|intros] ].

Lemma pause_blind_process_page tid fid prompt bn tp state p :
  pause_blind f (process_page gemini quiet tid fid prompt bn tp state p).
Proof.
  unfold process_page, send_progress_update, colorize_image.
  repeat first [pause_blind_step | case_match].
Qed.

Lemma pause_blind_page_loop tid fid prompt bn tp pages :
  ∀ state, pause_blind f (page_loop gemini quiet tid fid prompt bn tp state pages).
Proof.
  induction pages as [|p pages IH]; intros state; simpl; [apply pause_blind_ret|].
  apply pause_blind_bind; [apply pause_blind_process_page|].
  intros [state'|b]; [apply IH|apply pause_blind_ret].
Qed.

Lemma pause_blind_process_batch tid fid sp ep prompt bn :
  pause_blind f (_process_batch gemini quiet tid fid sp ep prompt bn).
Proof.
  unfold _process_batch. apply pause_blind_bind; [by apply pause_blind_gets|].
  intros [state|]; [apply pause_blind_page_loop|apply pause_blind_ret].
Qed.

Lemma pause_blind_process_batch_number tid fid state n :
  pause_blind f (process_batch_number gemini quiet tid fid state n).
Proof.
  unfold process_batch_number.
  repeat first [apply pause_blind_process_batch | pause_blind_step | case_match].
Qed.

Lemma pause_blind_batch_loop tid fid nums :
  ∀ state, pause_blind f (batch_loop gemini quiet tid fid state nums).
Proof.
  induction nums as [|n nums IH]; intros state; simpl; [apply pause_blind_ret|].
  apply pause_blind_bind; [apply pause_blind_process_batch_number|].
  intros [state'|]; [apply IH|apply pause_blind_ret].
Qed.

(** X25. The unit of work never reads the pause signals: raising or
    clearing them before an undisturbed unit of work changes nothing of
    what it does. *)
Lemma pause_signals_are_never_read tid fid w :
  _process_file gemini quiet tid fid (set_pause_signals f w) =
  set_pause_signals f (_process_file gemini quiet tid fid w).
Proof.
  assert (pause_blind f (process_file_body gemini quiet tid fid)) as Hbody.
  { unfold process_file_body. apply pause_blind_bind; [by apply pause_blind_gets|].
    intros [state|]; [|apply pause_blind_ret].
    apply pause_blind_bind; [apply pause_blind_batch_loop|].
    intros [|]; [|apply pause_blind_ret].
    apply pause_blind_bind; [|intros; apply pause_blind_send].
    apply pause_blind_modify. intros. apply mutate_pause_signals. }
  unfold _process_file. rewrite Hbody.
  destruct (process_file_body gemini quiet tid fid w) as [[] w'|[|msg] w']; simpl; try done.
  unfold StateManager.update_status. rewrite mutate_pause_signals.
  pose proof (pause_blind_send tid (MsgError fid msg None)
                (StateManager.mutate fid
                   (StateManager.with_status ProcessingStatus.ERROR (Some msg)) w')) as H.
  rewrite H. clear H. set (r := send _ _ _ _). clearbody r. by destruct r.
Qed.

End PauseSignals.

(** ** What [update_batch_status] stamps *)

Lemma stamp_of_a_prompt n s prompt st bi :
  StateManager.find_batch n (ProcessingState.batches st) = Some bi →
  BatchInfo.prompt_used <$>
    StateManager.find_batch n
      (ProcessingState.batches (StateManager.batch_status_set n s (Some prompt) st))
  = Some (if decide (prompt = EmptyString) then BatchInfo.prompt_used bi else Some prompt).
Proof.
  intros Hfind. unfold StateManager.batch_status_set. simpl.
  rewrite find_batch_update_first_eq by done. rewrite Hfind. simpl.
  by repeat case_decide.
Qed.

(** * The scenarios checked *)

Section Scenarios.
Import ProcessingState.

(** ** C1 *)

Lemma pause_checkpoint_witness :
  checkpoint_or_run_through "doc" 1 batch_1 started_state started
    (_process_file fails_on_page_3 quiet 0 "doc" started).
Proof.
  apply (pause_checkpoint_unless_auto_run fails_on_page_3 0 "doc" started
           started_state 1 batch_1);
    [by vm_compute|compute_done|compute_done|compute_done
    |by vm_compute|by vm_compute|compute_done].
Defined.

(** C1 as stated fails here: the state exists, auto-run is off, the unit
    finishes batch 2 of 3 and pauses — with [current_batch] 2, not 3:
    batch 1 was complete but [current_batch] still 1 when the unit
    started, and [advance_batch] adds one to [current_batch]. *)
Lemma current_batch_lags_after_restart :
  let w' := _process_file fails_on_page_3 quiet 1 "doc" restarted in
  (states restarted !! "doc" = Some restarted_state
   ∧ ("doc" ∉ auto_run restarted)
   ∧ ("doc" ∉ stop_signals restarted)
   ∧ next_batch restarted_state = Some 2
   ∧ 2 < total_batches restarted_state
   ∧ batch_status_of 2 restarted_state = Some BatchStatus.PENDING
   ∧ batch_status_of 2 (state_of "doc" w') = Some BatchStatus.COMPLETED
   ∧ status (state_of "doc" w') = ProcessingStatus.PAUSED
   ∧ current_batch (state_of "doc" w') = 2)
  ∧ ¬ moves_to_batch_after "doc" 2 w'.
Proof.
  cbv zeta. split.
  - split_and!; by vm_compute.
  - intros (st' & Hst' & Hcb & _).
    vm_compute in Hst'. injection Hst' as <-. by vm_compute in Hcb.
Qed.

(** ** C2 *)

Lemma initialize_state_partitions_witness :
  ∃ st w',
    StateManager.initialize_state "doc" 10 "colour it" uploaded = Ok st w'
    ∧ states w' !! "doc" = Some st
    ∧ batch_layout st 24 10.
Proof.
  apply (initialize_state_partitions "doc" 10 "colour it" uploaded 24);
    [by vm_compute|lia|lia].
Defined.

(** ** C3 *)

Lemma retry_witness : retry_post "doc" lagging_state batch_2_done lagging.
Proof.
  apply (proj2 (retry_resets_the_current_batch "doc" lagging) lagging_state batch_2_done);
    [by vm_compute|by vm_compute|compute_done|by vm_compute].
Defined.

(** ** C7 *)

Lemma page_failures_witness :
  (∃ flow w1,
     process_batch_number fails_on_page_3 quiet 0 "doc" started_state 1 started
     = Ok flow w1
     ∧ batch_survives_failures fails_on_page_3 "doc" 1 batch_1 started_state started w1)
  ∧ failures_are_skipped fails_on_page_3 "doc" 1 batch_1 started_state started
      (_process_file fails_on_page_3 quiet 0 "doc" started).
Proof.
  pose proof (page_failures_do_not_fail_the_batch fails_on_page_3 0 "doc" started
                started_state ltac:(by vm_compute) ltac:(compute_done)
                ltac:(compute_done) ltac:(compute_done)) as [Hturn Hrun].
  split.
  - apply (Hturn started_state 1 batch_1); [by vm_compute|done].
  - apply (Hrun 1 batch_1); by vm_compute.
Defined.

(** ** C8 *)

Lemma completed_page_witness :
  (∀ env tid prompt bn tp state p,
     p ∈ completed_pages continued_state →
     ∃ flow,
       process_page fails_on_page_3 env tid "doc" prompt bn tp state p continued
       = Ok flow continued
       ∧ ("doc" ∉ stop_signals continued → flow = NextPage state))
  ∧ (∀ tid,
       "doc" ∉ stop_signals continued → tid ∉ cancelled continued →
       total_pages continued_state ≠ 0 →
       completed_pages_not_redone "doc" continued_state continued
         (_process_file fails_on_page_3 quiet tid "doc" continued)).
Proof.
  apply (completed_page_is_not_transformed_again fails_on_page_3 "doc" continued
           continued_state).
  by vm_compute.
Defined.

(** ** C4 *)

(** The paused document is continued (task 1 is registered and has not
    finished), and a second [POST /start] arrives. The engine refuses to
    start, as C4 says — but the handler has already replaced the state by
    a fresh one and answers with success; task 1 then transforms the
    pages of batch 1 a second time. *)
Theorem second_start_request_resets_the_state :
  let request := Routes.start_processing "doc" 10 "colour it" continued in
  let w' := run_task fails_on_page_3 quiet 1 "doc" request.2 in
  BatchProcessor.task_active "doc" continued = true
  ∧ BatchProcessor.start_processing "doc" continued = (false, continued)
  ∧ completed_pages continued_state = [1; 2; 4; 6; 7; 8; 9; 10]
  ∧ status continued_state = ProcessingStatus.PROCESSING
  ∧ current_batch continued_state = 2
  ∧ request.1 = Routes.Success (state_of "doc" request.2)
  ∧ completed_pages (state_of "doc" request.2) = []
  ∧ status (state_of "doc" request.2) = ProcessingStatus.IDLE
  ∧ current_batch (state_of "doc" request.2) = 1
  ∧ tasks request.2 = tasks continued
  ∧ length (filter (fun c => c = ("doc", 1, "colour it")) (calls continued)) = 1%nat
  ∧ length (filter (fun c => c = ("doc", 1, "colour it")) (calls w')) = 2%nat.
Proof. cbv zeta. split_and!; by vm_compute. Qed.

(** ** C5 *)

(** C5, at the failing input. The pause signal is raised and batch 2 is
    not preempted — but nothing reads the signal: the unit goes past the
    boundary of batch 2, processes batch 3 and ends [COMPLETED]. *)
Theorem pause_is_ignored_under_auto_run :
  let trusted := BatchProcessor.trust_and_run "doc" paused_after_1 in
  let w' := run_task fails_on_page_3 pause_during_page_12 1 "doc" trusted.2 in
  trusted.1 = true
  ∧ BatchProcessor.task_active "doc" trusted.2 = true
  ∧ ("doc" ∉ pause_signals trusted.2)
  ∧ ("doc" ∈ pause_signals w')
  ∧ BatchInfo.completed_pages <$> StateManager.find_batch 2 (batches (state_of "doc" w'))
    = Some [11; 12; 13; 14; 15; 16; 17; 18; 19; 20]
  ∧ batch_status_of 3 (state_of "doc" w') = Some BatchStatus.COMPLETED
  ∧ BatchInfo.completed_pages <$> StateManager.find_batch 3 (batches (state_of "doc" w'))
    = Some [21; 22; 23; 24]
  ∧ status (state_of "doc" w') = ProcessingStatus.COMPLETED
  ∧ filter (fun m => paused_message m = true) (events w')
    = [MsgStatus "doc" "paused" "Batch 1 completed. Please review and continue."].
Proof. cbv zeta. split_and!; by vm_compute. Qed.

(** ** C6 *)

(** C6, at the failing input. Batch 1 keeps the prompt stamped at its
    start and its remaining pages are transformed with it — but batch 2,
    whose pages are transformed with the new, empty prompt, is stamped
    with nothing: [update_batch_status] tests [if prompt_used:]. *)
Theorem empty_prompt_is_not_stamped :
  let w1 := run_task fails_on_page_3 empty_prompt_during_page_4 0 "doc" started in
  let w2 := (BatchProcessor.continue_processing "doc" w1).2 in
  let w' := run_task fails_on_page_3 quiet 1 "doc" w2 in
  current_prompt (state_of "doc" w1) = EmptyString
  ∧ BatchInfo.prompt_used <$> StateManager.find_batch 1 (batches (state_of "doc" w1))
    = Some (Some "colour it")
  ∧ calls w1 = (fun p => ("doc", p, "colour it")) <$> [10; 9; 8; 7; 6; 4; 3; 2; 1]
  ∧ batch_status_of 2 (state_of "doc" w') = Some BatchStatus.COMPLETED
  ∧ firstn 10 (calls w') = (fun p => ("doc", p, EmptyString)) <$> [20; 19; 18; 17; 16; 15; 14; 13; 12; 11]
  ∧ BatchInfo.prompt_used <$> StateManager.find_batch 2 (batches (state_of "doc" w'))
    = Some None.
Proof. cbv zeta. split_and!; by vm_compute. Qed.

(** ** C10 *)

(** C10 as stated fails here: the later plain continue runs batch 2 and
    pauses again, batch 3 still pending — the start in between (the only
    way to [PAUSED] from a status that is not) cleared the flag. *)
Lemma start_clears_the_flag :
  let flagged := BatchProcessor.trust_and_run "doc" idle in
  let start := BatchProcessor.start_processing "doc" flagged.2 in
  let paused := run_task fails_on_page_3 quiet 0 "doc" start.2 in
  let continue := BatchProcessor.continue_processing "doc" paused in
  let w' := run_task fails_on_page_3 quiet 1 "doc" continue.2 in
  status (state_of "doc" idle) = ProcessingStatus.IDLE
  ∧ flagged.1 = false
  ∧ ("doc" ∈ auto_run flagged.2)
  ∧ start.1 = true
  ∧ ("doc" ∉ auto_run start.2)
  ∧ status (state_of "doc" paused) = ProcessingStatus.PAUSED
  ∧ continue.1 = true
  ∧ status (state_of "doc" w') = ProcessingStatus.PAUSED
  ∧ batch_status_of 3 (state_of "doc" w') = Some BatchStatus.PENDING
  ∧ MsgStatus "doc" "paused" "Batch 2 completed. Please review and continue." ∈ events w'.
Proof. cbv zeta. split_and!; try (by vm_compute). compute_done. Qed.

(** The failed call at work: the document has just been started, the
    call fails and sets the flag, and the task that was registered runs
    through; a call that arrives while page 2 is transformed leaves no
    paused document with a flag; the paused document is continued with
    the flag not set. *)
Lemma failed_trust_and_run_witness :
  let flagged := BatchProcessor.trust_and_run "doc" started in
  flagged = (false, set_auto_run (BatchProcessor.add "doc") started)
  ∧ unit_runs_through fails_on_page_3 "doc" 0 started_state flagged.2
  ∧ paused_unflagged (run_task fails_on_page_3 trust_during_page_2 0 "doc" started)
  ∧ ("doc" ∉ auto_run (BatchProcessor.continue_processing "doc" paused_after_1).2).
Proof.
  pose proof (failed_trust_and_run_sets_the_flag fails_on_page_3 "doc" started
                ltac:(by vm_compute)) as (Hfail & _ & _ & Hkept & Hunit).
  assert (paused_unflagged uploaded) as H0 by (intros fid st H; done).
  pose proof (proj1 (proj2 (proj2 (Hkept uploaded H0))) "doc" 10 "colour it") as H1.
  pose proof (proj1 (proj2 (Hkept started H1))) as Hrun.
  cbv zeta. split; [exact Hfail|]. split; [|split].
  - apply Hunit; [by vm_compute|compute_done|compute_done|compute_done|by vm_compute].
  - apply Hrun.
  - apply (proj2 (proj2 (proj2 (Hkept paused_after_1 (Hrun quiet 0%nat "doc"))))).
    by vm_compute.
Defined.

(** ** C9 *)

(** C9, at the failing input. The event reaches observer 1 although the
    send to observer 2 failed, each is tried once — and observer 2,
    whose send failed, is still subscribed afterwards: the clean-up
    calls [disconnect(conn, file_id)], which looks in the document's set
    and leaves the global set alone. *)
Theorem failed_global_observer_stays_subscribed :
  let message := MsgStatus "doc" "processing" "Processing started" in
  let r := ConnectionManager.send_to_file severed_2 elements "doc" message two_observers in
  ConnectionManager.audience "doc" two_observers = {[ 1%nat; 2%nat ]}
  ∧ severed_2 2%nat message = false
  ∧ r.1 = [(1%nat, message)]
  ∧ 2%nat ∈ ConnectionManager.global_connections r.2
  ∧ r.2 = two_observers.
Proof. cbv zeta. split_and!; by vm_compute. Qed.

(** The order in which the set of observers is iterated does not matter
    to it. *)
Lemma failed_global_observer_any_order (iter : gset nat → list nat) :
  (∀ s, iter s ≡ₚ elements s) →
  let message := MsgStatus "doc" "processing" "Processing started" in
  2%nat ∈ ConnectionManager.global_connections
            (ConnectionManager.send_to_file severed_2 iter "doc" message two_observers).2.
Proof.
  intros Hiter message. unfold ConnectionManager.send_to_file. cbn [snd].
  assert (filter (fun connection => severed_2 connection message = false)
            (iter (ConnectionManager.audience "doc" two_observers)) = [2%nat]) as ->.
  { apply Permutation_singleton_r. rewrite Hiter. by vm_compute. }
  by vm_compute.
Qed.

Lemma failed_trust_and_run_frees_the_running_unit :
  let w' := run_task fails_on_page_3 trust_during_page_2 0 "doc" started in
  tasks w' = tasks started
  ∧ next_task w' = next_task started
  ∧ ("doc" ∈ auto_run w')
  ∧ status (state_of "doc" w') = ProcessingStatus.COMPLETED
  ∧ filter (fun m => paused_message m = true) (events w') = [].
Proof. cbv zeta. split_and!; by vm_compute. Qed.

End Scenarios.

(** * More of the code *)

(** ** websocket.py: the subscriptions of [ConnectionManager] *)

Section Subscriptions.
Import ConnectionManager.

Lemma no_empty_sets_connect ws fid m :
  no_empty_sets m → no_empty_sets (connect ws fid m).
Proof.
  intros Hm. unfold connect.
  destruct fid as [fid|]; [|done]. destruct (truthy (Some fid)); [|done].
  intros f s. simpl. destruct (decide (f = fid)) as [->|Hne].
  - rewrite lookup_insert_eq. intros [= <-]. set_solver.
  - rewrite lookup_insert_ne by done. apply Hm.
Qed.

Lemma no_empty_sets_disconnect ws fid m :
  no_empty_sets m → no_empty_sets (disconnect ws fid m).
Proof.
  intros Hm. unfold disconnect.
  destruct fid as [fid|]; [|done]. destruct (truthy (Some fid)); [|done].
  destruct (active_connections m !! fid) as [s|] eqn:Hs; [|done].
  case_decide as He.
  - intros f s'. simpl. destruct (decide (f = fid)) as [->|Hne].
    + by rewrite lookup_delete_eq.
    + rewrite lookup_delete_ne by done. apply Hm.
  - intros f s'. simpl. destruct (decide (f = fid)) as [->|Hne].
    + rewrite lookup_insert_eq. by intros [= <-].
    + rewrite lookup_insert_ne by done. apply Hm.
Qed.

Lemma no_empty_sets_foldl fid (l : list nat) :
  ∀ m, no_empty_sets m → no_empty_sets (foldl (fun m conn => disconnect conn fid m) m l).
Proof.
  induction l as [|c l IH]; intros m Hm; [done|].
  simpl. apply IH. by apply no_empty_sets_disconnect.
Qed.

(** X1. No document is ever left with an empty set of observers: if every
    set in [active_connections] is non-empty, it is so after [connect],
    [disconnect], [send_to_file] and [broadcast], whichever sends fail and
    in whatever order the connections are gone through. *)
Theorem subscription_sets_are_never_empty send_json iter m :
  no_empty_sets m →
  (∀ websocket file_id, no_empty_sets (connect websocket file_id m))
  ∧ (∀ websocket file_id, no_empty_sets (disconnect websocket file_id m))
  ∧ (∀ file_id message, no_empty_sets (send_to_file send_json iter file_id message m).2)
  ∧ (∀ message, no_empty_sets (broadcast send_json iter message m).2).
Proof.
  intros Hm. split_and!.
  - intros. by apply no_empty_sets_connect.
  - intros. by apply no_empty_sets_disconnect.
  - intros. unfold send_to_file. cbn [snd]. by apply no_empty_sets_foldl.
  - intros. unfold broadcast. cbn [snd]. by apply no_empty_sets_foldl.
Qed.

(** X2. [disconnect] undoes [connect]: a connection that is not yet
    subscribed under [file_id] is subscribed by [connect], and
    disconnecting it again gives back the manager as it was (the set made
    for the first observer of a document is deleted with its last). *)
Theorem disconnect_undoes_connect websocket file_id m :
  no_empty_sets m →
  ¬ subscribed websocket file_id m →
  subscribed websocket file_id (connect websocket file_id m)
  ∧ disconnect websocket file_id (connect websocket file_id m) = m.
Proof.
  intros Hm Hnot. destruct m as [ac gc].
  assert (∀ g : gset nat, websocket ∉ g → ({[websocket]} ∪ g) ∖ {[websocket]} = g) as Hset.
  { intros g Hg. apply set_eq. set_solver. }
  unfold subscribed, connect, disconnect in *.
  destruct file_id as [fid|]; [destruct (truthy (Some fid)) eqn:Ht|].
  - cbn [active_connections global_connections] in *.
    unfold subscribers in *. cbn [active_connections global_connections] in *.
    rewrite lookup_insert_eq. cbn [default]. split; [set_solver|].
    rewrite Hset by done.
    destruct (ac !! fid) as [s|] eqn:Hs; cbn [default] in *.
    + rewrite decide_False by (by eapply Hm).
      by rewrite insert_insert_eq, insert_id.
    + rewrite decide_True by done. by rewrite delete_insert_eq, delete_id.
  - cbn [active_connections global_connections] in *. split; [set_solver|].
    by rewrite Hset.
  - cbn [active_connections global_connections] in *. split; [set_solver|]. by rewrite Hset.
Qed.

Lemma disconnect_from_file c fid m :
  fid ≠ EmptyString →
  (∀ fid', fid' ≠ fid →
     active_connections (disconnect c (Some fid) m) !! fid' = active_connections m !! fid')
  ∧ subscribers fid (disconnect c (Some fid) m) = subscribers fid m ∖ {[ c ]}
  ∧ (is_Some (active_connections m !! fid) →
       global_connections (disconnect c (Some fid) m) = global_connections m)
  ∧ (active_connections m !! fid = None →
       active_connections (disconnect c (Some fid) m) !! fid = None
       ∧ global_connections (disconnect c (Some fid) m) = global_connections m ∖ {[ c ]}).
Proof.
  intros Hfid. unfold disconnect, subscribers.
  assert (truthy (Some fid) = true) as ->.
  { unfold truthy. by rewrite bool_decide_eq_false_2. }
  destruct (active_connections m !! fid) as [s|] eqn:Hs.
  - case_decide as He; cbn [active_connections global_connections default].
    + split; [|split; [|split]].
      * intros fid' Hne. by rewrite lookup_delete_ne.
      * rewrite lookup_delete_eq. simpl. by rewrite He.
      * done.
      * done.
    + split; [|split; [|split]].
      * intros fid' Hne. by rewrite lookup_insert_ne.
      * by rewrite lookup_insert_eq.
      * done.
      * done.
  - cbn [active_connections global_connections default]. rewrite Hs.
    split; [|split; [|split]]; [done| |by intros [? ?]|done].
    cbn [default]. apply set_eq. intros x. rewrite elem_of_difference. set_solver.
Qed.

(** What the clean-up loop of [send_to_file] leaves. *)
Lemma disconnect_all_from_file fid (l : list nat) :
  fid ≠ EmptyString →
  ∀ m,
    let m' := foldl (fun m conn => disconnect conn (Some fid) m) m l in
    (∀ fid', fid' ≠ fid → active_connections m' !! fid' = active_connections m !! fid')
    ∧ subscribers fid m' = subscribers fid m ∖ list_to_set l
    ∧ (∀ c, c ∈ global_connections m' → c ∈ global_connections m)
    ∧ (∀ c, c ∈ global_connections m → c ∉ l → c ∈ global_connections m')
    ∧ ((∃ c, c ∈ subscribers fid m ∧ c ∉ l) → global_connections m' = global_connections m)
    ∧ (active_connections m !! fid = None →
         global_connections m' = global_connections m ∖ list_to_set l).
Proof.
  intros Hfid. induction l as [|c l IH]; intros m.
  - cbn [foldl]. split_and!; try done.
    + apply set_eq. intros x. rewrite elem_of_difference, list_to_set_nil. set_solver.
    + intros _. apply set_eq. intros x. rewrite elem_of_difference, list_to_set_nil. set_solver.
  - cbn [foldl]. cbv zeta.
    destruct (disconnect_from_file c fid m Hfid) as (Ho & Hs & Hg & Hn).
    destruct (IH (disconnect c (Some fid) m)) as (Ho' & Hs' & Hg1 & Hg2 & Hk & Hn').
    set (m1 := disconnect c (Some fid) m) in *.
    set (m' := foldl _ m1 l) in *.
    assert (∀ x, x ∈ global_connections m1 → x ∈ global_connections m) as Hsub.
    { intros x. destruct (active_connections m !! fid) eqn:Hac.
      - by rewrite Hg.
      - destruct Hn as [_ ->]; [done|]. set_solver. }
    assert (∀ x, x ∈ global_connections m → x ≠ c → x ∈ global_connections m1) as Hsup.
    { intros x. destruct (active_connections m !! fid) eqn:Hac.
      - by rewrite Hg.
      - destruct Hn as [_ ->]; [done|]. set_solver. }
    split_and!.
    + intros fid' Hne. by rewrite Ho', Ho.
    + rewrite Hs', Hs. apply set_eq. intros x.
      rewrite !elem_of_difference, list_to_set_cons. set_solver.
    + intros x Hx. by apply Hsub, Hg1.
    + intros x Hx Hnot. apply not_elem_of_cons in Hnot as [Hne Hnot].
      apply Hg2; [|done]. by apply Hsup.
    + intros (c0 & Hc0 & Hnot). apply not_elem_of_cons in Hnot as [Hne Hnot].
      rewrite Hk.
      * apply Hg. unfold subscribers in Hc0.
        destruct (active_connections m !! fid); [done|]. set_solver.
      * exists c0. split; [|done]. rewrite Hs. set_solver.
    + intros Hnone. destruct (Hn Hnone) as [Hnone1 Hg'].
      rewrite Hn' by done. rewrite Hg'. apply set_eq. intros x.
      rewrite !elem_of_difference, list_to_set_cons. set_solver.
Qed.

(** The connections [send_to_file] could not send to. *)
Lemma elem_of_disconnected (send_json : nat → Message → bool) iter (s : gset nat) message c :
  (∀ s, iter s ≡ₚ elements s) →
  c ∈ filter (fun connection : nat => send_json connection message = false) (iter s)
  ↔ c ∈ s ∧ send_json c message = false.
Proof.
  intros Hiter. rewrite list_elem_of_filter, Hiter, elem_of_elements. tauto.
Qed.

(** X4. [send_to_file] for a document (a non-empty id) unsubscribes from
    the document exactly its observers whose send failed: afterwards the
    observers of the document are those it had and that were reached. No
    other document's set changes; nothing is added to the global set, and
    a global observer that was reached is kept. *)
Theorem send_to_file_unsubscribes_failed_observers send_json iter file_id message m :
  (∀ s, iter s ≡ₚ elements s) →
  file_id ≠ EmptyString →
  let m' := (send_to_file send_json iter file_id message m).2 in
  (∀ fid', fid' ≠ file_id → active_connections m' !! fid' = active_connections m !! fid')
  ∧ (∀ c, c ∈ subscribers file_id m' ↔
          c ∈ subscribers file_id m ∧ send_json c message = true)
  ∧ (∀ c, c ∈ global_connections m' → c ∈ global_connections m)
  ∧ (∀ c, c ∈ global_connections m → send_json c message = true →
          c ∈ global_connections m').
Proof.
  intros Hiter Hfid. unfold send_to_file. cbn [snd]. cbv zeta.
  destruct (disconnect_all_from_file file_id
              (filter (fun connection => send_json connection message = false)
                 (iter (audience file_id m))) Hfid m)
    as (Ho & Hs & Hg1 & Hg2 & _ & _).
  split_and!.
  - exact Ho.
  - intros c. rewrite Hs, elem_of_difference, elem_of_list_to_set.
    rewrite elem_of_disconnected by done. unfold audience, subscribers.
    destruct (send_json c message); set_solver.
  - exact Hg1.
  - intros c Hc Hok. apply Hg2; [done|].
    rewrite elem_of_disconnected by done. intros [_ Hf]. congruence.
Qed.

(** X5. What [send_to_file] does to the global observers whose send
    failed depends on the document's own set: when an observer of the
    document is reached, the global set is not changed at all (the failed
    global observers stay); when the document has no set, the failed
    global observers are discarded and the global set becomes those that
    were reached. *)
Theorem send_to_file_global_cleanup send_json iter file_id message m :
  (∀ s, iter s ≡ₚ elements s) →
  file_id ≠ EmptyString →
  let m' := (send_to_file send_json iter file_id message m).2 in
  ((∃ c, c ∈ subscribers file_id m ∧ send_json c message = true) →
     global_connections m' = global_connections m)
  ∧ (active_connections m !! file_id = None →
       ∀ c, c ∈ global_connections m' ↔
            c ∈ global_connections m ∧ send_json c message = true).
Proof.
  intros Hiter Hfid. unfold send_to_file. cbn [snd]. cbv zeta.
  destruct (disconnect_all_from_file file_id
              (filter (fun connection => send_json connection message = false)
                 (iter (audience file_id m))) Hfid m)
    as (_ & _ & _ & _ & Hk & Hn).
  split.
  - intros (c & Hc & Hok). apply Hk. exists c. split; [done|].
    rewrite elem_of_disconnected by done. intros [_ Hf]. congruence.
  - intros Hnone c. rewrite Hn by done.
    rewrite elem_of_difference, elem_of_list_to_set.
    rewrite elem_of_disconnected by done. unfold audience. rewrite Hnone.
    cbn [default]. destruct (send_json c message); set_solver.
Qed.

Lemma elem_of_all_connections (g : gset nat) (ac : gmap string (gset nat)) c :
  c ∈ map_fold (fun (_ : string) (s acc : gset nat) => acc ∪ s) g ac
  ↔ c ∈ g ∨ ∃ fid s, ac !! fid = Some s ∧ c ∈ s.
Proof.
  revert ac.
  apply (map_fold_weak_ind
           (fun (r : gset nat) (ac : gmap string (gset nat)) =>
              c ∈ r ↔ c ∈ g ∨ ∃ fid s, ac !! fid = Some s ∧ c ∈ s)).
  - split; [by left|]. intros [?|(fid & s & Hl & _)]; [done|].
    by rewrite lookup_empty in Hl.
  - intros fid s ac r Hnone IH. rewrite elem_of_union, IH. split.
    + intros [[?|(fid' & s' & Hl & Hc)]|Hc].
      * by left.
      * right. exists fid', s'. split; [|done].
        rewrite lookup_insert_ne; [done|]. intros ->. congruence.
      * right. exists fid, s. by rewrite lookup_insert_eq.
    + intros [?|(fid' & s' & Hl & Hc)]; [by left; left|].
      destruct (decide (fid' = fid)) as [->|Hne].
      * rewrite lookup_insert_eq in Hl. injection Hl as <-. by right.
      * rewrite lookup_insert_ne in Hl by done. left. right. by exists fid', s'.
Qed.

Lemma disconnect_all_global (l : list nat) :
  ∀ m,
    let m' := foldl (fun m conn => disconnect conn None m) m l in
    active_connections m' = active_connections m
    ∧ global_connections m' = global_connections m ∖ list_to_set l.
Proof.
  induction l as [|c l IH]; intros m.
  - cbn [foldl]. split; [done|]. apply set_eq. intros x.
    rewrite elem_of_difference, list_to_set_nil. set_solver.
  - cbn [foldl]. cbv zeta. destruct (IH (disconnect c None m)) as [-> ->].
    unfold disconnect. cbn [active_connections global_connections].
    split; [done|]. apply set_eq. intros x.
    rewrite !elem_of_difference, list_to_set_cons. set_solver.
Qed.

(** X3. [broadcast] tries every connection the manager knows, global or
    of any document, once, and reaches those whose send succeeds. The
    failed ones are discarded from the global set only: the sets of the
    documents are left as they were. *)
Theorem broadcast_reaches_every_connection_once send_json iter message m :
  (∀ s, iter s ≡ₚ elements s) →
  let r := broadcast send_json iter message m in
  NoDup r.1
  ∧ (∀ c, (c, message) ∈ r.1 ↔ known c m ∧ send_json c message = true)
  ∧ active_connections r.2 = active_connections m
  ∧ (∀ c, c ∈ global_connections r.2 ↔
          c ∈ global_connections m ∧ send_json c message = true).
Proof.
  intros Hiter. unfold broadcast. cbn [fst snd]. cbv zeta.
  set (everyone := map_fold _ _ _).
  assert (∀ c, c ∈ everyone ↔ known c m) as Hall.
  { intros c. apply elem_of_all_connections. }
  destruct (disconnect_all_global
              (filter (fun connection => send_json connection message = false)
                 (iter everyone)) m) as [Hac Hg].
  split_and!.
  - apply NoDup_fmap_2; [by intros ?? [= ->]|].
    apply NoDup_filter. rewrite Hiter. apply NoDup_elements.
  - intros c. rewrite list_elem_of_fmap. split.
    + intros (c' & [= <-] & Hc). apply list_elem_of_filter in Hc as [Hok Hc].
      rewrite Hiter in Hc. apply elem_of_elements in Hc. by rewrite <- Hall.
    + intros [Hc Hok]. exists c. split; [done|]. apply list_elem_of_filter.
      split; [done|]. rewrite Hiter. apply elem_of_elements. by rewrite Hall.
  - exact Hac.
  - intros c. rewrite Hg, elem_of_difference, elem_of_list_to_set.
    rewrite elem_of_disconnected by done. rewrite Hall. unfold known.
    destruct (send_json c message); set_solver.
Qed.

End Subscriptions.

(** ** gemini_service.py: the retries of [colorize_image] *)

Section GeminiClaims.
Import GeminiService.
Context {Image : Type} (api : string → string → Z → Attempt Image).

Lemma retry_loop_first_image image_bytes prompt max_retries result k :
  ∀ before after last_error calls sleeps,
    Forall (fruitless api image_bytes prompt) before →
    api image_bytes prompt k = Returned (Some result) →
    let o := retry_loop api image_bytes prompt max_retries last_error calls sleeps
               (before ++ k :: after) in
    success o = true ∧ colorized_image o = Some result ∧ error o = None
    ∧ attempts o = calls ++ before ++ [k].
Proof.
  induction before as [|a before IH]; intros after last_error calls sleeps Hb Hk.
  - cbn [app retry_loop]. rewrite Hk. by cbn.
  - apply Forall_cons in Hb as [Ha Hb]. cbn [app retry_loop].
    destruct (api image_bytes prompt a) as [[r|]|e] eqn:Hapi.
    + by destruct (Ha r).
    + destruct (IH after last_error (calls ++ [a]) sleeps Hb Hk) as (? & ? & ? & Hat).
      split_and!; try done. by rewrite Hat, <- !app_assoc.
    + destruct (IH after (Some e) (calls ++ [a])
                  (if decide (a < max_retries - 1) then sleeps ++ [2 ^ a] else sleeps)
                  Hb Hk) as (? & ? & ? & Hat).
      split_and!; try done. by rewrite Hat, <- !app_assoc.
Qed.

Lemma retry_loop_verdict image_bytes prompt max_retries :
  ∀ range last_error calls sleeps,
    let o := retry_loop api image_bytes prompt max_retries last_error calls sleeps range in
    (success o = true ∧ is_Some (colorized_image o) ∧ error o = None
     ∧ ¬ Forall (fruitless api image_bytes prompt) range)
    ∨ (success o = false ∧ colorized_image o = None
       ∧ Forall (fruitless api image_bytes prompt) range
       ∧ attempts o = calls ++ range
       ∧ error o = Some ("Colorization failed after " +:+ pretty max_retries
                         +:+ " attempts: "
                         +:+ str_of_error (last_raised api image_bytes prompt last_error range))).
Proof.
  induction range as [|a range IH]; intros last_error calls sleeps.
  - cbn. right. split_and!; try done. by rewrite app_nil_r.
  - cbn [retry_loop]. destruct (api image_bytes prompt a) as [[r|]|e] eqn:Hapi.
    + cbn. left. split_and!; try done.
      intros Hall. apply Forall_cons in Hall as [Ha _]. by destruct (Ha r).
    + destruct (IH last_error (calls ++ [a]) sleeps)
        as [(? & ? & ? & Hnot)|(? & ? & Hall & Hat & Herr)].
      { left. split_and!; try done. intros Hall. apply Forall_cons in Hall as [_ ?]. done. }
      right.
      split_and!; try done.
      * apply Forall_cons. split; [|done]. intros r. by rewrite Hapi.
      * by rewrite Hat, <- app_assoc.
      * rewrite Herr. cbn [last_raised foldl]. by rewrite Hapi.
    + destruct (IH (Some e) (calls ++ [a])
                  (if decide (a < max_retries - 1) then sleeps ++ [2 ^ a] else sleeps))
        as [(? & ? & ? & Hnot)|(? & ? & Hall & Hat & Herr)].
      { left. split_and!; try done. intros Hall. apply Forall_cons in Hall as [_ ?]. done. }
      right. split_and!; try done.
      * apply Forall_cons. split; [|done]. intros r. by rewrite Hapi.
      * by rewrite Hat, <- app_assoc.
      * rewrite Herr. cbn [last_raised foldl]. by rewrite Hapi.
Qed.

Lemma sum_list_Z_app l1 l2 : sum_list_Z (l1 ++ l2) = sum_list_Z l1 + sum_list_Z l2.
Proof. induction l1 as [|x l1 IH]; cbn [app sum_list_Z]; lia. Qed.

Lemma retry_loop_budget image_bytes prompt max_retries :
  ∀ (n : nat) a last_error calls sleeps,
    0 ≤ a →
    a + Z.of_nat n = max_retries →
    let o := retry_loop api image_bytes prompt max_retries last_error calls sleeps
               (seqZ a (Z.of_nat n)) in
    (∃ done, attempts o = calls ++ done ∧ done `prefix_of` seqZ a (Z.of_nat n))
    ∧ (∃ more, slept o = sleeps ++ more
               ∧ Forall (fun s => ∃ i, a ≤ i < max_retries - 1 ∧ s = 2 ^ i) more
               ∧ sum_list_Z more + 2 ^ a ≤ 2 ^ Z.max a (max_retries - 1)).
Proof.
  induction n as [|n IH]; intros a last_error calls sleeps Ha Hmax.
  - cbn. split.
    + exists []. by rewrite app_nil_r.
    + exists []. rewrite app_nil_r. split_and!; [done|done|].
      cbn. replace (Z.max a (max_retries - 1)) with a by lia. lia.
  - replace (Z.of_nat (S n)) with (Z.succ (Z.of_nat n)) by lia.
    rewrite seqZ_cons by lia. rewrite Z.pred_succ. cbn [retry_loop].
    assert (2 ^ Z.succ a = 2 * 2 ^ a) as Hpow by (by rewrite Z.pow_succ_r).
    assert (0 < 2 ^ a) as Hpos by (apply Z.pow_pos_nonneg; lia).
    destruct (api image_bytes prompt a) as [[r|]|e].
    + cbn. split.
      * exists [a]. split; [done|]. by exists (seqZ (Z.succ a) (Z.of_nat n)).
      * exists []. rewrite app_nil_r. split_and!; [done|done|].
        cbn. apply Z.le_trans with (2 ^ a); [lia|].
        apply Z.pow_le_mono_r; lia.
    + destruct (IH (Z.succ a) last_error (calls ++ [a]) sleeps ltac:(lia) ltac:(lia))
        as [(done & Hat & Hpre) (more & Hsl & Hall & Hsum)].
      split.
      * exists (a :: done). split; [by rewrite Hat, <- app_assoc|].
        by apply prefix_cons.
      * exists more. split_and!; [done| |].
        -- eapply Forall_impl; [exact Hall|]. intros s (i & Hi & ->). exists i. split; [lia|done].
        -- destruct (decide (a < max_retries - 1)).
           ++ replace (Z.max (Z.succ a) (max_retries - 1)) with (max_retries - 1) in Hsum by lia.
              replace (Z.max a (max_retries - 1)) with (max_retries - 1) by lia. lia.
           ++ assert (more = []) as ->.
              { destruct more as [|s more]; [done|].
                apply Forall_cons in Hall as [(i & Hi & _) _]. lia. }
              cbn. replace (Z.max a (max_retries - 1)) with a by lia. lia.
    + destruct (decide (a < max_retries - 1)) as [Hlt|Hge].
      * destruct (IH (Z.succ a) (Some e) (calls ++ [a]) (sleeps ++ [2 ^ a])
                    ltac:(lia) ltac:(lia))
          as [(done & Hat & Hpre) (more & Hsl & Hall & Hsum)].
        split.
        -- exists (a :: done). split; [by rewrite Hat, <- app_assoc|].
           by apply prefix_cons.
        -- exists (2 ^ a :: more). split_and!.
           ++ by rewrite Hsl, <- app_assoc.
           ++ apply Forall_cons. split; [exists a; split; [lia|done]|].
              eapply Forall_impl; [exact Hall|]. intros s (i & Hi & ->).
              exists i. split; [lia|done].
           ++ cbn [sum_list_Z].
              replace (Z.max (Z.succ a) (max_retries - 1)) with (max_retries - 1) in Hsum by lia.
              replace (Z.max a (max_retries - 1)) with (max_retries - 1) by lia. lia.
      * destruct (IH (Z.succ a) (Some e) (calls ++ [a]) sleeps ltac:(lia) ltac:(lia))
          as [(done & Hat & Hpre) (more & Hsl & Hall & Hsum)].
        split.
        -- exists (a :: done). split; [by rewrite Hat, <- app_assoc|].
           by apply prefix_cons.
        -- exists more. split_and!; [done| |].
           ++ eapply Forall_impl; [exact Hall|]. intros s (i & Hi & ->).
              exists i. split; [lia|done].
           ++ assert (more = []) as ->.
              { destruct more as [|s more]; [done|].
                apply Forall_cons in Hall as [(i & Hi & _) _]. lia. }
              cbn. replace (Z.max a (max_retries - 1)) with a by lia. lia.
Qed.

(** X6. With the client configured and the image read, [colorize_image]
    returns the first image the API gives: if attempt [k], below
    [max_retries], returns an image and no earlier attempt did, the
    result is success with that image and no error, after exactly the
    attempts [0..k]. *)
Theorem colorize_image_returns_the_first_image api_key image_bytes prompt max_retries
    k result :
  is_configured api_key = true →
  0 ≤ k < max_retries →
  (∀ j, 0 ≤ j < k → fruitless api image_bytes (full_prompt prompt) j) →
  api image_bytes (full_prompt prompt) k = Returned (Some result) →
  let o := colorize_image api api_key (inr image_bytes) prompt max_retries in
  success o = true ∧ colorized_image o = Some result ∧ error o = None
  ∧ attempts o = seqZ 0 (k + 1).
Proof.
  intros Hkey Hk Hbefore Hapi. unfold colorize_image. rewrite Hkey. cbn [negb].
  assert (seqZ 0 max_retries = seqZ 0 k ++ k :: seqZ (k + 1) (max_retries - k - 1)) as ->.
  { replace max_retries with (k + (1 + (max_retries - k - 1))) at 1 by lia.
    rewrite seqZ_app by lia. rewrite (seqZ_app _ 1) by lia.
    by rewrite !Z.add_0_l. }
  destruct (retry_loop_first_image image_bytes (full_prompt prompt) max_retries result k
              (seqZ 0 k) (seqZ (k + 1) (max_retries - k - 1)) None [] [])
    as (? & ? & ? & Hat); [|done|].
  - apply Forall_forall. intros j Hj. apply elem_of_seqZ in Hj. apply Hbefore. lia.
  - split_and!; try done. rewrite Hat. cbn [app].
    rewrite (seqZ_app 0 k 1) by lia. by rewrite Z.add_0_l.
Qed.

Lemma retry_loop_sleeps image_bytes prompt max_retries :
  ∀ range last_error calls sleeps,
    let o := retry_loop api image_bytes prompt max_retries last_error calls sleeps range in
    ∃ done,
      attempts o = calls ++ done
      ∧ slept o = sleeps ++ ((fun attempt => 2 ^ attempt) <$>
                    filter (fun attempt => raises api (inr image_bytes) prompt attempt = true
                                           ∧ attempt < max_retries - 1) done).
Proof.
  induction range as [|a range IH]; intros last_error calls sleeps.
  - cbn. exists []. by rewrite !app_nil_r.
  - cbn [retry_loop].
    destruct (api image_bytes prompt a) as [[r|]|e] eqn:Hapi.
    + cbn. exists [a]. split; [done|].
      rewrite filter_cons_False; [by rewrite app_nil_r|].
      cbn. rewrite Hapi. by intros [? _].
    + destruct (IH last_error (calls ++ [a]) sleeps) as (done & Hat & Hsl).
      exists (a :: done). split; [by rewrite Hat, <- app_assoc|].
      rewrite filter_cons_False; [done|]. cbn. rewrite Hapi. by intros [? _].
    + destruct (IH (Some e) (calls ++ [a])
                  (if decide (a < max_retries - 1) then sleeps ++ [2 ^ a] else sleeps))
        as (done & Hat & Hsl).
      exists (a :: done). split; [by rewrite Hat, <- app_assoc|].
      rewrite Hsl. case_decide as Hlt.
      * rewrite filter_cons_True; [by rewrite <- app_assoc|]. cbn. by rewrite Hapi.
      * rewrite filter_cons_False; [done|]. by intros [_ ?].
Qed.

(** X7. Whatever the API does, [colorize_image] makes at most
    [max_retries] calls, numbered from 0 in order, and it sleeps after
    the attempts that raised and only after them: the sleeps are, in
    order, [2^i] seconds for each attempt [i] made that raised and has
    [i < max_retries - 1] (there is none after the last attempt, none
    after an attempt that returned). They add up to less than
    [2^(max_retries - 1)] seconds. *)
Theorem colorize_image_backs_off_within_bounds api_key image_bytes prompt max_retries :
  let o := colorize_image api api_key image_bytes prompt max_retries in
  attempts o `prefix_of` seqZ 0 max_retries
  ∧ slept o = (fun attempt => 2 ^ attempt) <$>
                filter (fun attempt => raises api image_bytes (full_prompt prompt) attempt = true
                                       ∧ attempt < max_retries - 1) (attempts o)
  ∧ Forall (fun s => ∃ i, 0 ≤ i < max_retries - 1 ∧ s = 2 ^ i) (slept o)
  ∧ sum_list_Z (slept o) < 2 ^ Z.max 0 (max_retries - 1).
Proof.
  cbv zeta. unfold colorize_image.
  assert (0 < 2 ^ Z.max 0 (max_retries - 1)) as Hpos by (apply Z.pow_pos_nonneg; lia).
  destruct (negb (is_configured api_key)).
  { cbn. split_and!; [apply prefix_nil|done|done|done]. }
  destruct image_bytes as [e|image_bytes].
  { cbn. split_and!; [apply prefix_nil|done|done|done]. }
  destruct (retry_loop_sleeps image_bytes (full_prompt prompt) max_retries
              (seqZ 0 max_retries) None [] []) as (made & Hmade & Hslept).
  cbn [app] in Hmade, Hslept. split; [|split].
  - destruct (decide (0 ≤ max_retries)) as [Hmax|Hmax].
    + destruct (retry_loop_budget image_bytes (full_prompt prompt) max_retries
                  (Z.to_nat max_retries) 0 None [] [] ltac:(lia) ltac:(lia))
        as [(done & Hat & Hpre) _].
      rewrite Z2Nat.id in * by done. by rewrite Hat.
    + rewrite seqZ_nil by lia. cbn. apply prefix_nil.
  - by rewrite Hslept, Hmade.
  - destruct (decide (0 ≤ max_retries)) as [Hmax|Hmax].
    + destruct (retry_loop_budget image_bytes (full_prompt prompt) max_retries
                  (Z.to_nat max_retries) 0 None [] [] ltac:(lia) ltac:(lia))
        as [_ (more & Hsl & Hall & Hsum)].
      rewrite Z2Nat.id in * by done.
      rewrite Hsl. cbn [app]. split; [done|].
      change (2 ^ 0) with 1 in Hsum. lia.
    + rewrite seqZ_nil by lia. cbn. by split.
Qed.

(** X8. [colorize_image] either succeeds with an image and no error, or
    fails with no image and an error text that is not empty: the
    fallback text of [_process_batch], [error or "Colorization failed"],
    is never what the observers are sent. *)
Theorem colorize_image_failure_names_its_cause api_key image_bytes prompt max_retries :
  let o := colorize_image api api_key image_bytes prompt max_retries in
  (success o = true ∧ is_Some (colorized_image o) ∧ error o = None
   ∧ result_of o = Colorized)
  ∨ (success o = false ∧ colorized_image o = None
     ∧ ∃ e, error o = Some e ∧ e ≠ EmptyString
            ∧ result_of o = ColorizeFailed e ∧ failure_text e = e).
Proof.
  cbv zeta.
  assert (∀ o : Outcome Image, ∀ e,
            success o = false → colorized_image o = None → error o = Some e →
            e ≠ EmptyString →
            success o = false ∧ colorized_image o = None
            ∧ ∃ e, error o = Some e ∧ e ≠ EmptyString
                   ∧ result_of o = ColorizeFailed e ∧ failure_text e = e) as Hfail.
  { intros o e Hs Hi He Hne. split_and!; [done|done|]. exists e. split_and!; [done|done| |].
    - unfold result_of. by rewrite Hs, He.
    - unfold failure_text. by rewrite decide_False. }
  unfold colorize_image. destruct (negb (is_configured api_key)).
  { right. by eapply Hfail. }
  destruct image_bytes as [e|image_bytes].
  { right. by eapply Hfail. }
  destruct (retry_loop_verdict image_bytes (full_prompt prompt) max_retries
              (seqZ 0 max_retries) None [] [])
    as [(Hs & Hi & He & _)|(Hs & Hi & _ & _ & He)].
  - left. split_and!; try done. unfold result_of. rewrite Hs.
    by rewrite bool_decide_eq_true_2.
  - right. by eapply Hfail.
Qed.

(** X9. With the client configured and the image read, if no attempt
    gives an image, [colorize_image] makes all [max_retries] attempts and
    fails with [Colorization failed after <max_retries> attempts: <e>],
    [e] being the text of the last exception raised, or [None] when no
    attempt raised. *)
Theorem colorize_image_gives_up_after_max_retries api_key image_bytes prompt max_retries :
  is_configured api_key = true →
  (∀ j, 0 ≤ j < max_retries → fruitless api image_bytes (full_prompt prompt) j) →
  let o := colorize_image api api_key (inr image_bytes) prompt max_retries in
  success o = false
  ∧ attempts o = seqZ 0 max_retries
  ∧ error o = Some ("Colorization failed after " +:+ pretty max_retries +:+ " attempts: "
                    +:+ str_of_error
                          (last_raised api image_bytes (full_prompt prompt) None
                             (seqZ 0 max_retries))).
Proof.
  intros Hkey Hall. unfold colorize_image. rewrite Hkey. cbn [negb].
  destruct (retry_loop_verdict image_bytes (full_prompt prompt) max_retries
              (seqZ 0 max_retries) None [] [])
    as [(_ & _ & _ & Hnot)|(Hs & Hi & _ & Hat & He)].
  - destruct Hnot. apply Forall_forall. intros j Hj. apply elem_of_seqZ in Hj.
    apply Hall. lia.
  - by split_and!.
Qed.

End GeminiClaims.

(** ** state_manager.py: the cache and the state files *)

Section Persistence.
Import StateStore.

Lemma written_through_lookup s fid st :
  written_through s → _states s !! fid = Some st → state_files s !! fid = Some st.
Proof. intros Hs. apply Hs. Qed.

Lemma get_state_written_through fid s :
  written_through s →
  (get_state fid s).1 = state_files s !! fid
  ∧ written_through (get_state fid s).2
  ∧ state_files (get_state fid s).2 = state_files s.
Proof.
  intros Hs. unfold get_state, _load_state.
  destruct (_states s !! fid) as [st|] eqn:Hc.
  - cbn. split_and!; [|done|done]. symmetry. by apply Hs.
  - destruct (state_files s !! fid) as [st|] eqn:Hf; [|done].
    cbn. split_and!; [done| |done].
    intros f st'. cbn. destruct (decide (f = fid)) as [->|Hne].
    + rewrite lookup_insert_eq. by intros [= <-].
    + rewrite lookup_insert_ne by done. apply Hs.
Qed.

Lemma store_written_through fid st s :
  written_through s →
  written_through (store fid st s)
  ∧ state_files (store fid st s) = <[fid := st]> (state_files s).
Proof.
  intros Hs. unfold store, _save_state. cbn. rewrite lookup_insert_eq. cbn.
  split; [|done]. intros f st'. cbn.
  destruct (decide (f = fid)) as [->|Hne].
  - rewrite !lookup_insert_eq. by intros [= <-].
  - rewrite !lookup_insert_ne by done. apply Hs.
Qed.

Lemma mutate_written_through fid f s :
  written_through s →
  written_through (mutate fid f s).2
  ∧ (mutate fid f s).1 = f <$> state_files s !! fid
  ∧ state_files (mutate fid f s).2 = alter f fid (state_files s).
Proof.
  intros Hs. unfold mutate.
  destruct (get_state_written_through fid s Hs) as (Hg & Hw & Hf).
  destruct (get_state fid s) as [[st|] s'] eqn:Hget; cbn in Hg, Hw, Hf.
  - destruct (store_written_through fid (f st) s' Hw) as [Hw' Hf'].
    cbn. split_and!; [done|by rewrite <- Hg|].
    rewrite Hf', Hf. apply map_eq. intros f'.
    destruct (decide (f' = fid)) as [->|Hne].
    + rewrite lookup_insert_eq, lookup_alter_eq, <- Hg. done.
    + by rewrite lookup_insert_ne, lookup_alter_ne.
  - cbn. split_and!; [done|by rewrite <- Hg|].
    rewrite Hf. apply map_eq. intros f'.
    destruct (decide (f' = fid)) as [->|Hne].
    + by rewrite lookup_alter_eq, <- Hg.
    + by rewrite lookup_alter_ne.
Qed.

Lemma delete_state_written_through fid s :
  written_through s → written_through (delete_state fid s).2.
Proof.
  intros Hs f st. cbn. destruct (decide (f = fid)) as [->|Hne].
  - by rewrite lookup_delete_eq.
  - rewrite !lookup_delete_ne by done. apply Hs.
Qed.

Lemma list_all_states_fold (l : list string) :
  ∀ acc s,
    written_through s →
    let r := foldl (fun '(states, s) file_id =>
                      match get_state file_id s with
                      | (Some state, s) => (states ++ [summary state], s)
                      | (None, s) => (states, s)
                      end) (acc, s) l in
    r.1 = acc ++ omap (fun file_id => summary <$> state_files s !! file_id) l
    ∧ written_through r.2
    ∧ state_files r.2 = state_files s
    ∧ (∀ fid, _states r.2 !! fid =
              if decide (fid ∈ l) then state_files s !! fid else _states s !! fid).
Proof.
  induction l as [|fid l IH]; intros acc s Hs.
  - cbn. split_and!; [by rewrite app_nil_r|done|done|].
    intros fid. by rewrite decide_False by apply not_elem_of_nil.
  - cbn [foldl]. destruct (get_state_written_through fid s Hs) as (Hg & Hw & Hf).
    assert (∀ f, _states (get_state fid s).2 !! f =
                 if decide (f = fid) then state_files s !! f else _states s !! f) as Hc.
    { intros f. unfold get_state, _load_state.
      destruct (_states s !! fid) as [st|] eqn:Hcache.
      - cbn. case_decide as Hd; [subst f|done]. rewrite Hcache. symmetry. by apply Hs.
      - destruct (state_files s !! fid) as [st|] eqn:Hfile; cbn.
        + case_decide as Hd; [subst f|].
          * by rewrite lookup_insert_eq.
          * by rewrite lookup_insert_ne.
        + case_decide as Hd; [subst f|done]. by rewrite Hcache, Hfile. }
    destruct (get_state fid s) as [[st|] s'] eqn:Hget; cbn in Hg, Hw, Hf, Hc.
    + destruct (IH (acc ++ [summary st]) s' Hw) as (Hr & Hw' & Hf' & Hc').
      cbv zeta. split_and!.
      * rewrite Hr, Hf. simpl. rewrite <- Hg. simpl. by rewrite <- app_assoc.
      * done.
      * by rewrite Hf'.
      * intros f. rewrite Hc', Hf, Hc.
        destruct (decide (f = fid)) as [->|Hne].
        -- rewrite (decide_True (P := fid ∈ fid :: l)) by left.
           by destruct (decide (fid ∈ l)).
        -- destruct (decide (f ∈ l)) as [Hin|Hnin].
           ++ by rewrite decide_True by (by right).
           ++ rewrite decide_False; [done|]. by intros [?|?]%elem_of_cons.
    + destruct (IH acc s' Hw) as (Hr & Hw' & Hf' & Hc').
      cbv zeta. split_and!.
      * rewrite Hr, Hf. simpl. by rewrite <- Hg.
      * done.
      * by rewrite Hf'.
      * intros f. rewrite Hc', Hf, Hc.
        destruct (decide (f = fid)) as [->|Hne].
        -- rewrite (decide_True (P := fid ∈ fid :: l)) by left.
           by destruct (decide (fid ∈ l)).
        -- destruct (decide (f ∈ l)) as [Hin|Hnin].
           ++ by rewrite decide_True by (by right).
           ++ rewrite decide_False; [done|]. by intros [?|?]%elem_of_cons.
Qed.

Lemma serve_written_through r s :
  written_through s → written_through (serve r s).
Proof.
  intros Hs. destruct r as [fid st|fid|fid f|fid|glob]; cbn [serve].
  - by apply store_written_through.
  - by apply get_state_written_through.
  - by apply mutate_written_through.
  - by apply delete_state_written_through.
  - unfold list_all_states. by apply list_all_states_fold.
Qed.

Lemma serve_all_written_through rs :
  ∀ s, written_through s → written_through (foldl (fun s r => serve r s) s rs).
Proof.
  induction rs as [|r rs IH]; intros s Hs; [done|].
  cbn. apply IH. by apply serve_written_through.
Qed.

Lemma serve_as_map r s :
  written_through s → state_files (serve r s) = as_map r (state_files s).
Proof.
  intros Hs. destruct r as [fid st|fid|fid f|fid|glob]; cbn [serve as_map].
  - by apply store_written_through.
  - by apply get_state_written_through.
  - by apply mutate_written_through.
  - done.
  - unfold list_all_states. by apply list_all_states_fold.
Qed.

(** X10. The cache and the state files of the state manager act as one
    map from file ids to records. Starting from a cache that holds only
    what the files hold, after any sequence of stores by
    [initialize_state], [get_state]s, mutators, [delete_state]s and
    [list_all_states]: every cached record is the one in its file, the
    files are what the same requests make of a plain map (insert, change
    where present, delete), and [get_state] returns what the file
    holds. *)
Theorem state_manager_is_one_map (requests : list Request) s :
  written_through s →
  let s' := foldl (fun s r => serve r s) s requests in
  written_through s'
  ∧ state_files s' = foldl (fun m r => as_map r m) (state_files s) requests
  ∧ ∀ file_id, (get_state file_id s').1 = state_files s' !! file_id.
Proof.
  intros Hs. cbv zeta.
  assert (written_through (foldl (fun s r => serve r s) s requests)
          ∧ state_files (foldl (fun s r => serve r s) s requests)
            = foldl (fun m r => as_map r m) (state_files s) requests) as [Hw Hf].
  { revert s Hs. induction requests as [|r requests IH]; intros s Hs; [done|].
    cbn [foldl]. destruct (IH (serve r s)) as [Hw Hf].
    - by apply serve_written_through.
    - split; [done|]. by rewrite Hf, serve_as_map. }
  split_and!; [done|done|].
  intros file_id. by apply get_state_written_through.
Qed.

(** X11. No state is lost when the process is restarted: after any
    sequence of requests, the state manager with its cache emptied and
    its files kept returns from [get_state] what it returned before. *)
Theorem state_survives_a_restart (requests : list Request) s file_id :
  written_through s →
  let s' := foldl (fun s r => serve r s) s requests in
  (get_state file_id (restart s')).1 = (get_state file_id s').1.
Proof.
  intros Hs. cbv zeta.
  pose proof (serve_all_written_through requests s Hs) as Hw.
  destruct (get_state_written_through file_id _ Hw) as (-> & _).
  assert (written_through (restart (foldl (fun s r => serve r s) s requests))) as Hr.
  { intros f st. cbn. by rewrite lookup_empty. }
  by destruct (get_state_written_through file_id _ Hr) as (-> & _).
Qed.

Lemma omap_lookup_keys {A B} (g : A → B) (m : gmap string A) (l : list (string * A)) :
  (∀ k v, (k, v) ∈ l → m !! k = Some v) →
  omap (fun k => g <$> m !! k) l.*1 = g <$> l.*2.
Proof.
  induction l as [|[k v] l IH]; intros Hl; [done|].
  cbn. rewrite (Hl k v) by left. cbn. f_equal. apply IH.
  intros k' v' Hin. apply Hl. by right.
Qed.

(** X12. With a cache that holds only what the files hold,
    [list_all_states] returns the summary of every state file, none left
    out and none twice, and it leaves every one of these records in the
    cache. *)
Theorem list_all_states_lists_every_file glob s :
  (∀ m, glob m ≡ₚ (map_to_list m).*1) →
  written_through s →
  let r := list_all_states glob s in
  r.1 ≡ₚ summary <$> (map_to_list (state_files s)).*2
  ∧ _states r.2 = state_files s
  ∧ state_files r.2 = state_files s.
Proof.
  intros Hglob Hs. cbv zeta. unfold list_all_states.
  destruct (list_all_states_fold (glob (state_files s)) [] s Hs) as (Hr & _ & Hf & Hc).
  split_and!.
  - rewrite Hr. cbn [app]. rewrite Hglob.
    rewrite (omap_lookup_keys summary (state_files s) (map_to_list (state_files s))); [done|].
    intros k v. apply elem_of_map_to_list.
  - apply map_eq. intros fid. rewrite Hc.
    case_decide as Hin; [done|].
    destruct (_states s !! fid) as [st|] eqn:Hcache.
    + symmetry. by apply Hs.
    + destruct (state_files s !! fid) as [st|] eqn:Hfile; [|done].
      destruct Hin. rewrite Hglob. apply list_elem_of_fmap.
      exists (fid, st). split; [done|]. by apply elem_of_map_to_list.
  - done.
Qed.

End Persistence.

(** ** pdf_service.py: uploading and deleting *)

Section Files.
Import ProcessingState.

Lemma elem_of_extracted (total_pages p : Z) :
  p ∈ (list_to_set ((fun page_num => page_num + 1) <$> seqZ 0 total_pages) : gset Z)
  ↔ 1 ≤ p ≤ total_pages.
Proof.
  rewrite elem_of_list_to_set, list_elem_of_fmap. split.
  - intros (i & -> & Hi). apply elem_of_seqZ in Hi. lia.
  - intros Hp. exists (p - 1). split; [lia|]. apply elem_of_seqZ. lia.
Qed.

Lemma size_extracted (total_pages : Z) :
  0 ≤ total_pages →
  Z.of_nat (size (list_to_set ((fun page_num => page_num + 1) <$> seqZ 0 total_pages)
                    : gset Z)) = total_pages.
Proof.
  intros Hn. rewrite size_list_to_set.
  - rewrite length_fmap, length_seqZ. lia.
  - apply NoDup_fmap_2; [intros x y; lia|]. apply NoDup_seqZ.
Qed.

(** X13. Uploading a PDF of [total_pages] pages under a fresh id extracts
    exactly the page images [1..total_pages]: the response carries the id
    and the page count, [get_total_pages] agrees with it, the content is
    stored as [original.pdf], and neither the files of another document
    nor any output image or state is touched. *)
Theorem upload_extracts_every_page file_id filename total_pages w :
  uploads w !! file_id = None →
  0 ≤ total_pages →
  ∃ response w',
    PDFService.upload_and_process file_id filename (inr total_pages) w = Ok response w'
    ∧ PDFService.total_pages response = total_pages
    ∧ PDFService.file_id response = file_id
    ∧ PDFService.get_total_pages file_id w' = total_pages
    ∧ (∀ p, PDFService.get_page_image_path file_id p w' = true ↔ 1 ≤ p ≤ total_pages)
    ∧ PDFService.file_exists file_id w' = true
    ∧ PDFService.original_pdf_name file_id w' = "original.pdf"
    ∧ (∀ fid', fid' ≠ file_id → uploads w' !! fid' = uploads w !! fid')
    ∧ outputs w' = outputs w ∧ states w' = states w.
Proof.
  intros Hfresh Hn. eexists _, _. split; [reflexivity|].
  cbn [PDFService.total_pages PDFService.file_id].
  unfold PDFService.get_total_pages, PDFService.get_page_image_path,
    PDFService.file_exists, PDFService.original_pdf_name, PDFService._extract_pages.
  cbn [uploads set_uploads set_original_pdf original_pdf outputs states].
  rewrite !lookup_insert_eq. cbn [default]. rewrite Hfresh. cbn [default].
  rewrite union_empty_r_L.
  split_and!; try done.
  - by apply size_extracted.
  - intros p. rewrite bool_decide_eq_true. apply elem_of_extracted.
  - rewrite bool_decide_eq_true_2; [done|]. set_solver.
  - intros fid' Hne. by rewrite !lookup_insert_ne.
Qed.

(** X14. When PyMuPDF cannot open the uploaded content, its exception
    leaves [upload_and_process] with the directory of the new id and its
    [original.pdf] made and not removed; for a fresh id the directory
    holds no page image. *)
Theorem failed_upload_leaves_its_directory file_id filename e w :
  ∃ w',
    PDFService.upload_and_process file_id filename (inl e) w = Raise (Exception e) w'
    ∧ PDFService.file_exists file_id w' = true
    ∧ file_id ∈ original_pdf w'
    ∧ (uploads w !! file_id = None → PDFService.get_total_pages file_id w' = 0).
Proof.
  eexists. split; [reflexivity|].
  unfold PDFService.file_exists, PDFService.get_total_pages.
  cbn [uploads set_uploads set_original_pdf original_pdf].
  rewrite !lookup_insert_eq. split_and!.
  - by rewrite bool_decide_eq_true_2.
  - set_solver.
  - intros ->. cbn. by rewrite size_empty.
Qed.

Lemma world_ext (w w' : World) :
  states w = states w' → saved w = saved w' → uploads w = uploads w' →
  original_pdf w = original_pdf w' → outputs w = outputs w' → tasks w = tasks w' →
  next_task w = next_task w' → finished w = finished w' → cancelled w = cancelled w' →
  pause_signals w = pause_signals w' → stop_signals w = stop_signals w' →
  auto_run w = auto_run w' → events w = events w' → calls w = calls w' →
  w = w'.
Proof. destruct w, w'. cbn. by intros -> -> -> -> -> -> -> -> -> -> -> -> -> ->. Qed.

(** X15. [delete_file] undoes an upload: for an id that had no upload
    directory, no original and no output image, deleting after
    [upload_and_process], whether that returned or raised, gives back the
    files and everything else as they were. *)
Theorem delete_file_undoes_upload file_id filename pdf w :
  uploads w !! file_id = None →
  file_id ∉ original_pdf w →
  (∀ p, (file_id, p) ∉ outputs w) →
  PDFService.delete_file file_id
    (world_of (PDFService.upload_and_process file_id filename pdf w)) = w.
Proof.
  intros Hup Hpdf Hout.
  assert (filter (fun x : string * Z => x.1 ≠ file_id) (outputs w) = outputs w) as Ho.
  { apply set_eq. intros [fid p]. rewrite elem_of_filter. cbn. split; [by intros [_ ?]|].
    intros Hin. split; [|done]. intros ->. by apply (Hout p). }
  assert (({[file_id]} ∪ original_pdf w) ∖ {[file_id]} = original_pdf w) as Hp.
  { apply set_eq. intros fid. rewrite elem_of_difference, elem_of_union, elem_of_singleton.
    split; [by intros [[->|?] ?]|]. intros Hin. split; [by right|]. by intros ->. }
  assert (∀ pages : gset Z, delete file_id (<[file_id:=pages]> (uploads w)) = uploads w)
    as Hu.
  { intros pages. by rewrite delete_insert_eq, delete_id. }
  destruct pdf as [e|total_pages]; unfold PDFService.upload_and_process; unfold_monad;
    cbn [world_of]; unfold PDFService.delete_file, PDFService._extract_pages;
    apply world_ext;
    cbn [states saved uploads original_pdf outputs tasks next_task finished cancelled
         pause_signals stop_signals auto_run events calls
         set_outputs set_original_pdf set_uploads];
    rewrite ?insert_insert_eq; done.
Qed.

End Files.

(** ** routes.py: the other handlers *)

Section Handlers.
Import ProcessingState.

(** X16. The control handlers answer [success: True] whatever the engine
    returns. [POST /pause] for a document without a task, and
    [POST /continue], [/retry-batch] and [/trust-and-run] for a document
    that is not paused, answer success with the state as it was and
    change nothing (trust-and-run: nothing but the auto-run flag, which
    it sets); [PATCH /prompt] for a document without a state answers
    [Prompt updated successfully] with no state. *)
Theorem refused_commands_are_answered_with_success file_id w :
  (tasks w !! file_id = None →
     Routes.pause_processing file_id Routes.PAUSE w
     = (Routes.Answer "Processing paused" (states w !! file_id), w))
  ∧ (BatchProcessor.is_paused file_id w = false →
       Routes.continue_processing file_id Routes.CONTINUE w
       = (Routes.Answer "Processing continued" (states w !! file_id), w)
       ∧ Routes.retry_batch file_id Routes.RETRY_BATCH w
         = (Routes.Answer "Retrying current batch" (states w !! file_id), w)
       ∧ Routes.trust_and_run file_id Routes.TRUST_AND_RUN w
         = (Routes.Answer "Processing will continue without pauses" (states w !! file_id),
            set_auto_run (BatchProcessor.add file_id) w))
  ∧ (states w !! file_id = None →
       ∀ prompt, Routes.update_prompt file_id prompt w
                 = (Routes.Answer "Prompt updated successfully" None, w)).
Proof.
  split_and!.
  - intros Hnone. unfold Routes.pause_processing, BatchProcessor.pause_processing.
    cbn. by rewrite Hnone.
  - intros Hp. split_and!.
    + unfold Routes.continue_processing, BatchProcessor.continue_processing.
      cbn. by rewrite Hp.
    + unfold Routes.retry_batch, BatchProcessor.retry_current_batch.
      cbn. by rewrite Hp.
    + unfold Routes.trust_and_run, BatchProcessor.trust_and_run,
        BatchProcessor.continue_processing.
      assert (BatchProcessor.is_paused file_id
                (set_auto_run (BatchProcessor.add file_id) w) = false) as -> by done.
      done.
  - intros Hnone prompt. unfold Routes.update_prompt, StateManager.update_prompt,
      StateManager.mutate, StateManager.get_state. rewrite Hnone. cbn. by rewrite Hnone.
Qed.

End Handlers.

Section Lifecycle.
Import ProcessingState.

(** X17. After [DELETE /file/<id>] the document is gone: its status is
    reported as not found, its images are not served, [POST /start] fails
    with [File <id> not found or has no pages], continue and retry are
    refused. The engine is not told: the task, the signals and the
    auto-run flag of the document stay as they were. The other documents
    keep their state and their files. *)
Theorem deleted_document_is_gone file_id w :
  let w' := (Routes.delete_file file_id w).2 in
  Routes.get_status file_id w'
  = Routes.mkStatusResponse false None "No processing state found for this file"
  ∧ (∀ p, Routes.get_colorized_image file_id p w' = None
          ∧ Routes.get_original_image file_id p w' = None)
  ∧ (∀ step_size prompt,
       1 ≤ step_size ≤ 50 →
       Routes.start_processing file_id step_size prompt w'
       = (Routes.ServerError ("File " +:+ file_id +:+ " not found or has no pages"), w'))
  ∧ BatchProcessor.continue_processing file_id w' = (false, w')
  ∧ BatchProcessor.retry_current_batch file_id w' = (false, w')
  ∧ (tasks w' = tasks w ∧ finished w' = finished w ∧ cancelled w' = cancelled w
     ∧ pause_signals w' = pause_signals w ∧ stop_signals w' = stop_signals w
     ∧ auto_run w' = auto_run w)
  ∧ (∀ fid', fid' ≠ file_id →
       states w' !! fid' = states w !! fid'
       ∧ uploads w' !! fid' = uploads w !! fid'
       ∧ ∀ p, (fid', p) ∈ outputs w' ↔ (fid', p) ∈ outputs w).
Proof.
  cbv zeta. unfold Routes.delete_file. cbn [snd].
  set (w' := PDFService.delete_file file_id (StateManager.delete_state file_id w)).
  assert (states w' !! file_id = None) as Hstate.
  { unfold w', PDFService.delete_file, StateManager.delete_state. cbn.
    apply lookup_delete_eq. }
  assert (uploads w' !! file_id = None) as Hup.
  { unfold w', PDFService.delete_file, StateManager.delete_state. cbn.
    apply lookup_delete_eq. }
  assert (BatchProcessor.is_paused file_id w' = false) as Hp.
  { unfold BatchProcessor.is_paused, StateManager.get_state. by rewrite Hstate. }
  split_and!; try done.
  - unfold Routes.get_status, StateManager.get_state. by rewrite Hstate.
  - intros p. split.
    + unfold Routes.get_colorized_image. rewrite bool_decide_eq_false_2; [done|].
      unfold w', PDFService.delete_file. cbn. rewrite elem_of_filter. cbn. by intros [? _].
    + unfold Routes.get_original_image, PDFService.get_page_image_path. by rewrite Hup.
  - intros step_size prompt Hstep. unfold Routes.start_processing.
    rewrite bool_decide_eq_true_2 by done. cbn [negb].
    unfold StateManager.initialize_state. unfold_monad.
    unfold PDFService.get_total_pages. rewrite Hup. by rewrite decide_True.
  - unfold BatchProcessor.continue_processing. by rewrite Hp.
  - unfold BatchProcessor.retry_current_batch. by rewrite Hp.
  - intros fid' Hne. unfold w', PDFService.delete_file, StateManager.delete_state. cbn.
    split_and!.
    + by rewrite lookup_delete_ne.
    + by rewrite lookup_delete_ne.
    + intros p. rewrite elem_of_filter. cbn. naive_solver.
Qed.

(** X18. A document uploaded under a fresh id with at least one page can
    be started at once: [POST /start] with a step size in 1..50 succeeds,
    stores the state laid out in batches with status [PROCESSING],
    registers a new task, tells the observers [Processing started] and
    leaves no signal and no auto-run flag set for the document. *)
Theorem uploaded_document_can_be_started file_id filename total_pages step_size prompt w :
  uploads w !! file_id = None →
  1 ≤ total_pages →
  1 ≤ step_size ≤ 50 →
  BatchProcessor.task_active file_id w = false →
  ∃ response w1 state w2,
    PDFService.upload_and_process file_id filename (inr total_pages) w = Ok response w1
    ∧ Routes.start_processing (PDFService.file_id response) step_size prompt w1
      = (Routes.Success state, w2)
    ∧ states w2 !! file_id = Some state
    ∧ state = StateManager.with_status ProcessingStatus.PROCESSING None
                (StateManager.initial_state file_id "original.pdf" total_pages step_size
                   prompt)
    ∧ batch_layout state total_pages step_size
    ∧ tasks w2 !! file_id = Some (next_task w)
    ∧ events w2 = MsgStatus file_id "processing" "Processing started" :: events w
    ∧ (file_id ∉ pause_signals w2) ∧ (file_id ∉ stop_signals w2)
    ∧ (file_id ∉ auto_run w2).
Proof.
  intros Hfresh Htp Hstep Hidle.
  eexists _, _. eexists _, _. split; [reflexivity|].
  cbn [PDFService.file_id].
  set (w1 := PDFService._extract_pages _ _ _).
  assert (PDFService.get_total_pages file_id w1 = total_pages) as Htotal.
  { unfold w1, PDFService.get_total_pages, PDFService._extract_pages.
    cbn [uploads set_uploads set_original_pdf].
    rewrite !lookup_insert_eq. cbn [default]. rewrite Hfresh. cbn [default].
    rewrite union_empty_r_L. apply size_extracted. lia. }
  assert (PDFService.original_pdf_name file_id w1 = "original.pdf") as Hname.
  { unfold w1, PDFService.original_pdf_name. cbn.
    rewrite bool_decide_eq_true_2; [done|]. set_solver. }
  unfold Routes.start_processing. rewrite bool_decide_eq_true_2 by done. cbn [negb].
  unfold StateManager.initialize_state. unfold_monad. rewrite Htotal.
  rewrite decide_False by lia. rewrite decide_False by lia. cbv beta. rewrite Hname.
  set (state0 := StateManager.initial_state _ _ _ _ _).
  set (w2 := StateManager._save_state _ _).
  assert (states w2 !! file_id = Some state0) as Hst.
  { unfold w2, StateManager._save_state. cbn. rewrite lookup_insert_eq. cbn.
    by rewrite lookup_insert_eq. }
  assert (BatchProcessor.task_active file_id w2 = false) as Hidle2.
  { rewrite <- Hidle. unfold w2, StateManager._save_state. cbn.
    by rewrite lookup_insert_eq. }
  unfold BatchProcessor.start_processing. rewrite Hidle2. cbn [snd].
  unfold StateManager.update_status.
  rewrite (mutate_Some _ _ _ state0) by done.
  unfold deref. clear Hst Hidle2 Htotal Hname. subst w2 state0 w1.
  split; [reflexivity|].
  unfold StateManager._save_state.
  cbn [states set_states set_saved set_auto_run set_stop_signals set_pause_signals
       set_tasks set_next_task set_events tasks events pause_signals stop_signals auto_run
       BatchProcessor.create_task send_status_update emit next_task
       PDFService._extract_pages set_uploads set_original_pdf].
  rewrite !lookup_insert_eq.
  cbn [states set_states set_saved set_auto_run set_stop_signals set_pause_signals
       set_tasks set_next_task set_events tasks events pause_signals stop_signals auto_run
       next_task set_uploads set_original_pdf].
  rewrite ?lookup_insert_eq.
  split_and!; try done.
  - exact (initial_state_layout file_id "original.pdf" total_pages step_size prompt
             ltac:(lia) ltac:(lia)).
  - unfold BatchProcessor.discard. set_solver.
  - unfold BatchProcessor.discard. set_solver.
  - unfold BatchProcessor.discard. set_solver.
Qed.

End Lifecycle.

(** ** batch_processor.py: a document with nothing left to do *)

Section Finished.
Context (gemini : Gemini).
Import ProcessingState.

Lemma batch_loop_nothing_to_do env tid fid st w :
  states w !! fid = Some st →
  fid ∉ stop_signals w →
  ∀ nums state,
    Forall (fun n => workable st n = false) nums →
    batch_loop gemini env tid fid state nums w = Ok true w.
Proof.
  intros Hst Hstop. induction nums as [|n nums IH]; intros state Hall; [done|].
  apply Forall_cons in Hall as [Hn Hall]. cbn [batch_loop]. unfold_monad.
  rewrite (process_batch_number_skip gemini env tid fid state n w st) by done.
  by apply IH.
Qed.

(** X19. An undisturbed unit of work on a document with nothing left to
    do (no batch from [current_batch] on that is not [COMPLETED]) and no
    stop requested calls no transformation and touches no page: all it
    does is set the status to [COMPLETED] and send the [completed]
    message. *)
Theorem finished_document_is_not_processed_again tid fid w st :
  states w !! fid = Some st →
  fid ∉ stop_signals w →
  next_batch st = None →
  _process_file gemini quiet tid fid w
  = emit (MsgStatus fid "completed" "All pages processed")
      (StateManager.update_status fid ProcessingStatus.COMPLETED None w).
Proof.
  intros Hst Hstop Hnext. unfold _process_file, process_file_body. unfold_monad.
  unfold StateManager.get_state. rewrite Hst.
  rewrite (batch_loop_nothing_to_do quiet tid fid st w Hst Hstop).
  - unfold send, suspend, quiet. unfold_monad. cbn [interfere foldl].
    by case_decide.
  - apply Forall_forall. intros n Hn. unfold next_batch in Hnext.
    eapply find_none in Hnext; [exact Hnext|]. by apply list_elem_of_In.
Qed.

End Finished.

(** ** The output images of the completed pages *)

Section Images.
Import ProcessingState.

Lemma record_kept_initial fid fname tp step prompt :
  1 ≤ step → record_kept (StateManager.initial_state fid fname tp step prompt).
Proof.
  intros Hstep. split.
  - split; [apply NoDup_nil_2|]. apply Forall_forall. intros bi Hbi. simpl in Hbi.
    apply list_elem_of_fmap in Hbi as (i & -> & _). by split.
  - intros i j bi bj p Hi Hj Hci Hcj. simpl in Hi, Hj.
    rewrite list_lookup_fmap in Hi, Hj.
    destruct (seqZ _ _ !! i) as [x|] eqn:Hx; [|done].
    destruct (seqZ _ _ !! j) as [y|] eqn:Hy; [|done].
    injection Hi as <-. injection Hj as <-.
    apply lookup_seqZ in Hx as [-> _]. apply lookup_seqZ in Hy as [-> _].
    apply bool_decide_eq_true in Hci, Hcj. simpl in Hci, Hcj.
    assert (∀ a b : Z, Z.min a b ≤ a) as Hmin by (intros; lia).
    pose proof (Hmin ((0 + Z.of_nat i + 1) * step) tp).
    pose proof (Hmin ((0 + Z.of_nat j + 1) * step) tp).
    assert (Z.of_nat i = Z.of_nat j) by nia. lia.
Qed.

Lemma record_kept_mutated m st : record_kept st → record_kept (mutated m st).
Proof.
  intros [Hrec Hd]. destruct m as [s e|pr|page|n s pu| |n]; simpl.
  - done.
  - done.
  - split; [by apply well_kept_page_marked|].
    apply ranges_disjoint_update_first; [by intros b|done].
  - split; [by apply well_kept_batch_status_set|].
    apply ranges_disjoint_update_first; [by intros b|done].
  - unfold StateManager.advanced. by case_decide.
  - split; [by apply well_kept_batch_cleared|].
    unfold StateManager.batch_cleared. case_match; [|done].
    apply ranges_disjoint_update_first; [by intros b|done].
Qed.

(** A change that leaves the records and removes no output image. *)
Lemma images_kept_frame w w' :
  states w' = states w →
  (∀ x, x ∈ outputs w → x ∈ outputs w') →
  images_kept w → images_kept w'.
Proof.
  intros Hs Ho Hw fid st Hst. rewrite ?Hs in Hst. destruct (Hw fid st Hst) as [Hk Hp].
  split; [done|]. intros p Hin. by apply Ho, Hp.
Qed.

(** A mutator that adds no completed page. *)
Lemma images_kept_mutate fid (m : Mutation) w :
  (∀ st p, p ∈ completed_pages (mutated m st) → p ∈ completed_pages st) →
  images_kept w → images_kept (StateManager.mutate fid (mutated m) w).
Proof.
  intros Hsub Hw. destruct (states w !! fid) as [st|] eqn:Hst.
  - rewrite (mutate_Some _ _ _ st) by done. intros fid' st' Hst'. cbn in Hst'.
    destruct (decide (fid' = fid)) as [->|Hne].
    + rewrite lookup_insert_eq in Hst'. injection Hst' as <-.
      destruct (Hw fid st Hst) as [Hk Hp]. split; [by apply record_kept_mutated|].
      intros p Hin. cbn. by apply Hp, Hsub.
    + rewrite lookup_insert_ne in Hst' by done. destruct (Hw fid' st' Hst') as [Hk Hp].
      split; [done|]. intros p Hin. cbn. by apply Hp.
  - by rewrite mutate_None.
Qed.

Lemma images_kept_update_status fid s e w :
  images_kept w → images_kept (StateManager.update_status fid s e w).
Proof. apply (images_kept_mutate fid (SetStatus s e)). by intros st p. Qed.

Lemma images_kept_update_prompt fid prompt w :
  images_kept w → images_kept (StateManager.update_prompt fid prompt w).
Proof. apply (images_kept_mutate fid (SetPrompt prompt)). by intros st p. Qed.

Lemma images_kept_update_batch_status fid n s p w :
  images_kept w → images_kept (StateManager.update_batch_status fid n s p w).
Proof. apply (images_kept_mutate fid (SetBatchStatus n s p)). by intros st q. Qed.

Lemma images_kept_advance_batch fid w :
  images_kept w → images_kept (StateManager.advance_batch fid w).
Proof.
  apply (images_kept_mutate fid Advance). intros st p. cbn.
  unfold StateManager.advanced. by case_decide.
Qed.

(** The image is saved before the page is marked. *)
Lemma images_kept_page_done fid page w :
  images_kept w →
  images_kept (StateManager.mark_page_complete fid page
                 (PDFService.save_colorized_image fid page w)).
Proof.
  intros Hw. set (w1 := PDFService.save_colorized_image fid page w).
  assert (states w1 = states w) as Hs by done.
  assert (∀ x, x ∈ outputs w1 ↔ x = (fid, page) ∨ x ∈ outputs w) as Ho.
  { intros x. unfold w1, PDFService.save_colorized_image. cbn. set_solver. }
  unfold StateManager.mark_page_complete.
  destruct (states w1 !! fid) as [st|] eqn:Hst.
  - rewrite (mutate_Some _ _ _ st) by done. intros fid' st' Hst'. cbn in Hst'.
    destruct (decide (fid' = fid)) as [->|Hne].
    + rewrite lookup_insert_eq in Hst'. injection Hst' as <-.
      rewrite ?Hs in Hst. destruct (Hw fid st Hst) as [Hk Hp].
      split; [exact (record_kept_mutated (MarkPage page) st Hk)|].
      intros p Hin. cbn in Hin |- *. apply elem_of_append_sorted in Hin as [->|Hin].
      * apply Ho. by left.
      * apply Ho. right. by apply Hp.
    + rewrite lookup_insert_ne in Hst' by done. rewrite ?Hs in Hst'.
      destruct (Hw fid' st' Hst') as [Hk Hp]. split; [done|].
      intros p Hin. cbn. apply Ho. right. by apply Hp.
  - rewrite mutate_None by done. apply (images_kept_frame w); [done| |done].
    intros x Hx. apply Ho. by right.
Qed.

(** Retry deletes the images of the range and takes the pages of the
    batch out of the record. *)
Lemma images_kept_retry fid st bi w :
  states w !! fid = Some st →
  StateManager.find_batch (current_batch st) (batches st) = Some bi →
  images_kept w →
  images_kept (StateManager.reset_batch fid (current_batch st)
                 (PDFService.delete_batch_images fid (BatchInfo.start_page bi)
                    (BatchInfo.end_page bi) w)).
Proof.
  intros Hst Hfind Hw.
  set (w1 := PDFService.delete_batch_images _ _ _ w).
  assert (states w1 = states w) as Hs by done.
  unfold StateManager.reset_batch. rewrite (mutate_Some _ _ _ st) by by rewrite Hs.
  intros fid' st' Hst'. cbn in Hst'.
  destruct (decide (fid' = fid)) as [->|Hne].
  - rewrite lookup_insert_eq in Hst'. injection Hst' as <-.
    destruct (Hw fid st Hst) as [Hk Hp].
    split; [exact (record_kept_mutated (ResetBatch (current_batch st)) st Hk)|].
    intros p Hin. cbn. unfold StateManager.batch_cleared in Hin. rewrite Hfind in Hin.
    cbn in Hin. destruct Hk as [Hrec Hd].
    apply elem_of_remove_all in Hin as [Hin Hnot]; [|by destruct Hrec].
    apply elem_of_delete_batch_images. split; [by apply Hp|].
    intros [_ Hrange]. apply Hnot.
    apply pages_recorded_lookup in Hrec as [_ Hbatches].
    apply find_batch_lookup in Hfind as (i & Hi & _).
    destruct (Hbatches i bi Hi) as [_ Hall]. apply Hall; [done|].
    unfold StateManager.covers. by apply bool_decide_eq_true.
  - rewrite lookup_insert_ne in Hst' by done. rewrite ?Hs in Hst'.
    destruct (Hw fid' st' Hst') as [Hk Hp]. split; [done|].
    intros p Hin. cbn. apply elem_of_delete_batch_images. split; [by apply Hp|].
    by intros [? _].
Qed.

Lemma images_kept_continue fid w :
  images_kept w → images_kept (BatchProcessor.continue_processing fid w).2.
Proof.
  intros Hw. unfold BatchProcessor.continue_processing. case_match; [done|].
  cbn [snd]. eapply images_kept_frame; [| |apply (images_kept_update_status fid
    ProcessingStatus.PROCESSING None (set_pause_signals (BatchProcessor.discard fid) w))];
    [done|done|].
  by apply (images_kept_frame w).
Qed.

Lemma images_kept_run_command c w :
  images_kept w → images_kept (run_command c w).
Proof.
  intros Hw. destruct c as [fid|fid|fid|fid|fid|fid|fid prompt]; cbn [run_command].
  - unfold BatchProcessor.start_processing. case_match; [done|]. cbn [snd].
    eapply images_kept_frame; [| |apply (images_kept_update_status fid
      ProcessingStatus.PROCESSING None
      (set_auto_run (BatchProcessor.discard fid)
         (set_stop_signals (BatchProcessor.discard fid)
            (set_pause_signals (BatchProcessor.discard fid) w))))]; [done|done|].
    by apply (images_kept_frame w).
  - unfold BatchProcessor.pause_processing. case_match; [|done]. cbn [snd].
    by apply (images_kept_frame w).
  - by apply images_kept_continue.
  - unfold BatchProcessor.stop_processing. cbn [snd].
    eapply images_kept_frame; [| |apply images_kept_update_status]; [done|done|].
    case_match; [case_match|]; by apply (images_kept_frame w).
  - unfold BatchProcessor.retry_current_batch. case_match; [done|].
    unfold StateManager.get_state.
    destruct (states w !! fid) as [st|] eqn:Hst; [|done].
    destruct (StateManager.find_batch _ _) as [bi|] eqn:Hfind; [|done].
    apply images_kept_continue. by apply images_kept_retry.
  - unfold BatchProcessor.trust_and_run. apply images_kept_continue.
    by apply (images_kept_frame w).
  - by apply images_kept_update_prompt.
Qed.

Lemma images_kept_interfere cs :
  ∀ w, images_kept w → images_kept (interfere cs w).
Proof.
  induction cs as [|c cs IH]; intros w Hw; [done|].
  cbn. apply IH. by apply images_kept_run_command.
Qed.

Lemma keeps_images_ret {A} (a : A) : keeps_images (mret a).
Proof. by intros w Hw. Qed.

Lemma keeps_images_raise {A} e : keeps_images (raise (A:=A) e).
Proof. by intros w Hw. Qed.

Lemma keeps_images_bind {A B} (m : M A) (k : A → M B) :
  keeps_images m → (∀ a, keeps_images (k a)) → keeps_images (x ← m; k x).
Proof.
  intros Hm Hk w Hw. unfold_monad. specialize (Hm w Hw).
  destruct (m w) as [a w'|e w']; cbn in Hm |- *; [by apply Hk|done].
Qed.

Lemma keeps_images_gets {A} (g : World → A) : keeps_images (gets g).
Proof. by intros w Hw. Qed.

Lemma keeps_images_modify (g : World → World) :
  (∀ w, images_kept w → images_kept (g w)) → keeps_images (modify g).
Proof. intros Hg w Hw. by apply Hg. Qed.

Section Unit.
Context (gemini : Gemini) (env : Schedule).

Lemma keeps_images_suspend tid pt : keeps_images (suspend env tid pt).
Proof.
  intros w Hw. unfold suspend. unfold_monad. cbn.
  case_decide; by apply images_kept_interfere.
Qed.

Lemma keeps_images_send tid m : keeps_images (send env tid m).
Proof.
  unfold send. apply keeps_images_bind; [|intros; apply keeps_images_suspend].
  apply keeps_images_modify. intros w Hw. by apply (images_kept_frame w).
Qed.

Lemma keeps_images_process_page tid fid prompt bn tp state p :
  keeps_images (process_page gemini env tid fid prompt bn tp state p).
Proof.
  unfold process_page.
  apply keeps_images_bind; [apply keeps_images_gets|]. intros [|]; [apply keeps_images_ret|].
  apply keeps_images_bind; [apply keeps_images_gets|]. intros st.
  case_decide; [apply keeps_images_ret|].
  apply keeps_images_bind; [apply keeps_images_gets|]. intros [|]; cbn [negb].
  - apply keeps_images_bind.
    { unfold send_progress_update. case_decide;
        [apply keeps_images_raise|apply keeps_images_send]. }
    intros _. apply keeps_images_bind.
    { unfold colorize_image. apply keeps_images_bind.
      - apply keeps_images_modify. intros w Hw. by apply (images_kept_frame w).
      - intros _. apply keeps_images_bind; [apply keeps_images_suspend|].
        intros _. apply keeps_images_ret. }
    intros [|error].
    + intros w Hw. unfold_monad.
      pose proof (images_kept_page_done fid p w Hw) as Hdone.
      set (w2 := StateManager.mark_page_complete fid p _) in *.
      pose proof (keeps_images_send tid (MsgPageComplete fid p) w2 Hdone) as Hsent.
      destruct (send env tid (MsgPageComplete fid p) w2) as [[] w3|e w3]; [|done].
      cbn in Hsent. by destruct (StateManager.get_state fid w3).
    + apply keeps_images_bind; [apply keeps_images_send|]. intros _. apply keeps_images_ret.
  - apply keeps_images_bind; [apply keeps_images_send|]. intros _. apply keeps_images_ret.
Qed.

Lemma keeps_images_page_loop tid fid prompt bn tp pages :
  ∀ state, keeps_images (page_loop gemini env tid fid prompt bn tp state pages).
Proof.
  induction pages as [|p pages IH]; intros state; cbn [page_loop]; [apply keeps_images_ret|].
  apply keeps_images_bind; [apply keeps_images_process_page|].
  intros [state'|b]; [apply IH|apply keeps_images_ret].
Qed.

Lemma keeps_images_process_batch tid fid sp ep prompt bn :
  keeps_images (_process_batch gemini env tid fid sp ep prompt bn).
Proof.
  unfold _process_batch. apply keeps_images_bind; [apply keeps_images_gets|].
  intros [state|]; [apply keeps_images_page_loop|apply keeps_images_ret].
Qed.

Lemma keeps_images_process_batch_number tid fid state n :
  keeps_images (process_batch_number gemini env tid fid state n).
Proof.
  unfold process_batch_number.
  apply keeps_images_bind; [apply keeps_images_gets|]. intros [|].
  { apply keeps_images_bind; [|intros; apply keeps_images_ret].
    apply keeps_images_modify. intros w Hw. by apply (images_kept_frame w). }
  apply keeps_images_bind; [apply keeps_images_gets|]. intros st.
  destruct (StateManager.find_batch n (batches st)) as [bi|]; [|apply keeps_images_ret].
  case_decide; [apply keeps_images_ret|].
  apply keeps_images_bind; [apply keeps_images_gets|]. intros st1.
  apply keeps_images_bind.
  { apply keeps_images_modify. intros w. apply images_kept_update_batch_status. }
  intros _. apply keeps_images_bind; [apply keeps_images_gets|]. intros st2.
  apply keeps_images_bind; [apply keeps_images_process_batch|]. intros [|]; cbn [negb].
  - apply keeps_images_bind.
    { apply keeps_images_modify. intros w. apply images_kept_update_batch_status. }
    intros _. apply keeps_images_bind; [apply keeps_images_send|]. intros _.
    apply keeps_images_bind; [apply keeps_images_gets|]. intros st3.
    case_decide.
    + apply keeps_images_bind.
      { apply keeps_images_modify. intros w. apply images_kept_update_status. }
      intros _. apply keeps_images_bind; [apply keeps_images_send|]. intros _.
      apply keeps_images_ret.
    + apply keeps_images_bind.
      { apply keeps_images_modify. intros w. apply images_kept_advance_batch. }
      intros _. apply keeps_images_bind; [apply keeps_images_gets|]. intros auto.
      case_decide.
      * apply keeps_images_bind.
        { apply keeps_images_modify. intros w. apply images_kept_update_status. }
        intros _. apply keeps_images_bind; [apply keeps_images_send|]. intros _.
        apply keeps_images_ret.
      * apply keeps_images_bind; [apply keeps_images_gets|].
        intros [st4|]; apply keeps_images_ret.
  - apply keeps_images_bind; [apply keeps_images_gets|]. intros [|].
    + apply keeps_images_bind; [|intros; apply keeps_images_ret].
      apply keeps_images_modify. intros w Hw. by apply (images_kept_frame w).
    + apply keeps_images_bind.
      { apply keeps_images_modify. intros w. apply images_kept_update_batch_status. }
      intros _. apply keeps_images_bind; [apply keeps_images_send|]. intros _.
      apply keeps_images_ret.
Qed.

Lemma keeps_images_batch_loop tid fid nums :
  ∀ state, keeps_images (batch_loop gemini env tid fid state nums).
Proof.
  induction nums as [|n nums IH]; intros state; cbn [batch_loop]; [apply keeps_images_ret|].
  apply keeps_images_bind; [apply keeps_images_process_batch_number|].
  intros [state'|]; [apply IH|apply keeps_images_ret].
Qed.

Lemma images_kept_process_file tid fid w :
  images_kept w → images_kept (_process_file gemini env tid fid w).
Proof.
  intros Hw.
  assert (keeps_images (process_file_body gemini env tid fid)) as Hbody.
  { unfold process_file_body. apply keeps_images_bind; [apply keeps_images_gets|].
    intros [state|]; [|apply keeps_images_ret].
    apply keeps_images_bind; [apply keeps_images_batch_loop|].
    intros [|]; [|apply keeps_images_ret].
    apply keeps_images_bind; [|intros; apply keeps_images_send].
    apply keeps_images_modify. intros w'. apply images_kept_update_status. }
  unfold _process_file. specialize (Hbody w Hw).
  destruct (process_file_body gemini env tid fid w) as [[] w'|[|msg] w']; cbn in Hbody;
    [done|done|].
  apply keeps_images_send. by apply images_kept_update_status.
Qed.

End Unit.

(** X20. A page recorded complete has its output image, and this is
    never lost: if in every document the record is consistent and every
    completed page has its image, the same holds after a unit of work
    under any schedule, after every control command, after
    [POST /start], after [DELETE /file] and after an upload; and
    [GET /image] serves the image of every completed page. *)
Theorem completed_pages_keep_their_output_images gemini env w :
  images_kept w →
  (∀ tid fid, images_kept (run_task gemini env tid fid w))
  ∧ (∀ c, images_kept (run_command c w))
  ∧ (∀ fid step_size prompt, images_kept (Routes.start_processing fid step_size prompt w).2)
  ∧ (∀ fid, images_kept (Routes.delete_file fid w).2)
  ∧ (∀ fid filename pdf,
       images_kept (world_of (PDFService.upload_and_process fid filename pdf w)))
  ∧ (∀ fid st p,
       states w !! fid = Some st → p ∈ completed_pages st →
       Routes.get_colorized_image fid p w = Some (fid, p)).
Proof.
  intros Hw. split_and!.
  - intros tid fid. unfold run_task.
    apply (images_kept_frame
             (if decide (tid ∈ cancelled w) then w else _process_file gemini env tid fid w));
      [done|done|].
    case_decide; [done|]. by apply images_kept_process_file.
  - intros c. by apply images_kept_run_command.
  - intros fid step_size prompt. unfold Routes.start_processing.
    case_match; [done|]. apply negb_false_iff, bool_decide_eq_true in H.
    unfold StateManager.initialize_state. unfold_monad.
    case_decide; [done|]. case_decide; [done|]. cbn [snd].
    apply (images_kept_run_command (CmdStart fid)).
    unfold StateManager._save_state. cbn. rewrite lookup_insert_eq.
    intros fid' st'. cbn. destruct (decide (fid' = fid)) as [->|Hne].
    + rewrite lookup_insert_eq. intros [= <-].
      split; [|intros p Hp; cbn in Hp; by apply elem_of_nil in Hp].
      apply record_kept_initial. lia.
    + rewrite lookup_insert_ne by done. apply Hw.
  - intros fid. unfold Routes.delete_file, PDFService.delete_file,
      StateManager.delete_state. cbn.
    intros fid' st'. cbn. destruct (decide (fid' = fid)) as [->|Hne].
    + by rewrite lookup_delete_eq.
    + rewrite lookup_delete_ne by done. intros Hst'.
      destruct (Hw fid' st' Hst') as [Hk Hp]. split; [done|].
      intros p Hin. apply elem_of_filter. split; [by cbn|by apply Hp].
  - intros fid filename pdf. unfold PDFService.upload_and_process. unfold_monad.
    destruct pdf as [e|n]; by apply (images_kept_frame w).
  - intros fid st p Hst Hin. unfold Routes.get_colorized_image.
    rewrite bool_decide_eq_true_2; [done|]. by apply (Hw fid st Hst).
Qed.

End Images.

(** ** state_manager.py: the shape of a record *)

Section Shape.
Import ProcessingState.

Lemma update_first_frame (P : BatchInfo.t → bool) (f : BatchInfo.t → BatchInfo.t) bs :
  (∀ b, batch_frame (f b) = batch_frame b) →
  batch_frame <$> update_first P f bs = batch_frame <$> bs.
Proof.
  intros Hf. induction bs as [|b bs IH]; [done|].
  cbn [update_first]. destruct (P b); cbn; [by rewrite Hf|]. f_equal. exact IH.
Qed.

Lemma record_frame_mutated m st : record_frame (mutated m st) = record_frame st.
Proof.
  destruct m as [s e|pr|page|n s pu| |n]; cbn [mutated]; try done.
  - unfold record_frame, StateManager.page_marked. cbn. by rewrite update_first_frame.
  - unfold record_frame, StateManager.batch_status_set. cbn. by rewrite update_first_frame.
  - unfold StateManager.advanced. by case_decide.
  - unfold StateManager.batch_cleared. case_match; [|done].
    unfold record_frame. cbn. by rewrite update_first_frame.
Qed.

Lemma Sorted_append_sorted p l : Sorted Z.le l → Sorted Z.le (append_sorted p l).
Proof.
  intros Hl. unfold append_sorted. case_decide; [done|].
  apply (Sorted_merge_sort Z.le).
Qed.

Lemma Sorted_list_remove x l : Sorted Z.le l → Sorted Z.le (list_remove x l).
Proof.
  intros Hl. apply StronglySorted_Sorted. apply Sorted_StronglySorted in Hl; [|apply _].
  induction Hl as [|y l Hl IH Hall]; cbn [list_remove]; [constructor|].
  case_decide; [done|]. constructor; [done|].
  apply Forall_forall. intros z Hz. rewrite Forall_forall in Hall. apply Hall.
  clear -Hz. induction l as [|a l IHl]; cbn [list_remove] in Hz; [done|].
  case_decide; [by right|]. apply elem_of_cons in Hz as [->|Hz]; [by left|].
  right. by apply IHl.
Qed.

Lemma Sorted_remove_all ys : ∀ l,
  Sorted Z.le l → Sorted Z.le (foldl (fun pages page => list_remove page pages) l ys).
Proof.
  induction ys as [|y ys IH]; intros l Hl; [done|].
  cbn. apply IH. by apply Sorted_list_remove.
Qed.

Lemma Forall_update_first {A} (Q : A → Prop) (P : A → bool) (f : A → A) (l : list A) :
  (∀ b, Q b → Q (f b)) → Forall Q l → Forall Q (update_first P f l).
Proof.
  intros Hf. induction 1 as [|b l Hb Hl IH]; cbn [update_first]; [done|].
  destruct (P b); constructor; auto.
Qed.

Lemma pages_ascending_mutated m st : pages_ascending st → pages_ascending (mutated m st).
Proof.
  intros [Hdoc Hbs]. destruct m as [s e|pr|page|n s pu| |n]; cbn [mutated].
  - done.
  - done.
  - split; cbn.
    + by apply Sorted_append_sorted.
    + apply Forall_update_first; [|done]. intros b Hb. cbn. by apply Sorted_append_sorted.
  - split; cbn; [done|]. apply Forall_update_first; [|done]. by intros b Hb.
  - unfold StateManager.advanced. by case_decide.
  - unfold StateManager.batch_cleared. case_match; [|done]. split; cbn.
    + by apply Sorted_remove_all.
    + apply Forall_update_first; [|done]. intros b Hb. cbn. constructor.
Qed.

Lemma current_batch_mutated m st :
  total_batches (mutated m st) = total_batches st
  ∧ current_batch st ≤ current_batch (mutated m st)
  ∧ current_batch (mutated m st) ≤ Z.max (current_batch st) (total_batches st).
Proof.
  destruct m as [s e|pr|page|n s pu| |n]; cbn [mutated]; try (cbn; lia).
  - unfold StateManager.advanced. case_decide; cbn; lia.
  - unfold StateManager.batch_cleared. case_match; cbn; lia.
Qed.

Lemma mutations_keep_shape (ms : list Mutation) :
  ∀ st,
    1 ≤ current_batch st →
    record_kept st → pages_ascending st →
    let st' := foldl (fun st m => mutated m st) st ms in
    record_frame st' = record_frame st
    ∧ 1 ≤ current_batch st' ≤ Z.max (current_batch st) (total_batches st)
    ∧ record_kept st' ∧ pages_ascending st'.
Proof.
  induction ms as [|m ms IH]; intros st Hc Hk Ha.
  - cbn. split_and!; try done. lia.
  - cbn [foldl]. cbv zeta.
    destruct (current_batch_mutated m st) as (Ht' & Hlo & Hhi).
    destruct (IH (mutated m st)) as (Hf & Hc' & Hk' & Ha').
    + lia.
    + by apply record_kept_mutated.
    + by apply pages_ascending_mutated.
    + split; [by rewrite Hf, record_frame_mutated|]. split; [|done].
      rewrite Ht' in Hc'. lia.
Qed.

(** X21. Whatever mutators of the state manager are applied to a freshly
    initialised record, in any order and with any arguments, the record
    keeps its shape: file id, name, page count, step size, number of
    batches and the number and range of every batch never change;
    [current_batch] stays between 1 and the number of batches; no page is
    recorded twice, a batch records only pages of its own range and the
    ranges are disjoint; the lists of completed pages stay in ascending
    order. *)
Theorem mutations_keep_the_record_in_shape fid fname tp step prompt (ms : list Mutation) :
  1 ≤ step →
  let st0 := StateManager.initial_state fid fname tp step prompt in
  let st := foldl (fun st m => mutated m st) st0 ms in
  record_frame st = record_frame st0
  ∧ 1 ≤ current_batch st ≤ Z.max 1 (total_batches st0)
  ∧ pages_recorded st
  ∧ ranges_disjoint (batches st)
  ∧ pages_ascending st.
Proof.
  intros Hstep. cbv zeta.
  destruct (mutations_keep_shape ms (StateManager.initial_state fid fname tp step prompt))
    as (Hf & Hc & [Hrec Hd] & Ha).
  - cbn. lia.
  - by apply record_kept_initial.
  - split; [constructor|]. cbn. apply Forall_forall. intros b Hb.
    apply list_elem_of_fmap in Hb as (i & -> & _). constructor.
  - change (current_batch (StateManager.initial_state fid fname tp step prompt)) with 1 in Hc.
    destruct Hc. by split_and!.
Qed.

(** X22. [mark_page_complete] is idempotent: marking a page a second time
    changes nothing of the record, and after marking a page the completed
    pages are that page and those that were complete before. *)
Theorem mark_page_complete_is_idempotent page st :
  StateManager.page_marked page (StateManager.page_marked page st)
  = StateManager.page_marked page st
  ∧ (∀ p, p ∈ completed_pages (StateManager.page_marked page st) ↔
          p = page ∨ p ∈ completed_pages st).
Proof.
  assert (∀ l, append_sorted page (append_sorted page l) = append_sorted page l) as Hidem.
  { intros l. unfold append_sorted at 1. rewrite decide_True; [done|].
    apply elem_of_append_sorted. by left. }
  split; [|intros p; apply elem_of_append_sorted].
  unfold StateManager.page_marked, StateManager.with_pages. cbn. rewrite Hidem. f_equal.
  induction (batches st) as [|b bs IH]; [done|].
  cbn [update_first]. destruct (StateManager.covers page b) eqn:Hc.
  - cbn [update_first]. assert (StateManager.covers page
        (StateManager.batch_with_pages (append_sorted page (BatchInfo.completed_pages b)) b)
        = true) as -> by done.
    unfold StateManager.batch_with_pages. cbn. by rewrite Hidem.
  - cbn [update_first]. rewrite Hc. by rewrite IH.
Qed.

End Shape.

(** ** A document reviewed batch by batch *)

Section Review.
Context (gemini : Gemini).
Import ProcessingState.

Lemma find_batch_made tp step n (len : nat) : ∀ a,
  a ≤ n - 1 < a + Z.of_nat len →
  StateManager.find_batch n (StateManager.make_batch tp step <$> seqZ a (Z.of_nat len))
  = Some (StateManager.make_batch tp step (n - 1)).
Proof.
  induction len as [|len IH]; intros a Ha; [lia|].
  rewrite seqZ_cons by lia. cbn [fmap list_fmap].
  unfold StateManager.find_batch. cbn [find].
  unfold StateManager.has_number at 1. cbn [BatchInfo.batch_number StateManager.make_batch].
  destruct (decide (a + 1 = n)) as [Heq|Hne].
  - rewrite bool_decide_eq_true_2 by done. do 2 f_equal. lia.
  - rewrite bool_decide_eq_false_2 by done.
    replace (Z.pred (Z.of_nat (S len))) with (Z.of_nat len) by lia.
    apply IH. lia.
Qed.

Lemma bare_skeleton_eq n st st' : skeleton st' = skeleton st → bare n st' = bare n st.
Proof.
  intros H. apply (f_equal batches) in H. unfold skeleton in H. cbn in H.
  unfold bare. by rewrite <- !find_batch_fmap, H.
Qed.

Lemma bare_control_step_ne n k auto st :
  n ≠ k → bare n (control_step k auto st) = bare n st.
Proof.
  intros Hne. unfold bare. f_equal.
  assert (∀ s pu st', StateManager.find_batch n
                        (batches (StateManager.batch_status_set k s pu st'))
                      = StateManager.find_batch n (batches st')) as Hset.
  { intros s pu st'. cbn. by apply find_batch_update_first_ne. }
  unfold control_step. cbv zeta.
  repeat case_match; cbn [batches StateManager.with_status];
    rewrite ?batches_advanced, !Hset; done.
Qed.

Lemma bare_found n st b :
  bare n st = Some b →
  ∃ bi, StateManager.find_batch n (batches st) = Some bi
        ∧ BatchInfo.start_page bi = BatchInfo.start_page b
        ∧ BatchInfo.end_page bi = BatchInfo.end_page b
        ∧ BatchInfo.status bi = BatchInfo.status b.
Proof.
  unfold bare. destruct (StateManager.find_batch n (batches st)) as [bi|]; [|done].
  intros [= <-]. by exists bi.
Qed.

Lemma pages_so_far step tp k p :
  1 ≤ step → 1 ≤ tp → 1 ≤ k ≤ ceil_div tp step →
  (1 ≤ p ≤ Z.min ((k - 1) * step) tp
   ∨ (k - 1) * step + 1 ≤ p < (k - 1) * step + 1 + (Z.min (k * step) tp + 1 - ((k - 1) * step + 1)))
  ↔ 1 ≤ p ≤ Z.min (k * step) tp.
Proof.
  intros Hstep Htp Hk.
  destruct (ceil_div_least tp step ltac:(lia)) as [Hup Hlo].
  assert ((k - 1) * step ≤ (ceil_div tp step - 1) * step) by nia.
  assert (0 ≤ (k - 1) * step) by nia.
  assert (k * step = (k - 1) * step + step) by lia.
  lia.
Qed.

Lemma last_batch_ends step tp :
  1 ≤ step → 1 ≤ tp → Z.min (ceil_div tp step * step) tp = tp.
Proof. intros Hstep Htp. destruct (ceil_div_least tp step ltac:(lia)). lia. Qed.

Lemma ceil_div_pos step tp : 1 ≤ step → 1 ≤ tp → 1 ≤ ceil_div tp step.
Proof. intros Hstep Htp. destruct (ceil_div_least tp step ltac:(lia)). nia. Qed.

(** One round of the review. *)
Lemma review_round fid prompt step tp w0 k w :
  1 ≤ step → 1 ≤ tp →
  1 ≤ k ≤ ceil_div tp step →
  under_review gemini fid prompt step tp w0 k w →
  ∃ tid, tasks w !! fid = Some tid
    ∧ let w1 := run_task gemini quiet tid fid w in
      if decide (k = ceil_div tp step)
      then BatchProcessor.is_paused fid w1 = false
           ∧ reviewed gemini fid prompt step tp w0 w1
      else BatchProcessor.is_paused fid w1 = true
           ∧ under_review gemini fid prompt step tp w0 (k + 1)
               (Routes.continue_processing fid Routes.CONTINUE w1).2.
Proof.
  intros Hstep Htp Hk [(st & Hst & Hcb & Htb & Htps & Hpr & Hpend & Hdone & Hpages)
                         Himg Hstop Hauto (tid & Htask & Hnc) Hfresh].
  exists tid. split; [done|]. cbv zeta.
  destruct (bare_found _ _ _ (Hpend k ltac:(lia))) as (bi & Hfind & Hsp & Hep & Hbs).
  cbn in Hsp, Hep, Hbs.
  assert (next_batch st = Some k) as Hnext.
  { unfold next_batch, batch_numbers. rewrite Hcb, Htb, seqZ_cons by lia. cbn [find].
    unfold workable. rewrite Hfind, Hbs. by rewrite bool_decide_eq_true_2. }
  destruct (process_file_first gemini tid fid w st k bi Hst Hstop Hnc ltac:(lia) Hnext Hfind)
    as (flow & w1 & Hpost & _ & Hflow).
  pose proof (bp_engine _ _ _ _ _ _ _ _ Hpost) as Hse.
  destruct (bp_state _ _ _ _ _ _ _ _ Hpost) as (st' & Hst' & Hsk & Hcp & Hfl).
  destruct (batch_post_state_facts _ _ _ _ _ _ _ _ _ Hpost Hst' Hfind)
    as (Htb' & Htp' & Hpr' & Hs' & Hcb' & Hk' & Hother).
  rewrite (bool_decide_eq_false_2 _ Hauto) in *.
  assert (flow = ReturnFromFile) as -> by (rewrite Hfl; by case_decide).
  unfold run_task. destruct (decide (tid ∈ cancelled w)) as [|_]; [done|].
  rewrite Hflow. clear Hflow.
  assert (∀ p, p ∈ completed_pages st' ↔
               1 ≤ p ≤ Z.min (k * step) tp ∧ colorizable gemini fid prompt w0 p) as Hpages'.
  { intros p. rewrite Hcp, Hpages, Hpr. unfold batch_range. rewrite Hsp, Hep, elem_of_seqZ.
    pose proof (pages_so_far step tp k p Hstep Htp Hk) as Hsf.
    unfold colorizable. rewrite (Himg p). tauto. }
  assert (∀ n, 1 ≤ n < k + 1 → batch_status_of n st' = Some BatchStatus.COMPLETED) as Hdone'.
  { intros n Hn. destruct (decide (n = k)) as [->|Hne]; [done|].
    rewrite Hother by done. apply Hdone. lia. }
  destruct (decide (k = ceil_div tp step)) as [Hlast|Hlast].
  - assert (status st' = ProcessingStatus.COMPLETED) as Hstatus.
    { rewrite Hs'. unfold control_step. cbv zeta. rewrite decide_True by lia. done. }
    split.
    + unfold BatchProcessor.is_paused, StateManager.get_state. cbn. rewrite Hst', Hstatus.
      done.
    + exists st'. split_and!; try done.
      * intros n Hn. apply Hdone'. lia.
      * intros p. rewrite Hpages', Hlast, last_batch_ends by done. done.
      * unfold BatchProcessor.task_active. cbn. rewrite (se_tasks _ _ Hse), Htask.
        rewrite bool_decide_eq_false_2; [done|]. intros Hn. apply Hn.
        apply elem_of_union_l. by apply elem_of_singleton.
  - assert (status st' = ProcessingStatus.PAUSED) as Hstatus.
    { rewrite Hs'. unfold control_step. cbv zeta. rewrite decide_False by lia. done. }
    assert (current_batch st' = k + 1) as Hcur.
    { rewrite Hcb', control_step_current_batch by lia. rewrite decide_True by lia. lia. }
    assert (BatchProcessor.is_paused fid (set_finished (union {[tid]}) w1) = true) as Hp.
    { unfold BatchProcessor.is_paused, StateManager.get_state. cbn. rewrite Hst', Hstatus.
      done. }
    split; [done|].
    unfold Routes.continue_processing. rewrite decide_False by (intros ?; done).
    cbn [snd]. unfold BatchProcessor.continue_processing. rewrite Hp. cbn [negb snd].
    unfold StateManager.update_status.
    rewrite (mutate_Some _ _ _ st') by done.
    unfold BatchProcessor.create_task, send_status_update, emit.
    constructor; cbn.
    + exists (StateManager.with_status ProcessingStatus.PROCESSING None st').
      rewrite lookup_insert_eq. split_and!; try done; try (cbn; congruence).
      * intros n Hn.
        change (bare n (StateManager.with_status ProcessingStatus.PROCESSING None st'))
          with (bare n st').
        rewrite (bare_skeleton_eq _ _ _ Hsk), bare_control_step_ne by lia.
        apply Hpend. lia.
      * intros p. rewrite Hpages'. by replace (k + 1 - 1) with k by lia.
    + intros p. rewrite <- Himg. exact (same_engine_image fid p w w1 Hse).
    + by rewrite (se_stop_signals _ _ Hse).
    + by rewrite (se_auto_run _ _ Hse).
    + exists (next_task w1). rewrite lookup_insert_eq. split; [done|].
      rewrite (se_cancelled _ _ Hse), (se_next_task _ _ Hse). intros Hin.
      apply Hfresh in Hin. lia.
    + intros t. rewrite (se_cancelled _ _ Hse), (se_next_task _ _ Hse). intros Hin.
      apply Hfresh in Hin. lia.
Qed.

Lemma review_rounds fid prompt step tp w0 :
  1 ≤ step → 1 ≤ tp →
  ∀ (m : nat) k w,
    Z.of_nat m = ceil_div tp step - k →
    1 ≤ k →
    under_review gemini fid prompt step tp w0 k w →
    reviewed gemini fid prompt step tp w0 (review gemini (S m) fid w).
Proof.
  intros Hstep Htp. induction m as [|m IH]; intros k w Hm Hk Hur.
  - destruct (review_round fid prompt step tp w0 k w Hstep Htp ltac:(lia) Hur)
      as (tid & Htask & Hround).
    cbv zeta in Hround. rewrite decide_True in Hround by lia.
    destruct Hround as [Hp Hrev].
    cbn [review]. rewrite Htask. cbv zeta. by rewrite Hp.
  - destruct (review_round fid prompt step tp w0 k w Hstep Htp ltac:(lia) Hur)
      as (tid & Htask & Hround).
    cbv zeta in Hround. rewrite decide_False in Hround by lia.
    destruct Hround as [Hp Hnext].
    change (review gemini (S (S m)) fid w) with
      (match tasks w !! fid with
       | None => w
       | Some tid =>
           let w := run_task gemini quiet tid fid w in
           if BatchProcessor.is_paused fid w
           then review gemini (S m) fid
                  (Routes.continue_processing fid Routes.CONTINUE w).2
           else w
       end).
    rewrite Htask. cbv zeta. rewrite Hp.
    apply (IH (k + 1)); [lia|lia|done].
Qed.

Lemma started_under_review fid step prompt w :
  1 ≤ step ≤ 50 →
  1 ≤ PDFService.get_total_pages fid w →
  BatchProcessor.task_active fid w = false →
  (∀ t, t ∈ cancelled w → (t < next_task w)%nat) →
  under_review gemini fid prompt step (PDFService.get_total_pages fid w) w 1
    (Routes.start_processing fid step prompt w).2.
Proof.
  intros Hstep Htp Hidle Hfresh.
  set (tp := PDFService.get_total_pages fid w) in *.
  unfold Routes.start_processing. rewrite bool_decide_eq_true_2 by done. cbn [negb].
  unfold StateManager.initialize_state. unfold_monad. fold tp.
  rewrite decide_False by lia. rewrite decide_False by lia. cbv beta.
  set (state0 := StateManager.initial_state _ _ _ _ _).
  set (w2 := StateManager._save_state _ _).
  assert (states w2 !! fid = Some state0) as Hst.
  { unfold w2, StateManager._save_state. cbn. rewrite lookup_insert_eq. cbn.
    by rewrite lookup_insert_eq. }
  assert (BatchProcessor.task_active fid w2 = false) as Hidle2.
  { rewrite <- Hidle. unfold w2, StateManager._save_state. cbn.
    by rewrite lookup_insert_eq. }
  unfold BatchProcessor.start_processing. rewrite Hidle2. cbn [snd].
  unfold StateManager.update_status.
  rewrite (mutate_Some _ _ _ state0) by done.
  unfold BatchProcessor.create_task, send_status_update, emit.
  assert (uploads w2 = uploads w ∧ cancelled w2 = cancelled w ∧ next_task w2 = next_task w)
    as (Hup & Hcan & Hnt).
  { unfold w2, StateManager._save_state. cbn. by rewrite lookup_insert_eq. }
  constructor; cbn.
  - exists (StateManager.with_status ProcessingStatus.PROCESSING None state0).
    rewrite lookup_insert_eq. split_and!; try done.
    + cbn. apply floor_formula_is_ceil. lia.
    + intros n Hn. unfold bare. cbn [batches StateManager.with_status state0].
      unfold state0, StateManager.initial_state. cbn [batches].
      rewrite floor_formula_is_ceil by lia.
      pose proof (ceil_div_pos step tp ltac:(lia) ltac:(lia)) as Hpos.
      rewrite <- (Z2Nat.id (ceil_div tp step)) at 1 by lia.
      rewrite find_batch_made by lia. cbn.
      unfold StateManager.batch_with_pages. cbn.
      by replace (n - 1 + 1) with n by lia.
    + intros n Hn. lia.
    + intros p. cbn. split; [by intros ?%elem_of_nil|]. lia.
  - intros p. unfold PDFService.get_page_image_path. cbn. by rewrite Hup.
  - unfold BatchProcessor.discard. unfold w2, StateManager._save_state. cbn.
    case_match; cbn; intros [_ Hn]%elem_of_difference; apply Hn;
      by apply elem_of_singleton.
  - unfold BatchProcessor.discard. unfold w2, StateManager._save_state. cbn.
    case_match; cbn; intros [_ Hn]%elem_of_difference; apply Hn;
      by apply elem_of_singleton.
  - exists (next_task w2). rewrite lookup_insert_eq. split; [done|].
    rewrite Hcan, Hnt. intros Hin. apply Hfresh in Hin. lia.
  - intros t. rewrite Hcan, Hnt. intros Hin. apply Hfresh in Hin. lia.
Qed.

(** X23. A document that is started and continued after every pause gets
    completed. With at least one page image, a step size in 1..50, no
    active task and nothing else arriving, [POST /start] followed by as
    many rounds of task and [POST /continue] as there are batches ends
    with status [COMPLETED], every batch [COMPLETED] and no active task;
    the completed pages are then exactly the pages of
    [1..total_pages] whose image exists and whose transformation
    succeeds. *)
Theorem reviewing_every_batch_completes_the_document fid step prompt w :
  1 ≤ step ≤ 50 →
  1 ≤ PDFService.get_total_pages fid w →
  BatchProcessor.task_active fid w = false →
  (∀ t, t ∈ cancelled w → (t < next_task w)%nat) →
  let tp := PDFService.get_total_pages fid w in
  let started := (Routes.start_processing fid step prompt w).2 in
  let w' := review gemini (Z.to_nat (ceil_div tp step)) fid started in
  ∃ st,
    states w' !! fid = Some st
    ∧ status st = ProcessingStatus.COMPLETED
    ∧ (∀ n, 1 ≤ n ≤ ceil_div tp step → batch_status_of n st = Some BatchStatus.COMPLETED)
    ∧ (∀ p, p ∈ completed_pages st ↔ 1 ≤ p ≤ tp ∧ colorizable gemini fid prompt w p)
    ∧ BatchProcessor.task_active fid w' = false.
Proof.
  intros Hstep Htp Hidle Hfresh. cbv zeta.
  pose proof (ceil_div_pos step _ ltac:(lia) Htp) as Hpos.
  pose proof (started_under_review fid step prompt w Hstep Htp Hidle Hfresh) as Hur.
  replace (Z.to_nat (ceil_div (PDFService.get_total_pages fid w) step))
    with (S (Z.to_nat (ceil_div (PDFService.get_total_pages fid w) step - 1))) by lia.
  apply (review_rounds fid prompt step _ w ltac:(lia) Htp
           (Z.to_nat (ceil_div (PDFService.get_total_pages fid w) step - 1)) 1);
    [lia|lia|exact Hur].
Qed.

End Review.

(** * More scenarios checked *)

Section MoreScenarios.
Import ProcessingState.

Lemma subscription_sets_witness :
  (∀ websocket file_id,
     no_empty_sets (ConnectionManager.connect websocket file_id two_observers))
  ∧ (∀ websocket file_id,
       no_empty_sets (ConnectionManager.disconnect websocket file_id two_observers))
  ∧ (∀ file_id message,
       no_empty_sets
         (ConnectionManager.send_to_file severed_2 elements file_id message two_observers).2)
  ∧ (∀ message,
       no_empty_sets (ConnectionManager.broadcast severed_2 elements message two_observers).2).
Proof.
  apply (subscription_sets_are_never_empty severed_2 elements two_observers). compute_done.
Defined.

Lemma disconnect_undoes_connect_witness :
  subscribed 3 (Some "doc") (ConnectionManager.connect 3 (Some "doc") two_observers)
  ∧ ConnectionManager.disconnect 3 (Some "doc")
      (ConnectionManager.connect 3 (Some "doc") two_observers) = two_observers.
Proof.
  apply (disconnect_undoes_connect 3 (Some "doc") two_observers); [compute_done|].
  unfold subscribed. simpl. compute_done.
Defined.

Lemma broadcast_witness :
  let r := ConnectionManager.broadcast severed_2 elements paused_notice two_observers in
  NoDup r.1
  ∧ (∀ c, (c, paused_notice) ∈ r.1 ↔
          known c two_observers ∧ severed_2 c paused_notice = true)
  ∧ ConnectionManager.active_connections r.2
    = ConnectionManager.active_connections two_observers
  ∧ (∀ c, c ∈ ConnectionManager.global_connections r.2 ↔
          c ∈ ConnectionManager.global_connections two_observers
          ∧ severed_2 c paused_notice = true).
Proof.
  apply (broadcast_reaches_every_connection_once severed_2 elements paused_notice
           two_observers).
  intros s. reflexivity.
Defined.

Lemma send_to_file_unsubscribes_witness :
  let m' := (ConnectionManager.send_to_file (fun _ _ => false) elements "doc" paused_notice
               two_observers).2 in
  (∀ fid', fid' ≠ "doc" →
     ConnectionManager.active_connections m' !! fid'
     = ConnectionManager.active_connections two_observers !! fid')
  ∧ (∀ c, c ∈ subscribers "doc" m' ↔ c ∈ subscribers "doc" two_observers ∧ false = true)
  ∧ (∀ c, c ∈ ConnectionManager.global_connections m' →
          c ∈ ConnectionManager.global_connections two_observers)
  ∧ (∀ c, c ∈ ConnectionManager.global_connections two_observers → false = true →
          c ∈ ConnectionManager.global_connections m').
Proof.
  apply (send_to_file_unsubscribes_failed_observers (fun _ _ => false) elements "doc"
           paused_notice two_observers); [|done].
  intros s. reflexivity.
Defined.

Lemma send_to_file_global_cleanup_witness :
  let m' := (ConnectionManager.send_to_file severed_2 elements "doc" paused_notice
               two_observers).2 in
  ((∃ c, c ∈ subscribers "doc" two_observers ∧ severed_2 c paused_notice = true) →
     ConnectionManager.global_connections m'
     = ConnectionManager.global_connections two_observers)
  ∧ (ConnectionManager.active_connections two_observers !! "doc" = None →
       ∀ c, c ∈ ConnectionManager.global_connections m' ↔
            c ∈ ConnectionManager.global_connections two_observers
            ∧ severed_2 c paused_notice = true).
Proof.
  apply (send_to_file_global_cleanup severed_2 elements "doc" paused_notice two_observers);
    [|done].
  intros s. reflexivity.
Defined.

Lemma send_to_file_once_witness :
  let delivered := (ConnectionManager.send_to_file severed_2 elements "doc" paused_notice
                      two_observers).1 in
  NoDup delivered
  ∧ ∀ c, (c, paused_notice) ∈ delivered ↔
         c ∈ ConnectionManager.audience "doc" two_observers
         ∧ severed_2 c paused_notice = true.
Proof.
  apply (send_to_file_once severed_2 elements "doc" paused_notice two_observers).
  intros s. reflexivity.
Defined.

Lemma colorize_image_first_image_witness :
  let o := GeminiService.colorize_image third_time_lucky (Some "key") (inr "bytes")
             "colour it" 3 in
  GeminiService.success o = true
  ∧ GeminiService.colorized_image o = Some "png"
  ∧ GeminiService.error o = None
  ∧ GeminiService.attempts o = seqZ 0 (2 + 1).
Proof.
  apply (colorize_image_returns_the_first_image third_time_lucky (Some "key") "bytes"
           "colour it" 3 2 "png"); [done|lia| |done].
  intros j Hj result. assert (j = 0 ∨ j = 1) as [->| ->] by lia; done.
Defined.

Lemma colorize_image_gives_up_witness :
  let o := GeminiService.colorize_image always_down (Some "key") (inr "bytes")
             "colour it" 3 in
  GeminiService.success o = false
  ∧ GeminiService.attempts o = seqZ 0 3
  ∧ GeminiService.error o
    = Some ("Colorization failed after " +:+ pretty 3 +:+ " attempts: "
            +:+ GeminiService.str_of_error
                  (last_raised always_down "bytes" (GeminiService.full_prompt "colour it")
                     None (seqZ 0 3))).
Proof.
  apply (colorize_image_gives_up_after_max_retries always_down (Some "key") "bytes"
           "colour it" 3); [done|].
  intros j _ result. done.
Defined.

Lemma state_manager_is_one_map_witness :
  let s' := foldl (fun s r => StateStore.serve r s) fresh_store some_requests in
  written_through s'
  ∧ StateStore.state_files s'
    = foldl (fun m r => as_map r m) (StateStore.state_files fresh_store) some_requests
  ∧ ∀ file_id, (StateStore.get_state file_id s').1 = StateStore.state_files s' !! file_id.
Proof.
  apply (state_manager_is_one_map some_requests fresh_store).
  intros file_id state H. done.
Defined.

Lemma state_survives_a_restart_witness :
  let s' := foldl (fun s r => StateStore.serve r s) fresh_store some_requests in
  (StateStore.get_state "doc" (StateStore.restart s')).1 = (StateStore.get_state "doc" s').1.
Proof.
  apply (state_survives_a_restart some_requests fresh_store "doc").
  intros file_id state H. done.
Defined.

Lemma list_all_states_witness :
  let r := StateStore.list_all_states listing restarted_store in
  r.1 ≡ₚ StateStore.summary <$> (map_to_list (StateStore.state_files restarted_store)).*2
  ∧ StateStore._states r.2 = StateStore.state_files restarted_store
  ∧ StateStore.state_files r.2 = StateStore.state_files restarted_store.
Proof.
  apply (list_all_states_lists_every_file listing restarted_store).
  - intros m. reflexivity.
  - intros file_id state H. done.
Defined.

Lemma delete_file_undoes_upload_witness :
  PDFService.delete_file "new"
    (world_of (PDFService.upload_and_process "new" (Some "manga.pdf") (inr 3) uploaded))
  = uploaded.
Proof.
  apply (delete_file_undoes_upload "new" (Some "manga.pdf") (inr 3) uploaded);
    [done|compute_done|].
  intros p. apply not_elem_of_empty.
Defined.

Lemma upload_extracts_every_page_witness :
  ∃ response w',
    PDFService.upload_and_process "new" (Some "manga.pdf") (inr 3) uploaded = Ok response w'
    ∧ PDFService.total_pages response = 3
    ∧ PDFService.file_id response = "new"
    ∧ PDFService.get_total_pages "new" w' = 3
    ∧ (∀ p, PDFService.get_page_image_path "new" p w' = true ↔ 1 ≤ p ≤ 3)
    ∧ PDFService.file_exists "new" w' = true
    ∧ PDFService.original_pdf_name "new" w' = "original.pdf"
    ∧ (∀ fid', fid' ≠ "new" → uploads w' !! fid' = uploads uploaded !! fid')
    ∧ outputs w' = outputs uploaded ∧ states w' = states uploaded.
Proof.
  apply (upload_extracts_every_page "new" (Some "manga.pdf") 3 uploaded); [done|lia].
Defined.

Lemma refused_commands_witness :
  Routes.pause_processing "doc" Routes.PAUSE uploaded
  = (Routes.Answer "Processing paused" (states uploaded !! "doc"), uploaded)
  ∧ Routes.continue_processing "doc" Routes.CONTINUE uploaded
    = (Routes.Answer "Processing continued" (states uploaded !! "doc"), uploaded)
  ∧ Routes.update_prompt "doc" "softer" uploaded
    = (Routes.Answer "Prompt updated successfully" None, uploaded).
Proof.
  destruct (refused_commands_are_answered_with_success "doc" uploaded) as (Hp & Hc & Hu).
  split; [by apply Hp|]. split; [by apply Hc|]. by apply Hu.
Defined.

Lemma uploaded_document_can_be_started_witness :
  ∃ response w1 state w2,
    PDFService.upload_and_process "new" (Some "manga.pdf") (inr 3) uploaded = Ok response w1
    ∧ Routes.start_processing (PDFService.file_id response) 2 "colour it" w1
      = (Routes.Success state, w2)
    ∧ states w2 !! "new" = Some state
    ∧ state = StateManager.with_status ProcessingStatus.PROCESSING None
                (StateManager.initial_state "new" "original.pdf" 3 2 "colour it")
    ∧ batch_layout state 3 2
    ∧ tasks w2 !! "new" = Some (next_task uploaded)
    ∧ events w2 = MsgStatus "new" "processing" "Processing started" :: events uploaded
    ∧ ("new" ∉ pause_signals w2) ∧ ("new" ∉ stop_signals w2)
    ∧ ("new" ∉ auto_run w2).
Proof.
  apply (uploaded_document_can_be_started "new" (Some "manga.pdf") 3 2 "colour it" uploaded);
    [done|lia|lia|done].
Defined.

Lemma finished_document_witness :
  _process_file fails_on_page_3 quiet 1 "doc" finished_doc
  = emit (MsgStatus "doc" "completed" "All pages processed")
      (StateManager.update_status "doc" ProcessingStatus.COMPLETED None finished_doc).
Proof.
  apply (finished_document_is_not_processed_again fails_on_page_3 1 "doc" finished_doc
           finished_state); [by vm_compute|compute_done|by vm_compute].
Defined.

Lemma completed_pages_keep_their_images_witness :
  images_kept (run_task fails_on_page_3 quiet 1 "doc" continued)
  ∧ ∀ p, p ∈ completed_pages paused_state →
         Routes.get_colorized_image "doc" p paused_after_1 = Some ("doc", p).
Proof.
  assert (images_kept uploaded) as H0 by (intros fid st H; done).
  pose proof (proj1 (proj2 (proj2
                (completed_pages_keep_their_output_images fails_on_page_3 quiet uploaded H0)))
                "doc" 10 "colour it") as H1.
  pose proof (proj1 (completed_pages_keep_their_output_images fails_on_page_3 quiet
                       started H1) 0%nat "doc") as H2.
  pose proof (proj1 (proj2
                (completed_pages_keep_their_output_images fails_on_page_3 quiet
                   paused_after_1 H2)) (CmdContinue "doc")) as H3.
  split.
  - exact (proj1 (completed_pages_keep_their_output_images fails_on_page_3 quiet
                    _ H3) 1%nat "doc").
  - intros p Hp.
    apply (proj2 (proj2 (proj2 (proj2 (proj2
             (completed_pages_keep_their_output_images fails_on_page_3 quiet
                paused_after_1 H2))))) "doc" paused_state p); [by vm_compute|done].
Defined.

Lemma mutations_keep_the_record_witness :
  let st0 := StateManager.initial_state "doc" "original.pdf" 24 10 "colour it" in
  let st := foldl (fun st m => mutated m st) st0 some_mutations in
  record_frame st = record_frame st0
  ∧ 1 ≤ current_batch st ≤ Z.max 1 (total_batches st0)
  ∧ pages_recorded st
  ∧ ranges_disjoint (batches st)
  ∧ pages_ascending st.
Proof.
  apply (mutations_keep_the_record_in_shape "doc" "original.pdf" 24 10 "colour it"
           some_mutations).
  lia.
Defined.

Lemma reviewing_every_batch_witness :
  let tp := PDFService.get_total_pages "doc" uploaded in
  let w' := review fails_on_page_3 (Z.to_nat (ceil_div tp 10)) "doc" started in
  ∃ st,
    states w' !! "doc" = Some st
    ∧ status st = ProcessingStatus.COMPLETED
    ∧ (∀ n, 1 ≤ n ≤ ceil_div tp 10 → batch_status_of n st = Some BatchStatus.COMPLETED)
    ∧ (∀ p, p ∈ completed_pages st ↔
            1 ≤ p ≤ tp ∧ colorizable fails_on_page_3 "doc" "colour it" uploaded p)
    ∧ BatchProcessor.task_active "doc" w' = false.
Proof.
  apply (reviewing_every_batch_completes_the_document fails_on_page_3 "doc" 10 "colour it"
           uploaded); [lia|by vm_compute|done|].
  intros t Ht. by apply not_elem_of_empty in Ht.
Defined.

End MoreScenarios.
